(** * PMS-Monitoring: the maintenance scheduling engine

    A shallow embedding of [backend/app/scheduler.py] and of the sequence
    number and completion endpoints of [backend/app/routers/contracts.py],
    with the properties of the scheduling specification stated over it. *)

From Stdlib Require Import ZArith List String Ascii Bool Lia Permutation Sorted.
From Stdlib Require Import DecimalString DecimalZ DecimalPos DecimalNat.
From Equations Require Import Equations.
Import ListNotations.

Local Open Scope string_scope.
Local Open Scope Z_scope.

(** ** Python values and exceptions *)

(** The exceptions the modelled code can raise or let escape. *)
Inductive exn : Type :=
| TypeError
| ValueError
| OverflowError
| HTTPException (status_code : Z) (detail : string).

(** The outcome of running a piece of Python: a value or a raised exception. *)
Inductive result (A : Type) : Type :=
| Return (a : A)
| Raise (e : exn).
Arguments Return {A} a.
Arguments Raise {A} e.

(** ** [datetime]

    A [datetime] value is identified with its proleptic Gregorian ordinal
    ([date.toordinal()], day 1 is 0001-01-01), its time of day in
    microseconds, and its UTC offset in microseconds when it is aware
    ([tzinfo] is not [None]). *)
Module PyDatetime.

Definition MAXORDINAL : Z := 3652059.
Definition DAY_US : Z := 86400000000.

Record datetime : Type := mkDatetime {
  ordinal : Z;
  micros : Z;
  utcoffset : option Z
}.

Definition valid_datetime (d : datetime) : Prop :=
  0 < ordinal d <= MAXORDINAL /\ 0 <= micros d < DAY_US.

(** The point on the time line a value denotes; for an aware value the
    offset is taken off, as [datetime.__sub__] does. *)
Definition instant (d : datetime) : Z :=
  ordinal d * DAY_US + micros d - match utcoffset d with Some o => o | None => 0 end.

Definition aware (d : datetime) : bool :=
  match utcoffset d with Some _ => true | None => false end.

(** [self <= other]: ordering a naive value against an aware one raises
    [TypeError]. *)
Definition datetime_le (a b : datetime) : result bool :=
  if Bool.eqb (aware a) (aware b) then Return (instant a <=? instant b)
  else Raise TypeError.

(** [self + timedelta(days=n)]: the date moves, the time of day and the
    [tzinfo] stay; a date outside 0001-01-01 .. 9999-12-31 raises
    [OverflowError]. *)
Definition add_days (d : datetime) (n : Z) : result datetime :=
  let o := ordinal d + n in
  if (0 <? o) && (o <=? MAXORDINAL)
  then Return (mkDatetime o (micros d) (utcoffset d))
  else Raise OverflowError.

(** [self.date()] is the ordinal; dates are ordered by it. *)
Definition date (d : datetime) : Z := ordinal d.

(** *** The calendar, after CPython's [datetime.py] *)

Definition is_leap (year : Z) : bool :=
  (year mod 4 =? 0) && (negb (year mod 100 =? 0) || (year mod 400 =? 0)).

Definition days_before_year (year : Z) : Z :=
  let y := year - 1 in y * 365 + y / 4 - y / 100 + y / 400.

Definition DAYS_IN_MONTH : list Z := [31; 28; 31; 30; 31; 30; 31; 31; 30; 31; 30; 31].

Definition days_in_month (year month : Z) : Z :=
  if (month =? 2) && is_leap year then 29
  else nth (Z.to_nat (month - 1)) DAYS_IN_MONTH 0.

Definition DAYS_BEFORE_MONTH : list Z :=
  [0; 31; 59; 90; 120; 151; 181; 212; 243; 273; 304; 334].

Definition days_before_month (year month : Z) : Z :=
  nth (Z.to_nat (month - 1)) DAYS_BEFORE_MONTH 0
  + (if (2 <? month) && is_leap year then 1 else 0).

Definition ymd2ord (year month day : Z) : Z :=
  days_before_year year + days_before_month year month + day.

Definition DI400Y : Z := 146097.
Definition DI100Y : Z := 36524.
Definition DI4Y : Z := 1461.

Definition ord2ymd (n : Z) : Z * Z * Z :=
  let n := n - 1 in
  let n400 := n / DI400Y in
  let n := n mod DI400Y in
  let year := n400 * 400 + 1 in
  let n100 := n / DI100Y in
  let n := n mod DI100Y in
  let n4 := n / DI4Y in
  let n := n mod DI4Y in
  let n1 := n / 365 in
  let n := n mod 365 in
  let year := year + n100 * 100 + n4 * 4 + n1 in
  if (n1 =? 4) || (n100 =? 4) then (year - 1, 12, 31)
  else
    let leapyear := (n1 =? 3) && (negb (n4 =? 24) || (n100 =? 3)) in
    let month := Z.shiftr (n + 50) 5 in
    let preceding :=
      nth (Z.to_nat (month - 1)) DAYS_BEFORE_MONTH 0
      + (if (2 <? month) && leapyear then 1 else 0) in
    if n <? preceding then
      let month := month - 1 in
      let preceding :=
        preceding - (nth (Z.to_nat (month - 1)) DAYS_IN_MONTH 0
                     + (if (month =? 2) && leapyear then 1 else 0)) in
      (year, month, n - preceding + 1)
    else (year, month, n - preceding + 1).

(** [datetime(year, month, day, hour, minute, second)], naive. *)
Definition naive (year month day hour minute second : Z) : datetime :=
  mkDatetime (ymd2ord year month day) (((hour * 60 + minute) * 60 + second) * 1000000) None.

(** *** [isoformat] *)

Definition digit (n : Z) : ascii := ascii_of_nat (48 + Z.to_nat (n mod 10)).

(** ["%0<w>d" % n] for a non-negative [n] that fits. *)
Fixpoint zero_pad (w : nat) (n : Z) : string :=
  match w with
  | O => EmptyString
  | S w' => zero_pad w' (n / 10) ++ String (digit n) EmptyString
  end.

Definition format_time (us : Z) : string :=
  let s := us / 1000000 in
  zero_pad 2 (s / 3600) ++ ":" ++ zero_pad 2 (s / 60 mod 60) ++ ":" ++ zero_pad 2 (s mod 60)
  ++ (if us mod 1000000 =? 0 then "" else "." ++ zero_pad 6 (us mod 1000000)).

Definition format_offset (off : option Z) : string :=
  match off with
  | None => ""
  | Some o =>
    let sign := if o <? 0 then "-" else "+" in
    let o := Z.abs o in
    let s := o / 1000000 in
    sign ++ zero_pad 2 (s / 3600) ++ ":" ++ zero_pad 2 (s / 60 mod 60)
    ++ (if (s mod 60 =? 0) && (o mod 1000000 =? 0) then ""
        else ":" ++ zero_pad 2 (s mod 60)
             ++ (if o mod 1000000 =? 0 then "" else "." ++ zero_pad 6 (o mod 1000000)))
  end.

Definition format_date (ord : Z) : string :=
  let '(y, m, d) := ord2ymd ord in
  zero_pad 4 y ++ "-" ++ zero_pad 2 m ++ "-" ++ zero_pad 2 d.

Definition isoformat (d : datetime) : string :=
  format_date (ordinal d) ++ "T" ++ format_time (micros d) ++ format_offset (utcoffset d).

End PyDatetime.
Import PyDatetime.

(** What the endpoints and the scheduler receive where a date is expected:
    [None], a string, or a [datetime] object. *)
Inductive pyval : Type :=
| PNone
| PStr (s : string)
| PDatetime (d : datetime).

(** Python truthiness: [None] and the empty string are false. *)
Definition truthy (v : pyval) : bool :=
  match v with
  | PNone => false
  | PStr s => negb (String.eqb s "")
  | PDatetime _ => true
  end.

(** [s.replace('Z', '+00:00')] *)
Fixpoint replace_Z (s : string) : string :=
  match s with
  | EmptyString => EmptyString
  | String c r =>
    if Ascii.eqb c "Z" then "+00:00" ++ replace_Z r else String c (replace_Z r)
  end.

(** ** A parser for the worked examples

    [datetime.fromisoformat] is library code whose accepted grammar grew
    between Python versions, so the scheduler below takes it as a parameter.
    [iso_parse] instantiates it for the examples; it covers the forms every
    version accepts, [YYYY-MM-DD] and [YYYY-MM-DD?HH:MM:SS] with an optional
    [.ffffff] fraction and an optional [+HH:MM] or [-HH:MM] offset. [None]
    stands for [ValueError]. *)
Module IsoParse.

Definition digit_value (c : ascii) : option Z :=
  let n := Z.of_nat (nat_of_ascii c) in
  if (48 <=? n) && (n <=? 57) then Some (n - 48) else None.

(** Reads exactly [k] decimal digits. *)
Fixpoint digits (k : nat) (acc : Z) (s : string) : option (Z * string) :=
  match k with
  | O => Some (acc, s)
  | S k' =>
    match s with
    | EmptyString => None
    | String c r =>
      match digit_value c with
      | Some v => digits k' (acc * 10 + v) r
      | None => None
      end
    end
  end.

Definition expect (c : ascii) (s : string) : option string :=
  match s with
  | String c' r => if Ascii.eqb c c' then Some r else None
  | EmptyString => None
  end.

Definition bind {A B : Type} (o : option A) (f : A -> option B) : option B :=
  match o with Some a => f a | None => None end.

Notation "'let?' p := e 'in' k" := (bind e (fun p => k))
  (at level 10, p pattern, e at level 100, k at level 200).

Definition parse_date (s : string) : option (Z * string) :=
  let? (y, s) := digits 4 0 s in
  let? s := expect "-" s in
  let? (m, s) := digits 2 0 s in
  let? s := expect "-" s in
  let? (d, s) := digits 2 0 s in
  if (1 <=? y) && (1 <=? m) && (m <=? 12) && (1 <=? d) && (d <=? days_in_month y m)
  then Some (ymd2ord y m d, s) else None.

Definition parse_hms (s : string) : option (Z * string) :=
  let? (h, s) := digits 2 0 s in
  let? s := expect ":" s in
  let? (mi, s) := digits 2 0 s in
  let? s := expect ":" s in
  let? (sec, s) := digits 2 0 s in
  if (h <? 24) && (mi <? 60) && (sec <? 60)
  then Some (((h * 60 + mi) * 60 + sec) * 1000000, s) else None.

Definition parse_fraction (s : string) : option (Z * string) :=
  match s with
  | String "." r => digits 6 0 r
  | _ => Some (0, s)
  end.

Definition parse_offset (s : string) : option (option Z) :=
  match s with
  | EmptyString => Some None
  | String c r =>
    let? sign := (if Ascii.eqb c "+" then Some 1
                  else if Ascii.eqb c "-" then Some (-1) else None) in
    let? (h, r) := digits 2 0 r in
    let? r := expect ":" r in
    let? (mi, r) := digits 2 0 r in
    match r with
    | EmptyString =>
      if (h <? 24) && (mi <? 60)
      then Some (Some (sign * ((h * 60 + mi) * 60 * 1000000))) else None
    | _ => None
    end
  end.

Definition iso_parse (s : string) : option datetime :=
  let? (ord, s) := parse_date s in
  match s with
  | EmptyString => Some (mkDatetime ord 0 None)
  | String _ s =>
    let? (t, s) := parse_hms s in
    let? (f, s) := parse_fraction s in
    let? off := parse_offset s in
    Some (mkDatetime ord (t + f) off)
  end.

End IsoParse.
Import IsoParse.

(** ** Sequencing of computations that may raise *)

Definition rbind {A B : Type} (r : result A) (k : A -> result B) : result B :=
  match r with
  | Return a => k a
  | Raise e => Raise e
  end.

Notation "x <- r ;; k" := (rbind r (fun x => k))
  (at level 61, r at next level, right associativity).

(** ** The store

    The rows of [hardware_contracts] and [label_contracts] (one shape; for a
    label contract [model] holds its [part_number]), of [service_history],
    [users], [notifications] and [audit_trails], with the columns the
    modelled code reads or writes. Nullable text columns are [option]s. *)

Record contract : Type := mkContract {
  id : string;
  sq : option string;
  end_user : string;
  model : string;
  serial : string;
  po_number : option string;
  branch : option string;
  technical_specialist : option string;
  status : string;
  date_of_contract : option string;
  end_of_contract : option string;
  next_pms_schedule : option string;
  created_at : Z;
  updated_at : string
}.

Record service_event : Type := mkServiceEvent {
  sh_id : string;
  sh_contract_id : string;
  sh_contract_type : string;
  sh_service_date : string;
  sh_service_type : string;
  sh_description : string;
  sh_technician : option string;
  sh_status : string;
  sh_service_report : string;
  sh_company : string;
  sh_location : option string;
  sh_model : string;
  sh_serial : string;
  sh_sales : option string;
  sh_sr_number : string;
  sh_created_by : string;
  sh_created_at : string
}.

Record user : Type := mkUser {
  user_id : string;
  full_name : string;
  role : string
}.

Record notification : Type := mkNotification {
  n_user_id : string;
  n_title : string;
  n_message : string;
  n_notification_type : string;
  n_contract_id : string;
  n_is_read : bool
}.

Record audit_trail : Type := mkAudit {
  a_entity_type : string;
  a_entity_id : string;
  a_action : string;
  a_description : string;
  a_ip_address : option string;
  a_created_by : string;
  a_created_at : string
}.

(** [history_reachable] is the answer of
    [ensure_service_history_table_exists]: whether [service_history] can be
    queried (or created). *)
Record db : Type := mkDb {
  hardware_contracts : list contract;
  label_contracts : list contract;
  service_history : list service_event;
  users : list user;
  notifications : list notification;
  audit_trails : list audit_trail;
  history_reachable : bool
}.

(** Truthiness and [str()] of an optional string. *)
Definition truthy_str (o : option string) : bool :=
  match o with
  | Some s => negb (String.eqb s "")
  | None => false
  end.

Definition fstr (o : option string) : string :=
  match o with
  | Some s => s
  | None => "None"
  end.

(** [table.update(fields).eq("id", key)]: every row whose [id] is [key] is
    rewritten. *)
Definition update_eq_id (key : string) (f : contract -> contract)
    (table : list contract) : list contract :=
  map (fun r => if String.eqb (id r) key then f r else r) table.

(** [table.select("*").neq("status", "expired")] *)
Definition select_neq_expired (table : list contract) : list contract :=
  filter (fun r => negb (String.eqb (status r) "expired")) table.

(** [table.select("*").eq("id", key)] *)
Definition select_eq_id (key : string) (table : list contract) : list contract :=
  filter (fun r => String.eqb (id r) key) table.

Definition set_status_expired (now : datetime) (r : contract) : contract :=
  mkContract (id r) (sq r) (end_user r) (model r) (serial r) (po_number r)
    (branch r) (technical_specialist r) "expired" (date_of_contract r)
    (end_of_contract r) (next_pms_schedule r) (created_at r) (isoformat now).

Definition set_next_pms_schedule (next_pms now : datetime) (r : contract) : contract :=
  mkContract (id r) (sq r) (end_user r) (model r) (serial r) (po_number r)
    (branch r) (technical_specialist r) (status r) (date_of_contract r)
    (end_of_contract r) (Some (isoformat next_pms)) (created_at r) (isoformat now).

Definition set_sq (s : string) (r : contract) : contract :=
  mkContract (id r) (Some s) (end_user r) (model r) (serial r) (po_number r)
    (branch r) (technical_specialist r) (status r) (date_of_contract r)
    (end_of_contract r) (next_pms_schedule r) (created_at r) (updated_at r).

(** ** [scheduler.py]: date arithmetic *)

Definition calculate_next_pms_from_contract_date
    (contract_date : datetime) (contract_type : string) : result datetime :=
  if String.eqb contract_type "hardware" then add_days contract_date 90
  else if String.eqb contract_type "label" then add_days contract_date 30
  else add_days contract_date 30.

(** The interval chosen by [generate_full_pms_schedule], with the fact the
    loop's termination rests on. *)
Definition interval_days (contract_type : string) : Z :=
  if String.eqb contract_type "hardware" then 90
  else if String.eqb contract_type "label" then 30
  else 30.

Lemma interval_days_pos (contract_type : string) : 0 < interval_days contract_type.
Proof.
  unfold interval_days.
  destruct (String.eqb contract_type "hardware"); [lia|].
  destruct (String.eqb contract_type "label"); lia.
Qed.

Lemma datetime_le_true_instant (a b : datetime) :
  datetime_le a b = Return true -> instant a <= instant b.
Proof.
  unfold datetime_le.
  destruct (Bool.eqb (aware a) (aware b)); [|discriminate].
  intros H. injection H as H. now apply Z.leb_le.
Qed.

Lemma add_days_instant (d d' : datetime) (n : Z) :
  add_days d n = Return d' -> instant d' = instant d + n * DAY_US.
Proof.
  unfold add_days.
  destruct ((0 <? ordinal d + n) && (ordinal d + n <=? MAXORDINAL)); [|discriminate].
  intros H. injection H as <-. unfold instant. simpl. lia.
Qed.

Definition inspect {A : Type} (a : A) : {b : A | a = b} := exist _ a eq_refl.

(** How many whole intervals of [days] days fit between two values. *)
Definition intervals_between (from to : datetime) (days : Z) : Z :=
  (instant to - instant from) / (days * DAY_US).

Lemma intervals_between_step (end_date cur next : datetime) (days : Z) :
  0 < days ->
  datetime_le cur end_date = Return true ->
  add_days cur days = Return next ->
  0 <= intervals_between cur end_date days /\
  intervals_between next end_date days = intervals_between cur end_date days - 1.
Proof.
  intros Hpos Hle Hadd.
  apply datetime_le_true_instant in Hle.
  apply add_days_instant in Hadd.
  unfold intervals_between. rewrite Hadd.
  assert (HK : 0 < days * DAY_US) by (unfold DAY_US; lia).
  split.
  - apply Z.div_pos; lia.
  - replace (instant end_date - (instant cur + days * DAY_US))
      with (instant end_date - instant cur + (-1) * (days * DAY_US)) by lia.
    rewrite Z.div_add by lia. lia.
Qed.

(** The [while current_date <= end_date] loop of
    [generate_full_pms_schedule]. *)
Equations? schedule_loop (end_date : datetime) (days : Z) (Hpos : 0 < days)
    (current_date : datetime) (pms_schedules : list string) : result (list string)
    by wf (Z.to_nat (intervals_between current_date end_date days + 1)) lt :=
  schedule_loop end_date days Hpos current_date pms_schedules
    with inspect (datetime_le current_date end_date) := {
    | exist _ (Raise e) _ => Raise e
    | exist _ (Return false) _ => Return pms_schedules
    | exist _ (Return true) Hle
        with inspect (add_days current_date days) := {
        | exist _ (Raise e) _ => Raise e
        | exist _ (Return next_pms) Hadd
            with datetime_le next_pms end_date := {
            | Raise e => Raise e
            | Return true =>
                schedule_loop end_date days Hpos next_pms
                  (pms_schedules ++ [isoformat next_pms])%list
            | Return false =>
                schedule_loop end_date days Hpos next_pms pms_schedules } } }.
Proof.
  all: destruct (intervals_between_step _ _ _ _ Hpos Hle Hadd) as [H0 H1];
    rewrite H1; lia.
Qed.

(** ** [scheduler.py]: the functions that read dates *)

Section Scheduler.

(** [datetime.fromisoformat]; [None] stands for the [ValueError] it raises
    on a string it does not accept. *)
Variable fromisoformat : string -> option datetime.

Definition parse_iso (s : string) : result datetime :=
  match fromisoformat s with
  | Some d => Return d
  | None => Raise ValueError
  end.

(** [if isinstance(v, str): v = datetime.fromisoformat(v.replace('Z', '+00:00'))]
    under [try]: a string is parsed, a [datetime] passes through. *)
Definition as_datetime (v : pyval) : option datetime :=
  match v with
  | PNone => None
  | PStr s => fromisoformat (replace_Z s)
  | PDatetime d => Some d
  end.

Definition calculate_next_pms_schedule
    (contract_date : pyval) (contract_type : string) (current_schedule : pyval)
    : result (option datetime) :=
  if negb (truthy contract_date) then Return None
  else
    match as_datetime contract_date with
    | None => Return None
    | Some contract_date =>
      if negb (truthy current_schedule) then
        d <- calculate_next_pms_from_contract_date contract_date contract_type ;;
        Return (Some d)
      else
        match as_datetime current_schedule with
        | None =>
          d <- calculate_next_pms_from_contract_date contract_date contract_type ;;
          Return (Some d)
        | Some current_schedule =>
          d <- (if String.eqb contract_type "hardware" then add_days current_schedule 90
                else if String.eqb contract_type "label" then add_days current_schedule 30
                else add_days current_schedule 30) ;;
          Return (Some d)
        end
    end.

Definition generate_full_pms_schedule
    (contract_date end_date : pyval) (contract_type : string) : result (list string) :=
  if negb (truthy contract_date) || negb (truthy end_date) then Return []
  else
    match as_datetime contract_date with
    | None => Return []
    | Some contract_date =>
      match as_datetime end_date with
      | None => Return []
      | Some end_date =>
        schedule_loop end_date (interval_days contract_type)
          (interval_days_pos contract_type) contract_date []
      end
    end.

(** *** The due-soon scan *)

(** One round of [for contract in all_contracts]; a row is the contract
    with the ["contract_type"] key added. *)
Fixpoint upcoming_loop (upcoming_date : datetime)
    (all_contracts upcoming_contracts : list (contract * string))
    : result (list (contract * string)) :=
  match all_contracts with
  | [] => Return upcoming_contracts
  | c :: rest =>
    match next_pms_schedule (fst c) with
    | Some s =>
      if negb (String.eqb s "") then
        next_maintenance <- parse_iso (replace_Z s) ;;
        b <- datetime_le next_maintenance upcoming_date ;;
        upcoming_loop upcoming_date rest
          (if b then upcoming_contracts ++ [c] else upcoming_contracts)%list
      else upcoming_loop upcoming_date rest upcoming_contracts
    | None => upcoming_loop upcoming_date rest upcoming_contracts
    end
  end.

(** [send_maintenance_notification]: one inbox row per technician and admin. *)
Definition send_maintenance_notification (c : contract * string) (d : db) : db :=
  let recipients :=
    filter (fun u => String.eqb (role u) "technician" || String.eqb (role u) "admin")
      (users d) in
  let rows :=
    map (fun u =>
      mkNotification (user_id u)
        ("Upcoming Maintenance - " ++ fstr (sq (fst c)))
        ("Maintenance is due for " ++ snd c ++ " contract " ++ fstr (sq (fst c))
         ++ " on " ++ substring 0 10 (fstr (next_pms_schedule (fst c))))
        "maintenance_reminder" (id (fst c)) false) recipients in
  mkDb (hardware_contracts d) (label_contracts d) (service_history d) (users d)
    (notifications d ++ rows)%list (audit_trails d) (history_reachable d).

(** [check_upcoming_maintenance], run when the clock reads [now]. It returns
    the store and the contracts a notification was sent for. The whole body
    is under one [try]: an exception is logged and ends the run. *)
Definition check_upcoming_maintenance (now : datetime) (d : db)
    : db * list (contract * string) :=
  let hw_contracts := select_neq_expired (hardware_contracts d) in
  let lb_contracts := select_neq_expired (label_contracts d) in
  let all_contracts :=
    (map (fun c => (c, "hardware"))
       (filter (fun c => negb (String.eqb (status c) "expired")) hw_contracts)
     ++ map (fun c => (c, "label"))
       (filter (fun c => negb (String.eqb (status c) "expired")) lb_contracts))%list in
  match (upcoming_date <- add_days now 7 ;;
         upcoming_loop upcoming_date all_contracts []) with
  | Return upcoming_contracts =>
    (fold_left (fun d c => send_maintenance_notification c d) upcoming_contracts d,
     upcoming_contracts)
  | Raise _ => (d, [])
  end.

(** *** The expiry scan *)

(** What one run reports: the two counters and the ids it logged as marked. *)
Record expiry_report : Type := mkReport {
  expired_hw_count : Z;
  expired_label_count : Z;
  marked : list string
}.

(** [for contract in contracts] over the rows selected at the start, writing
    to [table]. A date that does not parse is logged and the row skipped. *)
Fixpoint expire_loop (current_date : Z) (now : datetime)
    (contracts table : list contract) (count : Z) (log : list string)
    : list contract * Z * list string :=
  match contracts with
  | [] => (table, count, log)
  | c :: rest =>
    match end_of_contract c with
    | Some s =>
      if negb (String.eqb s "") then
        match fromisoformat (replace_Z s) with
        | Some end_date =>
          if date end_date <? current_date then
            expire_loop current_date now rest
              (update_eq_id (id c) (set_status_expired now) table)
              (count + 1) (log ++ [id c])%list
          else expire_loop current_date now rest table count log
        | None => expire_loop current_date now rest table count log
        end
      else expire_loop current_date now rest table count log
    | None => expire_loop current_date now rest table count log
    end
  end.

Definition check_expired_contracts (now : datetime) (d : db) : db * expiry_report :=
  let current_date := date now in
  let hw_contracts := select_neq_expired (hardware_contracts d) in
  let lb_contracts := select_neq_expired (label_contracts d) in
  let '(hw, expired_hw_count, log) :=
    expire_loop current_date now hw_contracts (hardware_contracts d) 0 [] in
  let '(lb, expired_label_count, log) :=
    expire_loop current_date now lb_contracts (label_contracts d) 0 log in
  (mkDb hw lb (service_history d) (users d) (notifications d) (audit_trails d)
     (history_reachable d),
   mkReport expired_hw_count expired_label_count log).

End Scheduler.

(** ** [routers/contracts.py]: sequence numbers *)

(** [str(n)] for an [int]. *)
Definition py_str (n : Z) : string := NilZero.string_of_int (Z.to_int n).

(** *** Text

    A Python [str] is held as its UTF-8 encoding, so that a string written
    here in ASCII is the Python string of the same spelling. The classes
    of characters are those of the Unicode database of CPython 3.11
    (Unicode 14.0). *)

Definition code (c : ascii) : Z := Z.of_nat (nat_of_ascii c).

Definition continuation (b : Z) : bool := (0x80 <=? b) && (b <=? 0xBF).

(** The characters of a text: the code point of each, with the bytes that
    hold it. A byte that is part of no well-formed UTF-8 sequence, which no
    Python [str] gives rise to, stands alone as a character of no class. *)
Fixpoint chars (s : string) : list (Z * string) :=
  match s with
  | EmptyString => []
  | String a s1 =>
    let a0 := code a in
    let lone := (0xDC00 + a0, String a EmptyString) in
    if a0 <? 0x80 then (a0, String a EmptyString) :: chars s1
    else
      match s1 with
      | EmptyString => [lone]
      | String b s2 =>
        let b0 := code b in
        if (0xC2 <=? a0) && (a0 <=? 0xDF) && continuation b0
        then ((a0 - 0xC0) * 0x40 + (b0 - 0x80), String a (String b EmptyString))
             :: chars s2
        else
          match s2 with
          | EmptyString => lone :: chars s1
          | String c s3 =>
            let c0 := code c in
            let cp := (a0 - 0xE0) * 0x1000 + (b0 - 0x80) * 0x40 + (c0 - 0x80) in
            if (0xE0 <=? a0) && (a0 <=? 0xEF) && continuation b0 && continuation c0
               && (0x800 <=? cp) && negb ((0xD800 <=? cp) && (cp <=? 0xDFFF))
            then (cp, String a (String b (String c EmptyString))) :: chars s3
            else
              match s3 with
              | EmptyString => lone :: chars s1
              | String d s4 =>
                let d0 := code d in
                let cp := (a0 - 0xF0) * 0x40000 + (b0 - 0x80) * 0x1000
                          + (c0 - 0x80) * 0x40 + (d0 - 0x80) in
                if (0xF0 <=? a0) && (a0 <=? 0xF4) && continuation b0
                   && continuation c0 && continuation d0
                   && (0x10000 <=? cp) && (cp <=? 0x10FFFF)
                then (cp, String a (String b (String c (String d EmptyString))))
                     :: chars s4
                else lone :: chars s1
              end
          end
      end
  end.

(** The text a list of characters spells. *)
Definition text_of (l : list (Z * string)) : string :=
  fold_right (fun c s => snd c ++ s) "" l.

Definition in_ranges (ranges : list (Z * Z)) (cp : Z) : bool :=
  existsb (fun r => (fst r <=? cp) && (cp <=? snd r)) ranges.

(** [Py_UNICODE_ISSPACE]: the whitespace [str.strip] removes. *)
Definition space_ranges : list (Z * Z) :=
  [(0x9, 0xD); (0x1C, 0x20); (0x85, 0x85); (0xA0, 0xA0);
   (0x1680, 0x1680); (0x2000, 0x200A); (0x2028, 0x2029); (0x202F, 0x202F);
   (0x205F, 0x205F); (0x3000, 0x3000)].

Definition is_space (cp : Z) : bool := in_ranges space_ranges cp.

(** The decimal digits (category Nd): runs of ten, or of a multiple of ten,
    each ten counting from zero. *)
Definition decimal_ranges : list (Z * Z) :=
  [(0x30, 0x39); (0x660, 0x669); (0x6F0, 0x6F9); (0x7C0, 0x7C9);
   (0x966, 0x96F); (0x9E6, 0x9EF); (0xA66, 0xA6F); (0xAE6, 0xAEF);
   (0xB66, 0xB6F); (0xBE6, 0xBEF); (0xC66, 0xC6F); (0xCE6, 0xCEF);
   (0xD66, 0xD6F); (0xDE6, 0xDEF); (0xE50, 0xE59); (0xED0, 0xED9);
   (0xF20, 0xF29); (0x1040, 0x1049); (0x1090, 0x1099); (0x17E0, 0x17E9);
   (0x1810, 0x1819); (0x1946, 0x194F); (0x19D0, 0x19D9); (0x1A80, 0x1A89);
   (0x1A90, 0x1A99); (0x1B50, 0x1B59); (0x1BB0, 0x1BB9); (0x1C40, 0x1C49);
   (0x1C50, 0x1C59); (0xA620, 0xA629); (0xA8D0, 0xA8D9); (0xA900, 0xA909);
   (0xA9D0, 0xA9D9); (0xA9F0, 0xA9F9); (0xAA50, 0xAA59); (0xABF0, 0xABF9);
   (0xFF10, 0xFF19); (0x104A0, 0x104A9); (0x10D30, 0x10D39); (0x11066, 0x1106F);
   (0x110F0, 0x110F9); (0x11136, 0x1113F); (0x111D0, 0x111D9); (0x112F0, 0x112F9);
   (0x11450, 0x11459); (0x114D0, 0x114D9); (0x11650, 0x11659); (0x116C0, 0x116C9);
   (0x11730, 0x11739); (0x118E0, 0x118E9); (0x11950, 0x11959); (0x11C50, 0x11C59);
   (0x11D50, 0x11D59); (0x11DA0, 0x11DA9); (0x16A60, 0x16A69); (0x16AC0, 0x16AC9);
   (0x16B50, 0x16B59); (0x1D7CE, 0x1D7FF); (0x1E140, 0x1E149); (0x1E2F0, 0x1E2F9);
   (0x1E950, 0x1E959); (0x1FBF0, 0x1FBF9)].

(** [Py_UNICODE_TODECIMAL] *)
Definition to_decimal (cp : Z) : option Z :=
  match find (fun r => (fst r <=? cp) && (cp <=? snd r)) decimal_ranges with
  | Some r => Some ((cp - fst r) mod 10)
  | None => None
  end.

(** The characters with a digit value that are no decimal digits:
    superscripts, subscripts, circled digits and the like. *)
Definition other_digit_ranges : list (Z * Z) :=
  [(0xB2, 0xB3); (0xB9, 0xB9); (0x1369, 0x1371); (0x19DA, 0x19DA);
   (0x2070, 0x2070); (0x2074, 0x2079); (0x2080, 0x2089); (0x2460, 0x2468);
   (0x2474, 0x247C); (0x2488, 0x2490); (0x24EA, 0x24EA); (0x24F5, 0x24FD);
   (0x24FF, 0x24FF); (0x2776, 0x277E); (0x2780, 0x2788); (0x278A, 0x2792);
   (0x10A40, 0x10A43); (0x10E60, 0x10E68); (0x11052, 0x1105A); (0x1F100, 0x1F10A)].

(** [Py_UNICODE_ISDIGIT] *)
Definition is_digit (cp : Z) : bool :=
  in_ranges decimal_ranges cp || in_ranges other_digit_ranges cp.

(** [s.isdigit()]: at least one character, and digits only. *)
Definition isdigit (s : string) : bool :=
  match chars s with
  | [] => false
  | l => forallb (fun c => is_digit (fst c)) l
  end.

Fixpoint lstrip_chars (l : list (Z * string)) : list (Z * string) :=
  match l with
  | c :: r => if is_space (fst c) then lstrip_chars r else l
  | [] => []
  end.

(** [s.strip()] *)
Definition strip (s : string) : string :=
  text_of (rev (lstrip_chars (rev (lstrip_chars (chars s))))).

(** What [int] makes of the characters before it parses
    ([_PyUnicode_TransformDecimalAndSpaceToASCII]): whitespace beyond ASCII
    becomes a blank, a decimal digit its ASCII digit, and at any other
    character beyond ASCII the text ends in a question mark. *)
Fixpoint transform (l : list (Z * string)) : list Z :=
  match l with
  | [] => []
  | c :: r =>
    let cp := fst c in
    if cp <? 0x7F then cp :: transform r
    else if is_space cp then 0x20 :: transform r
    else
      match to_decimal cp with
      | Some v => (0x30 + v) :: transform r
      | None => [0x3F]
      end
  end.

(** [Py_ISSPACE], the whitespace of the C locale. *)
Definition c_isspace (b : Z) : bool := (b =? 0x20) || ((0x9 <=? b) && (b <=? 0xD)).

Fixpoint skip_space (l : list Z) : list Z :=
  match l with
  | b :: r => if c_isspace b then skip_space r else l
  | [] => []
  end.

(** The digits of an [int()] literal in base ten: decimal digits with single
    underscores between them, then nothing but whitespace. *)
Fixpoint int_digits (l : list Z) (acc : Z) (after_digit : bool) : option Z :=
  match l with
  | [] => if after_digit then Some acc else None
  | b :: r =>
    if (0x30 <=? b) && (b <=? 0x39) then int_digits r (acc * 10 + (b - 0x30)) true
    else if (b =? 0x5F) && after_digit then int_digits r acc false
    else if after_digit then
      match skip_space l with
      | [] => Some acc
      | _ :: _ => None
      end
    else None
  end.

(** [int(s)] for a string; [None] stands for [ValueError]. The interpreter's
    cap on the length of a numeral ([sys.set_int_max_str_digits], which
    [str] of an [int] is under as well) is a setting of the deployment and
    is taken as lifted. *)
Definition py_int (s : string) : option Z :=
  match skip_space (transform (chars s)) with
  | 0x2D :: r => option_map Z.opp (int_digits r 0 false)
  | 0x2B :: r => int_digits r 0 false
  | r => int_digits r 0 false
  end.

(** [.order("created_at", desc=...)]: an insertion sort on the creation
    instant. Rows created at the same instant come in an order the store is
    free to choose; here the one met later in the table comes first. *)
Fixpoint insert_by (desc : bool) (r : contract) (rows : list contract) : list contract :=
  match rows with
  | [] => [r]
  | x :: rest =>
    if (if desc then created_at x <? created_at r else created_at r <? created_at x)
    then r :: x :: rest
    else x :: insert_by desc r rest
  end.

Definition order_by_created_at (desc : bool) (table : list contract) : list contract :=
  fold_right (insert_by desc) [] table.

(** [_get_next_sq(supabase, table_name)] on the rows of that table. *)
Definition _get_next_sq (table : list contract) : string :=
  match firstn 1 (order_by_created_at true table) with
  | last :: _ =>
    let raw := strip (match sq last with Some s => s | None => "" end) in
    match py_int raw with
    | Some n => py_str (n + 1)
    | None => "1"
    end
  | [] => "1"
  end.

(** [for idx, r in enumerate(rows, start=1)]: one update per selected row. *)
Fixpoint resequence_loop (idx : Z) (rows table : list contract) : list contract :=
  match rows with
  | [] => table
  | r :: rest =>
    resequence_loop (idx + 1) rest (update_eq_id (id r) (set_sq (py_str idx)) table)
  end.

(** The two resequencing endpoints return the store and ["updated"]. *)
Definition resequence_hardware_sq (d : db) : db * Z :=
  let rows := order_by_created_at false (hardware_contracts d) in
  (mkDb (resequence_loop 1 rows (hardware_contracts d)) (label_contracts d)
     (service_history d) (users d) (notifications d) (audit_trails d)
     (history_reachable d),
   Z.of_nat (List.length rows)).

Definition resequence_label_sq (d : db) : db * Z :=
  let rows := order_by_created_at false (label_contracts d) in
  (mkDb (hardware_contracts d) (resequence_loop 1 rows (label_contracts d))
     (service_history d) (users d) (notifications d) (audit_trails d)
     (history_reachable d),
   Z.of_nat (List.length rows)).


(** ** [routers/contracts.py]: recording a completed visit *)

Definition upper_char (c : ascii) : ascii :=
  let n := nat_of_ascii c in
  if (97 <=? n)%nat && (n <=? 122)%nat then ascii_of_nat (n - 32) else c.

(** [s.upper()] on ASCII text. *)
Fixpoint upper (s : string) : string :=
  match s with
  | EmptyString => EmptyString
  | String c r => String (upper_char c) (upper r)
  end.

(** [dt.strftime('%Y%m%d')], as the C library of the deployment (glibc)
    formats it: the year as it is, not padded to four digits, then month and
    day on two digits each. *)
Definition strftime_Ymd (dt : datetime) : string :=
  let '(y, m, d) := ord2ymd (ordinal dt) in
  py_str y ++ zero_pad 2 m ++ zero_pad 2 d.

(** The two tables, and what differs between the two endpoints. *)
Inductive contract_class : Type := Hardware | Label.

Definition table_of (cls : contract_class) (d : db) : list contract :=
  match cls with
  | Hardware => hardware_contracts d
  | Label => label_contracts d
  end.

Definition with_table (cls : contract_class) (rows : list contract) (d : db) : db :=
  match cls with
  | Hardware =>
    mkDb rows (label_contracts d) (service_history d) (users d) (notifications d)
      (audit_trails d) (history_reachable d)
  | Label =>
    mkDb (hardware_contracts d) rows (service_history d) (users d) (notifications d)
      (audit_trails d) (history_reachable d)
  end.

Definition contract_type_of (cls : contract_class) : string :=
  match cls with Hardware => "hardware" | Label => "label" end.

Definition not_found_detail (cls : contract_class) : string :=
  match cls with
  | Hardware => "Hardware contract not found"
  | Label => "Label contract not found"
  end.

Definition failure_detail (cls : contract_class) : string :=
  match cls with
  | Hardware => "Error completing hardware PMS"
  | Label => "Error completing label PMS"
  end.

Definition audit_entity_of (cls : contract_class) : string :=
  match cls with Hardware => "hardware_contract" | Label => "label_contract" end.

(** [timedelta(days=90)] for hardware, [timedelta(days=30)] for label. *)
Definition completion_interval (cls : contract_class) : Z :=
  match cls with Hardware => 90 | Label => 30 end.

Definition insert_service_history (e : service_event) (d : db) : db :=
  mkDb (hardware_contracts d) (label_contracts d) (service_history d ++ [e])%list
    (users d) (notifications d) (audit_trails d) (history_reachable d).

(** [AuditService.log_contract_activity] *)
Definition log_contract_activity (contract_id contract_type action description : string)
    (uid : string) (ip_address : option string) (now : datetime) (d : db) : db :=
  mkDb (hardware_contracts d) (label_contracts d) (service_history d) (users d)
    (notifications d)
    (audit_trails d
     ++ [mkAudit contract_type contract_id action description ip_address uid
           (isoformat now)])%list
    (history_reachable d).

(** The query parameters of a [complete-pms] request. *)
Record completion_request : Type := mkRequest {
  technician : option string;
  service_report : option string;
  sr_number : option string;
  sales_name : option string;
  location : option string;
  completion_date : option string;
  client_host : option string
}.

Record completion_response : Type := mkResponse {
  message : string;
  service_history_id : string;
  response_next_pms_schedule : string
}.

Section Completion.

Variable fromisoformat : string -> option datetime.

(** The identifier the store gives to the [n]-th row of [service_history]
    ([DEFAULT gen_random_uuid()]). *)
Variable gen_random_uuid : nat -> string.

(** [completion_datetime]: the caller's date when it parses, the clock
    otherwise. *)
Definition completion_datetime_of (completion_date : option string) (now : datetime)
    : datetime :=
  match completion_date with
  | Some s =>
    if negb (String.eqb s "") then
      match fromisoformat s with
      | Some dt => dt
      | None => now
      end
    else now
  | None => now
  end.

(** The body shared by [complete_hardware_pms] and [complete_label_pms];
    what the store holds when an exception leaves the endpoint stays. *)
Definition complete_pms (cls : contract_class) (contract_id : string)
    (req : completion_request) (current_user : user) (now : datetime) (d : db)
    : result completion_response * db :=
  match select_eq_id contract_id (table_of cls d) with
  | [] => (Raise (HTTPException 404 (not_found_detail cls)), d)
  | contract :: _ =>
    let completion_datetime := completion_datetime_of (completion_date req) now in
    let sr_number :=
      if truthy_str (sr_number req) then fstr (sr_number req)
      else "SR-" ++ strftime_Ymd completion_datetime ++ "-"
           ++ upper (substring 0 8 contract_id) in
    let sales_info :=
      if truthy_str (sales_name req) then sales_name req else po_number contract in
    let company_location :=
      if truthy_str (location req) then location req else branch contract in
    let technician_name :=
      if truthy_str (technician req) then technician req
      else if negb (String.eqb (full_name current_user) "")
           then Some (full_name current_user)
           else technical_specialist contract in
    let service_history_data :=
      mkServiceEvent
        (gen_random_uuid (List.length (service_history d)))
        contract_id
        (contract_type_of cls)
        (isoformat completion_datetime)
        "PMS"
        ("PMS completed for " ++ fstr (sq contract) ++ " - " ++ end_user contract)
        technician_name
        "completed"
        (if truthy_str (service_report req) then fstr (service_report req)
         else "PMS service completed by " ++ fstr technician_name)
        (end_user contract)
        company_location
        (model contract)
        (serial contract)
        sales_info
        sr_number
        (user_id current_user)
        (isoformat now) in
    if negb (history_reachable d) then
      (Raise (HTTPException 500
         "Failed to create or access service_history table. Please contact administrator."),
       d)
    else
      let d := insert_service_history service_history_data d in
      match add_days completion_datetime (completion_interval cls) with
      | Raise _ => (Raise (HTTPException 500 (failure_detail cls)), d)
      | Return next_pms =>
        let d :=
          with_table cls
            (update_eq_id contract_id (set_next_pms_schedule next_pms now) (table_of cls d))
            d in
        let d :=
          log_contract_activity contract_id (audit_entity_of cls) "update"
            ("PMS completed by " ++ fstr technician_name ++ " for " ++ end_user contract)
            (user_id current_user) (client_host req) now d in
        (Return (mkResponse "PMS completed successfully"
                   (sh_id service_history_data) (isoformat next_pms)),
         d)
      end
  end.

Definition complete_hardware_pms := complete_pms Hardware.
Definition complete_label_pms := complete_pms Label.

End Completion.

(** ** Notions the statements use *)

(** The value [n] days after [d], without the range check. *)
Definition shift (d : datetime) (n : Z) : datetime :=
  mkDatetime (ordinal d + n) (micros d) (utcoffset d).

(** [anchor + k * days] for [k = 1 .. n]. *)
Definition cadence_points (anchor : datetime) (days : Z) (n : nat) : list datetime :=
  map (fun k => shift anchor (Z.of_nat k * days)) (seq 1 n).

Section ScanNotions.

Variable fromisoformat : string -> option datetime.

(** The date the expiry scan reads off a row: [end_of_contract] present,
    not empty and parseable, its time of day dropped. *)
Definition contract_end_date (r : contract) : option Z :=
  match end_of_contract r with
  | Some s =>
    if negb (String.eqb s "") then option_map date (fromisoformat (replace_Z s))
    else None
  | None => None
  end.

(** Its end date lies strictly before [today]. *)
Definition past_end (today : Z) (r : contract) : bool :=
  match contract_end_date r with
  | Some d => d <? today
  | None => false
  end.

(** Not yet expired, and past its end date. *)
Definition expiry_eligible (today : Z) (r : contract) : bool :=
  negb (String.eqb (status r) "expired") && past_end today r.

Definition expire_if_eligible (now : datetime) (r : contract) : contract :=
  if expiry_eligible (date now) r then set_status_expired now r else r.

(** The due date the due-soon scan reads off a row. *)
Definition next_due (r : contract) : option datetime :=
  match next_pms_schedule r with
  | Some s => if negb (String.eqb s "") then fromisoformat (replace_Z s) else None
  | None => None
  end.

(** Due at or before [upcoming_date]. *)
Definition due_by (upcoming_date : datetime) (r : contract) : bool :=
  match next_due r with
  | Some d => instant d <=? instant upcoming_date
  | None => false
  end.

(** A row whose due date the scan cannot compare with the naive clock: the
    text is there and either does not parse or parses as an aware value. *)
Definition breaks_scan (r : contract) : bool :=
  match next_pms_schedule r with
  | Some s =>
    negb (String.eqb s "")
    && match fromisoformat (replace_Z s) with
       | Some d => aware d
       | None => true
       end
  | None => false
  end.

End ScanNotions.

(** The contracts of both classes that are not expired, each with its
    class. *)
Definition open_contracts (d : db) : list (contract * string) :=
  (map (fun c => (c, "hardware")) (select_neq_expired (hardware_contracts d))
   ++ map (fun c => (c, "label")) (select_neq_expired (label_contracts d)))%list.

(** ** Sample data for the worked examples *)
Module Sample.

Definition row (rid rsq rstatus : string) (end_date next_date : option string)
    (created : Z) : contract :=
  mkContract rid (Some rsq) "Acme Foods" "ZT411" "SN-0001" (Some "PO-77")
    (Some "Cebu") (Some "R. Cruz") rstatus (Some "2023-01-01T00:00:00")
    end_date next_date created "2023-01-01T00:00:00".

Definition technician : user := mkUser "u-1" "Ana Reyes" "technician".
Definition viewer : user := mkUser "u-2" "Ben Lim" "viewer".

Definition store (hw lb : list contract) : db :=
  mkDb hw lb [] [technician; viewer] [] [] true.

(** The clock of the examples: 2024-01-01 09:00 UTC, naive as
    [datetime.utcnow()] is. *)
Definition now : datetime := naive 2024 1 1 9 0 0.

(** Identifiers for the rows of [service_history]. *)
Definition uuid (n : nat) : string := "sh-" ++ py_str (Z.of_nat n).

End Sample.

(** What the resequencing loop over [rows], counting from [idx], makes of
    one row of the table. *)
Fixpoint resequence_row (idx : Z) (rows : list contract) (r : contract) : contract :=
  match rows with
  | [] => r
  | x :: rest =>
    resequence_row (idx + 1) rest
      (if String.eqb (id r) (id x) then set_sq (py_str idx) r else r)
  end.

(** The sequence numbers [1 .. n] as the store holds them. *)
Definition dense_sqs (n : nat) : list (option string) :=
  map (fun k => Some (py_str (Z.of_nat k))) (seq 1 n).

(** The number a row's sequence number stands for, read as
    [_get_next_sq] reads it. *)
Definition sq_value (r : contract) : option Z :=
  py_int (strip (match sq r with Some s => s | None => "" end)).



(** A text of ASCII digits only. *)
Fixpoint all_digits (s : string) : bool :=
  match s with
  | EmptyString => true
  | String c r =>
    match digit_value c with
    | Some _ => all_digits r
    | None => false
    end
  end.

(** The bytes of a text. *)
Definition codes (s : string) : list Z := map code (list_ascii_of_string s).

(** ** [routers/contracts.py]: backfilling sequence numbers *)

(** [str(r.get("sq") or "").strip()] *)
Definition sq_text (r : contract) : string :=
  strip (match sq r with Some s => s | None => "" end).

(** The first loop of [_backfill_sq_for_table]: the numbers in use. The set
    [used] is kept as a list; only membership is asked of it. *)
Fixpoint used_loop (rows : list contract) (used : list Z) : result (list Z) :=
  match rows with
  | [] => Return used
  | r :: rest =>
    let s := sq_text r in
    if isdigit s then
      match py_int s with
      | Some n => used_loop rest (n :: used)
      | None => Raise ValueError
      end
    else used_loop rest used
  end.

(** [n in used] *)
Definition in_used (n : Z) (used : list Z) : bool := existsb (Z.eqb n) used.

(** How many members of [used] are at or above [n]: what the search below
    runs out of. *)
Definition used_from (n : Z) (used : list Z) : nat :=
  List.length (filter (fun u => n <=? u) used).

Lemma used_from_step (n : Z) (used : list Z) :
  in_used n used = true -> (used_from (n + 1) used < used_from n used)%nat.
Proof.
  unfold in_used, used_from. induction used as [|u rest IH]; simpl; [discriminate|].
  intros H. apply orb_true_iff in H.
  assert (Hle : (List.length (filter (fun u => (n + 1 <=? u)%Z) rest)
                 <= List.length (filter (fun u => (n <=? u)%Z) rest))%nat).
  { clear. induction rest as [|v rest IH]; simpl; [lia|].
    destruct (n + 1 <=? v) eqn:E1, (n <=? v) eqn:E2; simpl; lia. }
  destruct H as [H | H].
  - apply Z.eqb_eq in H. subst u.
    replace (n + 1 <=? n) with false by (symmetry; apply Z.leb_gt; lia).
    rewrite Z.leb_refl. simpl. lia.
  - specialize (IH H).
    destruct (n + 1 <=? u) eqn:E1, (n <=? u) eqn:E2; simpl; lia.
Qed.

(** [while n in used: n += 1] *)
Equations? next_available_loop (used : list Z) (n : Z) : Z
    by wf (used_from n used) lt :=
  next_available_loop used n with inspect (in_used n used) := {
    | exist _ true Hin => next_available_loop used (n + 1)
    | exist _ false _ => n }.
Proof.
  now apply used_from_step.
Qed.

(** [next_available(start)]: the number found, and [used] with it added. *)
Definition next_available (used : list Z) (start : Z) : Z * list Z :=
  let n := next_available_loop used start in (n, n :: used).

(** The second loop: every row whose sequence number is not a number gets
    the next one that is free. *)
Fixpoint backfill_loop (rows : list contract) (used : list Z) (next_n : Z)
    (table : list contract) (updates : Z) : list contract * Z :=
  match rows with
  | [] => (table, updates)
  | r :: rest =>
    if negb (isdigit (sq_text r)) then
      let '(n, used) := next_available used next_n in
      backfill_loop rest used (n + 1)
        (update_eq_id (id r) (set_sq (py_str n)) table) (updates + 1)
    else backfill_loop rest used next_n table updates
  end.

(** [{"updated": updates, "total": len(rows)}] *)
Record backfill_report : Type := mkBackfill {
  updated : Z;
  total : Z
}.

Definition _backfill_sq_for_table (table : list contract)
    : result (list contract * backfill_report) :=
  let rows := order_by_created_at false table in
  used <- used_loop rows [] ;;
  let '(table', updates) := backfill_loop rows used 1 table 0 in
  Return (table', mkBackfill updates (Z.of_nat (List.length rows))).

(** The two endpoints: any exception becomes a 500. *)
Definition backfill_sq (cls : contract_class) (d : db) : result backfill_report * db :=
  match _backfill_sq_for_table (table_of cls d) with
  | Return (table', report) => (Return report, with_table cls table' d)
  | Raise _ =>
    (Raise (HTTPException 500
       (match cls with
        | Hardware => "Failed to backfill SQ for hardware"
        | Label => "Failed to backfill SQ for label"
        end)), d)
  end.

Definition backfill_hardware_sq := backfill_sq Hardware.
Definition backfill_label_sq := backfill_sq Label.

(** What the second loop over [rows] makes of one row of the table. *)
Fixpoint backfill_row (rows : list contract) (used : list Z) (next_n : Z)
    (r : contract) : contract :=
  match rows with
  | [] => r
  | x :: rest =>
    if negb (isdigit (sq_text x)) then
      let '(n, used) := next_available used next_n in
      backfill_row rest used (n + 1)
        (if String.eqb (id r) (id x) then set_sq (py_str n) r else r)
    else backfill_row rest used next_n r
  end.

(** The numbers the second loop hands out, in the order of [rows]. *)
Fixpoint handed_out (rows : list contract) (used : list Z) (next_n : Z) : list Z :=
  match rows with
  | [] => []
  | x :: rest =>
    if negb (isdigit (sq_text x)) then
      let '(n, used) := next_available used next_n in
      n :: handed_out rest used (n + 1)
    else handed_out rest used next_n
  end.

(** ** [auth.py]: who may call what *)

(** The values of [UserRole]. *)
Definition UserRole : list string := ["admin"; "technician"; "viewer"].

(** The model [User] built from a row: the role has to be one of [UserRole], or pydantic
    raises its [ValidationError], a [ValueError]. The columns the row model
    leaves out are taken to hold what the table's schema requires. *)
Definition User (user_data : user) : result user :=
  if existsb (String.eqb (role user_data)) UserRole then Return user_data
  else Raise ValueError.

(** [get_current_user] for the subject [uid] that [verify_token] read off
    the bearer token. Its [except Exception] also catches the 404 raised
    inside the [try]. *)
Definition get_current_user (uid : string) (d : db) : result user :=
  match (match filter (fun u => String.eqb (user_id u) uid) (users d) with
         | [] => Raise (HTTPException 404 "User not found")
         | user_data :: _ => User user_data
         end) with
  | Return u => Return u
  | Raise _ => Raise (HTTPException 500 "Error fetching user")
  end.

(** [require_role(required_role)] returns this checker. *)
Definition require_role (required_role : string) (current_user : user) : result user :=
  if negb (String.eqb (role current_user) required_role)
     && negb (String.eqb (role current_user) "admin")
  then Raise (HTTPException 403 "Insufficient permissions")
  else Return current_user.

Definition require_admin (current_user : user) : result user :=
  if negb (String.eqb (role current_user) "admin")
  then Raise (HTTPException 403 "Admin access required")
  else Return current_user.

Definition require_technician_or_admin (current_user : user) : result user :=
  if negb (existsb (String.eqb (role current_user)) ["technician"; "admin"])
  then Raise (HTTPException 403 "Technician or Admin access required")
  else Return current_user.

(** An endpoint declared with [current_user: User = Depends(guard)]: the
    caller is resolved by [get_current_user], then checked by [guard]; the
    body runs only when both return, and a request turned away leaves the
    store as it is. *)
Definition depends {A : Type} (guard : user -> result user) (uid : string)
    (body : user -> db -> result A * db) (d : db) : result A * db :=
  match (current_user <- get_current_user uid d ;; guard current_user) with
  | Return current_user => body current_user d
  | Raise e => (Raise e, d)
  end.

Section Routes.

Variable fromisoformat : string -> option datetime.
Variable gen_random_uuid : nat -> string.

(** [POST /hardware/{contract_id}/complete-pms] and its label twin. *)
Definition post_complete_pms (cls : contract_class) (uid contract_id : string)
    (req : completion_request) (now : datetime) (d : db)
    : result completion_response * db :=
  depends require_technician_or_admin uid
    (fun current_user =>
       complete_pms fromisoformat gen_random_uuid cls contract_id req current_user now)
    d.

End Routes.

(** [POST /hardware/backfill-sq] and [POST /label/backfill-sq] *)
Definition post_backfill_sq (cls : contract_class) (uid : string) (d : db)
    : result backfill_report * db :=
  depends require_admin uid (fun _ => backfill_sq cls) d.

(** [POST /hardware/resequence-sq] and [POST /label/resequence-sq], which
    answer [{"updated": len(rows)}]. *)
Definition post_resequence_sq (cls : contract_class) (uid : string) (d : db)
    : result Z * db :=
  depends require_admin uid
    (fun _ d =>
       let '(d', n) := match cls with
                       | Hardware => resequence_hardware_sq d
                       | Label => resequence_label_sq d
                       end in
       (Return n, d'))
    d.

(** ** [scheduler.py]: rescheduling after a service *)

(** A nullable text column as the code reads it: [None] or a string. *)
Definition column (o : option string) : pyval :=
  match o with
  | Some s => PStr s
  | None => PNone
  end.

Definition calculate_next_maintenance (current_date : datetime) (frequency : string)
    : result datetime :=
  if String.eqb frequency "monthly" then add_days current_date 30
  else if String.eqb frequency "quarterly" then add_days current_date 90
  else if String.eqb frequency "semi-annual" then add_days current_date 180
  else if String.eqb frequency "yearly" then add_days current_date 365
  else add_days current_date 30.

Section MaintenanceSchedule.

Variable fromisoformat : string -> option datetime.

(** [update_maintenance_schedule(contract_id, contract_type, current_schedule)],
    run when the clock reads [now]. Every failure is logged and leaves the
    store as it is. *)
Definition update_maintenance_schedule (contract_id contract_type : string)
    (current_schedule : pyval) (now : datetime) (d : db) : db :=
  let cls := if String.eqb contract_type "hardware" then Hardware else Label in
  match select_eq_id contract_id (table_of cls d) with
  | [] => d
  | contract_data :: _ =>
    let contract_date := column (date_of_contract contract_data) in
    let current_pms_schedule :=
      if truthy current_schedule then current_schedule
      else column (next_pms_schedule contract_data) in
    match calculate_next_pms_schedule fromisoformat contract_date contract_type
            current_pms_schedule with
    | Return (Some next_date) =>
      with_table cls
        (update_eq_id contract_id (set_next_pms_schedule next_date now) (table_of cls d))
        d
    | Return None => d
    | Raise _ => d
    end
  end.

End MaintenanceSchedule.

(** ** [data_import.py] *)
Module DataImport.

Section Importer.

Variable fromisoformat : string -> option datetime.

(** The importer's own [calculate_next_pms_from_contract_date], which also
    takes an absent date and a date as text. *)
Definition calculate_next_pms_from_contract_date
    (contract_date : pyval) (contract_type : string) : result (option datetime) :=
  if negb (truthy contract_date) then Return None
  else
    match as_datetime fromisoformat contract_date with
    | None => Return None
    | Some contract_date =>
      d <- (if String.eqb contract_type "hardware" then add_days contract_date 90
            else if String.eqb contract_type "label" then add_days contract_date 30
            else add_days contract_date 30) ;;
      Return (Some d)
    end.

End Importer.

End DataImport.

(** ** Notions for the further properties *)

(** A sequence number that [isdigit] accepts and [int] cannot read, as a
    superscript two. *)
Definition unreadable (r : contract) : bool :=
  isdigit (sq_text r)
  && match py_int (sq_text r) with Some _ => false | None => true end.

Definition backfill_failure (cls : contract_class) : exn :=
  HTTPException 500
    (match cls with
     | Hardware => "Failed to backfill SQ for hardware"
     | Label => "Failed to backfill SQ for label"
     end).

Definition other_class (cls : contract_class) : contract_class :=
  match cls with Hardware => Label | Label => Hardware end.

(** Two rows that differ at most in the due date and the modification
    time. *)
Definition same_but_schedule (r r' : contract) : Prop :=
  id r' = id r /\ sq r' = sq r /\ end_user r' = end_user r /\ model r' = model r
  /\ serial r' = serial r /\ po_number r' = po_number r /\ branch r' = branch r
  /\ technical_specialist r' = technical_specialist r /\ status r' = status r
  /\ date_of_contract r' = date_of_contract r
  /\ end_of_contract r' = end_of_contract r /\ created_at r' = created_at r.

(** The technicians and admins, who get the reminders. *)
Definition staff (us : list user) : list user :=
  filter (fun u => String.eqb (role u) "technician" || String.eqb (role u) "admin") us.

(** The inbox rows [send_maintenance_notification] writes for a contract. *)
Definition reminder_rows (us : list user) (c : contract * string) : list notification :=
  map (fun u =>
    mkNotification (user_id u)
      ("Upcoming Maintenance - " ++ fstr (sq (fst c)))
      ("Maintenance is due for " ++ snd c ++ " contract " ++ fstr (sq (fst c))
       ++ " on " ++ substring 0 10 (fstr (next_pms_schedule (fst c))))
      "maintenance_reminder" (id (fst c)) false) (staff us).

(** ** [routers/contracts.py]: deleting a contract, reading its schedule *)

(** [table.delete().eq("id", key)]: the rows that stay, and the deleted
    rows, which the call hands back. *)
Definition delete_eq_id (key : string) (table : list contract)
    : list contract * list contract :=
  (filter (fun r => negb (String.eqb (id r) key)) table, select_eq_id key table).

Definition deleted_message (cls : contract_class) : string :=
  match cls with
  | Hardware => "Hardware contract deleted successfully"
  | Label => "Label contract deleted successfully"
  end.

Definition deleted_by (cls : contract_class) : string :=
  match cls with
  | Hardware => "Hardware contract deleted by "
  | Label => "Label contract deleted by "
  end.

(** [delete_hardware_contract] and [delete_label_contract], run for
    [current_user] when the clock reads [now]; [client_host] is
    [request.client.host], if any. *)
Definition delete_contract (cls : contract_class) (contract_id : string)
    (client_host : option string) (current_user : user) (now : datetime) (d : db)
    : result string * db :=
  match select_eq_id contract_id (table_of cls d) with
  | [] => (Raise (HTTPException 404 (not_found_detail cls)), d)
  | contract_data :: _ =>
    let response := delete_eq_id contract_id (table_of cls d) in
    let d := with_table cls (fst response) d in
    match snd response with
    | [] => (Raise (HTTPException 404 (not_found_detail cls)), d)
    | _ :: _ =>
      let d :=
        log_contract_activity contract_id (audit_entity_of cls) "delete"
          (deleted_by cls ++ full_name current_user ++ ": " ++ fstr (sq contract_data)
           ++ " - " ++ end_user contract_data)
          (user_id current_user) client_host now d in
      (Return (deleted_message cls), d)
    end
  end.

Definition delete_hardware_contract := delete_contract Hardware.
Definition delete_label_contract := delete_contract Label.

(** The answer of the [pms-schedule] endpoints. *)
Record pms_schedule_response : Type := mkSchedule {
  ps_contract_id : string;
  ps_contract_type : string;
  ps_contract_date : option string;
  ps_end_date : option string;
  pms_schedules : list string;
  total_schedules : Z
}.

Definition schedule_failure_detail (cls : contract_class) : string :=
  match cls with
  | Hardware => "Error fetching hardware PMS schedule"
  | Label => "Error fetching label PMS schedule"
  end.

Section ScheduleRoute.

Variable fromisoformat : string -> option datetime.

(** [get_hardware_pms_schedule] and [get_label_pms_schedule] *)
Definition get_pms_schedule (cls : contract_class) (contract_id : string) (d : db)
    : result pms_schedule_response :=
  match select_eq_id contract_id (table_of cls d) with
  | [] => Raise (HTTPException 404 (not_found_detail cls))
  | contract :: _ =>
    let contract_date := date_of_contract contract in
    let end_date := end_of_contract contract in
    match generate_full_pms_schedule fromisoformat (column contract_date)
            (column end_date) (contract_type_of cls) with
    | Return schedules =>
      Return (mkSchedule contract_id (contract_type_of cls) contract_date end_date
                schedules (Z.of_nat (List.length schedules)))
    | Raise _ => Raise (HTTPException 500 (schedule_failure_detail cls))
    end
  end.

Definition get_hardware_pms_schedule := get_pms_schedule Hardware.
Definition get_label_pms_schedule := get_pms_schedule Label.

End ScheduleRoute.

(** * Properties *)

(** ** Date arithmetic *)

Lemma add_days_in_range (d : datetime) (n : Z) :
  0 < ordinal d + n <= MAXORDINAL ->
  add_days d n = Return (mkDatetime (ordinal d + n) (micros d) (utcoffset d)).
Proof.
  intros [Hlo Hhi]. unfold add_days.
  apply Z.ltb_lt in Hlo. apply Z.leb_le in Hhi.
  now rewrite Hlo, Hhi.
Qed.

Lemma add_days_out_of_range (d : datetime) (n : Z) :
  MAXORDINAL < ordinal d + n -> add_days d n = Raise OverflowError.
Proof.
  intros H. unfold add_days.
  apply Z.leb_gt in H. rewrite H. now rewrite andb_false_r.
Qed.

Lemma add_days_inv (d d' : datetime) (n : Z) :
  add_days d n = Return d' ->
  d' = mkDatetime (ordinal d + n) (micros d) (utcoffset d)
  /\ 0 < ordinal d + n <= MAXORDINAL.
Proof.
  unfold add_days.
  destruct ((0 <? ordinal d + n) && (ordinal d + n <=? MAXORDINAL)) eqn:E; [|discriminate].
  intros H. injection H as <-.
  apply andb_true_iff in E. destruct E as [E1 E2].
  apply Z.ltb_lt in E1. apply Z.leb_le in E2. auto.
Qed.

(** C3, as the code has it. From a valid anchor date whose day plus the
    cadence is not after 9999-12-31, the next due date is the anchor moved
    on by 90 days for a hardware contract, by 30 days for a label contract
    and by 30 days for any other class (the monthly fallback), at the same
    time of day and with the same offset; it is a valid date again. From
    a later anchor the call raises [OverflowError] and gives no date. *)
Theorem next_due_from_anchor (anchor : datetime) (cls : string) :
  valid_datetime anchor ->
  let days := if String.eqb cls "hardware" then 90 else 30 in
  (ordinal anchor + days <= MAXORDINAL ->
   exists due : datetime,
     calculate_next_pms_from_contract_date anchor cls = Return due
     /\ date due = date anchor + days
     /\ micros due = micros anchor
     /\ utcoffset due = utcoffset anchor
     /\ instant due = instant anchor + days * DAY_US
     /\ valid_datetime due)
  /\ (MAXORDINAL < ordinal anchor + days ->
      calculate_next_pms_from_contract_date anchor cls = Raise OverflowError).
Proof.
  intros [Hord Hmic] days.
  assert (Hcall : calculate_next_pms_from_contract_date anchor cls = add_days anchor days).
  { unfold calculate_next_pms_from_contract_date. subst days.
    destruct (String.eqb cls "hardware"); [reflexivity|].
    now destruct (String.eqb cls "label"). }
  assert (Hdays : 0 < days) by (subst days; destruct (String.eqb cls "hardware"); lia).
  rewrite Hcall. split.
  - intros Hmax. rewrite add_days_in_range by lia.
    eexists. split; [reflexivity|].
    unfold date, instant, valid_datetime. cbn [ordinal micros utcoffset].
    repeat split; try lia.
  - apply add_days_out_of_range.
Qed.

(** A contract of an unknown class, begun on 2024-01-01: next due on
    2024-01-31. *)
Lemma next_due_from_anchor_witness :
  valid_datetime (naive 2024 1 1 0 0 0)
  /\ exists due : datetime,
       calculate_next_pms_from_contract_date (naive 2024 1 1 0 0 0) "repair" = Return due
       /\ isoformat due = "2024-01-31T00:00:00".
Proof.
  assert (Hvalid : valid_datetime (naive 2024 1 1 0 0 0)).
  { unfold valid_datetime. vm_compute. repeat split; discriminate. }
  split; [exact Hvalid|].
  destruct (next_due_from_anchor (naive 2024 1 1 0 0 0) "repair" Hvalid) as [H _].
  destruct H as (due & Hcall & Hdate & Hmic & Hoff & _).
  { vm_compute. discriminate. }
  exists due. split; [exact Hcall|].
  unfold isoformat. unfold date in Hdate. rewrite Hdate, Hmic, Hoff. reflexivity.
Defined.

(** C3 as stated fails: 9999-12-01 is a valid anchor date, and no date lies
    90 days after it; the call raises [OverflowError]. *)
Lemma next_due_from_anchor_overflows :
  valid_datetime (naive 9999 12 1 0 0 0)
  /\ calculate_next_pms_from_contract_date (naive 9999 12 1 0 0 0) "hardware"
     = Raise OverflowError
  /\ forall due : datetime,
     calculate_next_pms_from_contract_date (naive 9999 12 1 0 0 0) "hardware"
     <> Return due.
Proof.
  split; [unfold valid_datetime; vm_compute; repeat split; discriminate|].
  split; [reflexivity | intros due; discriminate].
Qed.

(** The same in days: within the calendar's range the result lies exactly
    [interval_days] days after the anchor, at the same time of day. *)
Lemma next_due_from_anchor_days (anchor : datetime) (cls : string) :
  0 < ordinal anchor ->
  ordinal anchor + interval_days cls <= MAXORDINAL ->
  calculate_next_pms_from_contract_date anchor cls
  = Return (mkDatetime (ordinal anchor + interval_days cls) (micros anchor)
              (utcoffset anchor)).
Proof.
  intros H0 H1.
  pose proof (interval_days_pos cls) as Hp.
  rewrite <- add_days_in_range by lia.
  unfold calculate_next_pms_from_contract_date, interval_days.
  destruct (String.eqb cls "hardware"); [reflexivity|].
  destruct (String.eqb cls "label"); reflexivity.
Qed.

Section SchedulerProperties.

Variable fromisoformat : string -> option datetime.

(** C7, as the code has it. With an absent anchor date (or an empty or
    unparseable string) [calculate_next_pms_schedule] raises nothing: it
    returns [None], never a date, and leaves the test to its caller. *)
Theorem next_due_without_anchor_is_none
    (contract_date : pyval) (contract_type : string) (current_schedule : pyval) :
  truthy contract_date = false \/ as_datetime fromisoformat contract_date = None ->
  calculate_next_pms_schedule fromisoformat contract_date contract_type current_schedule
  = Return None.
Proof.
  intros [H | H]; unfold calculate_next_pms_schedule.
  - now rewrite H.
  - destruct (negb (truthy contract_date)); [reflexivity|]. now rewrite H.
Qed.

End SchedulerProperties.

(** C7 as stated fails: with no anchor date the call returns normally, so no
    error reaches the caller. *)
Lemma next_due_without_anchor_does_not_raise :
  calculate_next_pms_schedule iso_parse PNone "hardware" PNone = Return None
  /\ forall e : exn,
     calculate_next_pms_schedule iso_parse PNone "hardware" PNone <> Raise e.
Proof.
  split; [reflexivity | intros e; discriminate].
Qed.

Lemma next_due_without_anchor_is_none_witness :
  (truthy (PStr "next week") = false
   \/ as_datetime iso_parse (PStr "next week") = None)
  /\ calculate_next_pms_schedule iso_parse (PStr "next week") "label" PNone
     = Return None.
Proof.
  assert (H : truthy (PStr "next week") = false
              \/ as_datetime iso_parse (PStr "next week") = None)
    by (right; reflexivity).
  split; [exact H|].
  exact (next_due_without_anchor_is_none iso_parse (PStr "next week") "label" PNone H).
Defined.

(** ** The schedule generator *)

(** One turn of the loop, as an equation. *)
Lemma schedule_loop_step (end_date : datetime) (days : Z) (Hpos : 0 < days)
    (current_date : datetime) (pms_schedules : list string) :
  schedule_loop end_date days Hpos current_date pms_schedules =
  match datetime_le current_date end_date with
  | Raise e => Raise e
  | Return false => Return pms_schedules
  | Return true =>
    match add_days current_date days with
    | Raise e => Raise e
    | Return next_pms =>
      match datetime_le next_pms end_date with
      | Raise e => Raise e
      | Return true =>
        schedule_loop end_date days Hpos next_pms
          (pms_schedules ++ [isoformat next_pms])%list
      | Return false => schedule_loop end_date days Hpos next_pms pms_schedules
      end
    end
  end.
Proof.
  funelim (schedule_loop end_date days Hpos current_date pms_schedules);
    repeat match goal with
    | E : datetime_le _ _ = _ |- _ => rewrite E
    | E : add_days _ _ = _ |- _ => rewrite E
    end; reflexivity.
Qed.

Lemma schedule_loop_done (end_date : datetime) (days : Z) (Hpos : 0 < days)
    (cur : datetime) (acc : list string) :
  aware cur = aware end_date ->
  instant end_date < instant cur ->
  schedule_loop end_date days Hpos cur acc = Return acc.
Proof.
  intros Ha Hlt. rewrite schedule_loop_step. unfold datetime_le.
  rewrite Ha, Bool.eqb_reflx.
  apply Z.leb_gt in Hlt. now rewrite Hlt.
Qed.

Lemma instant_shift (d : datetime) (n : Z) :
  instant (shift d n) = instant d + n * DAY_US.
Proof. unfold instant, shift. simpl. lia. Qed.

Lemma shift_shift (d : datetime) (a b : Z) : shift (shift d a) b = shift d (a + b).
Proof. unfold shift. simpl. f_equal. lia. Qed.

Lemma cadence_points_succ (anchor : datetime) (days : Z) (n : nat) :
  cadence_points anchor days (S n)
  = shift anchor days :: cadence_points (shift anchor days) days n.
Proof.
  unfold cadence_points. cbn [seq map]. f_equal.
  - f_equal. change (Z.of_nat 1) with 1. lia.
  - rewrite <- seq_shift, map_map. apply map_ext. intros k.
    rewrite shift_shift. f_equal. lia.
Qed.

Lemma intervals_between_bounds (a e : datetime) (days : Z) :
  0 < days ->
  let n := intervals_between a e days in
  n * (days * DAY_US) <= instant e - instant a < (n + 1) * (days * DAY_US).
Proof.
  intros Hpos n. subst n. unfold intervals_between.
  assert (HK : 0 < days * DAY_US) by (unfold DAY_US; lia).
  pose proof (Z.div_mod (instant e - instant a) (days * DAY_US)) as Hdm.
  pose proof (Z.mod_pos_bound (instant e - instant a) (days * DAY_US) HK) as Hmod.
  lia.
Qed.

(** The loop, started at or before the end date, emits the next [n] cadence
    points, [n] being the number of whole intervals left. *)
Lemma schedule_loop_spec (end_date : datetime) (days : Z) (Hpos : 0 < days) (n : nat) :
  forall (cur : datetime) (acc : list string),
  aware cur = aware end_date ->
  0 < ordinal cur ->
  instant cur <= instant end_date ->
  intervals_between cur end_date days = Z.of_nat n ->
  ordinal cur + (Z.of_nat n + 1) * days <= MAXORDINAL ->
  schedule_loop end_date days Hpos cur acc
  = Return (acc ++ map isoformat (cadence_points cur days n))%list.
Proof.
  induction n as [|n IH]; intros cur acc Ha Hord Hle Hn Hmax.
  - pose proof (intervals_between_bounds cur end_date days Hpos) as Hb.
    simpl in Hb. rewrite Hn in Hb.
    rewrite schedule_loop_step. unfold datetime_le at 1.
    rewrite Ha, Bool.eqb_reflx.
    apply Z.leb_le in Hle. rewrite Hle.
    rewrite add_days_in_range by lia. fold (shift cur days).
    unfold datetime_le. replace (aware (shift cur days)) with (aware cur) by reflexivity.
    rewrite Ha, Bool.eqb_reflx, instant_shift.
    replace (instant cur + days * DAY_US <=? instant end_date) with false
      by (symmetry; apply Z.leb_gt; lia).
    rewrite schedule_loop_done.
    + simpl. now rewrite app_nil_r.
    + exact Ha.
    + rewrite instant_shift. lia.
  - pose proof (intervals_between_bounds cur end_date days Hpos) as Hb.
    simpl in Hb. rewrite Hn in Hb.
    rewrite schedule_loop_step. unfold datetime_le at 1.
    rewrite Ha, Bool.eqb_reflx.
    apply Z.leb_le in Hle. rewrite Hle.
    rewrite add_days_in_range by nia. fold (shift cur days).
    unfold datetime_le. replace (aware (shift cur days)) with (aware cur) by reflexivity.
    rewrite Ha, Bool.eqb_reflx, instant_shift.
    assert (HK : 0 < days * DAY_US) by (unfold DAY_US; lia).
    replace (instant cur + days * DAY_US <=? instant end_date) with true
      by (symmetry; apply Z.leb_le; nia).
    rewrite IH.
    + rewrite cadence_points_succ. simpl. now rewrite <- app_assoc.
    + exact Ha.
    + simpl. lia.
    + rewrite instant_shift. nia.
    + unfold intervals_between in *. rewrite instant_shift.
      replace (instant end_date - (instant cur + days * DAY_US))
        with (instant end_date - instant cur + (-1) * (days * DAY_US)) by lia.
      rewrite Z.div_add by lia. lia.
    + simpl ordinal. nia.
Qed.

Lemma cadence_points_length (anchor : datetime) (days : Z) (n : nat) :
  List.length (cadence_points anchor days n) = n.
Proof. unfold cadence_points. now rewrite length_map, length_seq. Qed.

Lemma cadence_points_nth (anchor : datetime) (days : Z) (n k : nat) :
  (k < n)%nat ->
  nth_error (cadence_points anchor days n) k
  = Some (shift anchor (Z.of_nat (S k) * days)).
Proof.
  intros Hk. unfold cadence_points.
  rewrite nth_error_map, nth_error_seq.
  apply Nat.ltb_lt in Hk. rewrite Hk. reflexivity.
Qed.

Lemma cadence_points_nth_inv (anchor : datetime) (days : Z) (n k : nat) (p : datetime) :
  nth_error (cadence_points anchor days n) k = Some p ->
  (k < n)%nat /\ p = shift anchor (Z.of_nat (S k) * days).
Proof.
  intros H.
  assert (Hk : (k < n)%nat).
  { rewrite <- (cadence_points_length anchor days n).
    apply nth_error_Some. congruence. }
  split; [exact Hk|].
  rewrite cadence_points_nth in H by exact Hk. congruence.
Qed.

Section ScheduleGeneratorProperties.

Variable fromisoformat : string -> option datetime.

(** A schedule asked for without both dates, or with a date that does not
    parse, is empty. *)
Lemma generate_schedule_degraded
    (contract_date end_date : pyval) (contract_type : string) :
  truthy contract_date = false \/ truthy end_date = false
  \/ as_datetime fromisoformat contract_date = None
  \/ as_datetime fromisoformat end_date = None ->
  generate_full_pms_schedule fromisoformat contract_date end_date contract_type
  = Return [].
Proof.
  unfold generate_full_pms_schedule.
  intros [H | [H | [H | H]]].
  - now rewrite H.
  - rewrite H. now rewrite orb_true_r.
  - destruct (negb (truthy contract_date) || negb (truthy end_date)); [reflexivity|].
    now rewrite H.
  - destruct (negb (truthy contract_date) || negb (truthy end_date)); [reflexivity|].
    destruct (as_datetime fromisoformat contract_date); [|reflexivity].
    now rewrite H.
Qed.

(** With two dates of the same awareness the loop returns the cadence
    points that fit. *)
Lemma generate_schedule_points
    (contract_date end_date : pyval) (contract_type : string) (a e : datetime) :
  truthy contract_date = true -> truthy end_date = true ->
  as_datetime fromisoformat contract_date = Some a ->
  as_datetime fromisoformat end_date = Some e ->
  aware a = aware e ->
  0 < ordinal a ->
  (instant a <= instant e ->
   ordinal a
   + (intervals_between a e (interval_days contract_type) + 1)
     * interval_days contract_type <= MAXORDINAL) ->
  generate_full_pms_schedule fromisoformat contract_date end_date contract_type
  = Return (map isoformat
              (cadence_points a (interval_days contract_type)
                 (Z.to_nat (intervals_between a e (interval_days contract_type))))).
Proof.
  intros Hc He Ha Hb Haw Hord Hmax.
  unfold generate_full_pms_schedule.
  rewrite Hc, He, Ha, Hb. simpl.
  pose proof (interval_days_pos contract_type) as Hpos.
  destruct (Z_le_gt_dec (instant a) (instant e)) as [Hle | Hgt].
  - pose proof (intervals_between_bounds a e _ Hpos) as Hbd. simpl in Hbd.
    assert (HK : 0 < interval_days contract_type * DAY_US) by (unfold DAY_US; lia).
    assert (Hn : 0 <= intervals_between a e (interval_days contract_type)) by nia.
    rewrite (schedule_loop_spec e _ _
               (Z.to_nat (intervals_between a e (interval_days contract_type))));
      try assumption.
    + reflexivity.
    + now rewrite Z2Nat.id.
    + rewrite Z2Nat.id by assumption. auto.
  - rewrite schedule_loop_done by (assumption || lia).
    pose proof (intervals_between_bounds a e _ Hpos) as Hbd. simpl in Hbd.
    assert (HK : 0 < interval_days contract_type * DAY_US) by (unfold DAY_US; lia).
    assert (Hn : intervals_between a e (interval_days contract_type) < 0) by nia.
    replace (Z.to_nat (intervals_between a e (interval_days contract_type))) with O by lia.
    reflexivity.
Qed.

End ScheduleGeneratorProperties.

Section ScheduleGeneratorClaim.

Variable fromisoformat : string -> option datetime.

(** C2, as the code has it. Without both dates, or with a date that does not
    parse, the schedule is empty and nothing is raised. With an anchor date
    and an end date that are both present and parse, that are both naive or
    both aware, and with the first cadence point past the end date still
    within the calendar (9999-12-31), the schedule is exactly the dates
    anchor + k * cadenceDays for k = 1, 2, ... that are <= the end date: its
    length is floor((end - anchor) / cadenceDays), it is strictly
    increasing, it does not contain the anchor, and it is empty when the end
    date lies before the anchor. *)
Theorem generate_schedule_spec
    (contract_date end_date : pyval) (contract_type : string) :
  (truthy contract_date = false \/ truthy end_date = false
   \/ as_datetime fromisoformat contract_date = None
   \/ as_datetime fromisoformat end_date = None ->
   generate_full_pms_schedule fromisoformat contract_date end_date contract_type
   = Return [])
  /\ forall a e : datetime,
     truthy contract_date = true -> truthy end_date = true ->
     as_datetime fromisoformat contract_date = Some a ->
     as_datetime fromisoformat end_date = Some e ->
     aware a = aware e ->
     0 < ordinal a ->
     let days := interval_days contract_type in
     let n := Z.to_nat ((instant e - instant a) / (days * DAY_US)) in
     let points := cadence_points a days n in
     (instant a <= instant e ->
      ordinal a + (Z.of_nat n + 1) * days <= MAXORDINAL) ->
     generate_full_pms_schedule fromisoformat contract_date end_date contract_type
     = Return (map isoformat points)
     /\ List.length points = n
     /\ (forall (k : nat) (p : datetime),
         nth_error points k = Some p ->
         p = shift a (Z.of_nat (S k) * days) /\ instant p <= instant e)
     /\ (forall k : Z,
         1 <= k -> instant (shift a (k * days)) <= instant e ->
         nth_error points (Z.to_nat (k - 1)) = Some (shift a (k * days)))
     /\ (forall (i j : nat) (p q : datetime),
         (i < j)%nat -> nth_error points i = Some p -> nth_error points j = Some q ->
         instant p < instant q)
     /\ ~ In a points
     /\ (instant e < instant a -> points = []).
Proof.
  split; [apply generate_schedule_degraded|].
  intros a e Hc He Ha Hb Haw Hord days n points Hmax.
  pose proof (interval_days_pos contract_type) as Hpos. fold days in Hpos.
  assert (HK : 0 < days * DAY_US) by (unfold DAY_US; lia).
  pose proof (intervals_between_bounds a e days Hpos) as Hbd. simpl in Hbd.
  unfold intervals_between in Hbd.
  assert (Hn : instant a <= instant e ->
               Z.of_nat n = (instant e - instant a) / (days * DAY_US)).
  { intros Hle. subst n. rewrite Z2Nat.id; [reflexivity|].
    apply Z.div_pos; lia. }
  repeat split.
  - apply generate_schedule_points; try assumption.
    intros Hle. unfold intervals_between. fold days. rewrite <- (Hn Hle). auto.
  - apply cadence_points_length.
  - apply cadence_points_nth_inv in H. tauto.
  - apply cadence_points_nth_inv in H. destruct H as [Hk ->].
    rewrite instant_shift.
    assert (Hle : instant a <= instant e).
    { destruct (Z_le_gt_dec (instant a) (instant e)) as [|Hgt]; [assumption|].
      exfalso.
      assert ((instant e - instant a) / (days * DAY_US) < 0) by nia.
      subst n. lia. }
    specialize (Hn Hle). nia.
  - intros k Hk Hle. rewrite instant_shift in Hle.
    assert (Hae : instant a <= instant e) by nia.
    specialize (Hn Hae).
    assert (Hkq : k <= (instant e - instant a) / (days * DAY_US))
      by (apply Z.div_le_lower_bound; lia).
    assert (Hlt : (Z.to_nat (k - 1) < n)%nat) by lia.
    subst points. rewrite (cadence_points_nth a days n _ Hlt).
    replace (Z.of_nat (S (Z.to_nat (k - 1)))) with k by lia. reflexivity.
  - intros i j p q Hij Hp Hq.
    apply cadence_points_nth_inv in Hp, Hq.
    destruct Hp as [_ ->], Hq as [_ ->].
    rewrite !instant_shift. nia.
  - subst points. unfold cadence_points. intros Hin.
    apply in_map_iff in Hin. destruct Hin as (k & Hk & Hin).
    apply in_seq in Hin.
    apply (f_equal ordinal) in Hk. simpl in Hk. nia.
  - intros Hlt. subst points.
    replace n with O; [reflexivity|].
    subst n.
    assert ((instant e - instant a) / (days * DAY_US) < 0) by nia.
    lia.
Qed.

End ScheduleGeneratorClaim.

(** The schedule of the specification's example: a hardware contract from
    2024-01-01 to 2024-12-31 has four dates. *)
Lemma generate_schedule_spec_witness :
  generate_full_pms_schedule iso_parse (PStr "2024-01-01") (PStr "2024-12-31") "hardware"
  = Return ["2024-03-31T00:00:00"; "2024-06-29T00:00:00";
            "2024-09-27T00:00:00"; "2024-12-26T00:00:00"]%list.
Proof.
  destruct (generate_schedule_spec iso_parse (PStr "2024-01-01") (PStr "2024-12-31")
              "hardware") as [_ H].
  pose proof (H (naive 2024 1 1 0 0 0) (naive 2024 12 31 0 0 0)
                eq_refl eq_refl eq_refl eq_refl eq_refl eq_refl) as H'.
  cbv zeta in H'.
  destruct H' as [Hgen _].
  - intros _. vm_compute. discriminate.
  - exact Hgen.
Defined.

(** C2 as stated fails: an anchor that parses as a naive value and an end
    date that parses as an aware one are both present and parseable, and the
    loop's first comparison raises [TypeError]. *)
Lemma generate_schedule_mixed_awareness_raises :
  as_datetime iso_parse (PStr "2024-01-01") = Some (naive 2024 1 1 0 0 0)
  /\ as_datetime iso_parse (PStr "2024-12-31T00:00:00+00:00")
     = Some (mkDatetime (ymd2ord 2024 12 31) 0 (Some 0))
  /\ generate_full_pms_schedule iso_parse (PStr "2024-01-01")
       (PStr "2024-12-31T00:00:00+00:00") "hardware"
     = Raise TypeError.
Proof. repeat split. Qed.

(** So does an end date in the calendar's last days: the addition that
    would leave the loop raises [OverflowError]. *)
Lemma generate_schedule_overflow_raises :
  generate_full_pms_schedule iso_parse (PStr "9999-12-01") (PStr "9999-12-31") "label"
  = Raise OverflowError.
Proof. reflexivity. Qed.

(** ** The expiry scan *)

Lemma id_set_status_expired (now : datetime) (r : contract) :
  id (set_status_expired now r) = id r.
Proof. reflexivity. Qed.

Lemma set_status_expired_idem (now : datetime) (r : contract) :
  set_status_expired now (set_status_expired now r) = set_status_expired now r.
Proof. reflexivity. Qed.

Lemma filter_filter {A : Type} (f g : A -> bool) (l : list A) :
  filter f (filter g l) = filter (fun x => g x && f x) l.
Proof.
  induction l as [|x l IH]; [reflexivity|]. simpl.
  destruct (g x); simpl; [destruct (f x)|]; now rewrite IH.
Qed.

(** Rows of a table with a primary key are told apart by their [id]. *)
Lemma unique_id (table : list contract) (r c : contract) :
  NoDup (map id table) -> In r table -> In c table -> id c = id r -> c = r.
Proof.
  induction table as [|x t IH]; intros Hnd Hr Hc Hid; [contradiction|].
  simpl in Hnd. inversion Hnd as [|? ? Hnin Hnd']; subst.
  destruct Hr as [-> | Hr], Hc as [-> | Hc]; auto.
  - exfalso. apply Hnin. rewrite <- Hid. now apply in_map.
  - exfalso. apply Hnin. rewrite Hid. now apply in_map.
Qed.

Section ExpiryScanProperties.

Variable fromisoformat : string -> option datetime.

(** One turn of the loop, in terms of [past_end]. *)
Lemma expire_loop_cons (today : Z) (now : datetime) (c : contract)
    (rest table : list contract) (count : Z) (log : list string) :
  expire_loop fromisoformat today now (c :: rest) table count log
  = if past_end fromisoformat today c
    then expire_loop fromisoformat today now rest
           (update_eq_id (id c) (set_status_expired now) table)
           (count + 1) (log ++ [id c])%list
    else expire_loop fromisoformat today now rest table count log.
Proof.
  simpl. unfold past_end, contract_end_date.
  destruct (end_of_contract c) as [s|]; [|reflexivity].
  destruct (negb (String.eqb s "")); [|reflexivity].
  destruct (fromisoformat (replace_Z s)) as [end_date|]; reflexivity.
Qed.

(** What the loop over the selected rows does to the table it writes to. *)
Lemma expire_loop_spec (today : Z) (now : datetime) (contracts : list contract) :
  forall (table : list contract) (count : Z) (log : list string),
  expire_loop fromisoformat today now contracts table count log
  = (map (fun r =>
            if existsb (fun c => String.eqb (id c) (id r)
                                 && past_end fromisoformat today c) contracts
            then set_status_expired now r else r) table,
     count + Z.of_nat (List.length (filter (past_end fromisoformat today) contracts)),
     (log ++ map id (filter (past_end fromisoformat today) contracts))%list).
Proof.
  induction contracts as [|c rest IH]; intros table count log.
  - simpl. rewrite map_id, app_nil_r. do 2 f_equal. lia.
  - rewrite expire_loop_cons.
    destruct (past_end fromisoformat today c) eqn:Hp; rewrite IH; simpl; rewrite Hp.
    + f_equal; [f_equal|].
      * unfold update_eq_id. rewrite map_map. apply map_ext. intros r.
        rewrite (String.eqb_sym (id c) (id r)).
        destruct (String.eqb (id r) (id c)) eqn:E; simpl.
        -- now destruct (existsb _ rest).
        -- reflexivity.
      * simpl List.length. lia.
      * simpl. now rewrite <- app_assoc.
    + f_equal. f_equal. apply map_ext. intros r. now rewrite andb_false_r.
Qed.

(** From the rows that are not yet expired, on a table with a primary key,
    the loop expires the eligible rows and no other. *)
Lemma expire_table_spec (today : Z) (now : datetime) (table : list contract)
    (count : Z) (log : list string) :
  NoDup (map id table) ->
  expire_loop fromisoformat today now (select_neq_expired table) table count log
  = (map (fun r => if expiry_eligible fromisoformat today r
                   then set_status_expired now r else r) table,
     count + Z.of_nat (List.length (filter (expiry_eligible fromisoformat today) table)),
     (log ++ map id (filter (expiry_eligible fromisoformat today) table))%list).
Proof.
  intros Hnd. rewrite expire_loop_spec. unfold select_neq_expired.
  rewrite filter_filter. fold (expiry_eligible fromisoformat today).
  do 2 f_equal.
  apply map_ext_in. intros r Hr.
  replace (existsb _ _) with (expiry_eligible fromisoformat today r); [reflexivity|].
  apply eq_true_iff_eq. rewrite existsb_exists. split.
  - intros He. exists r. split.
    + apply filter_In. split; [exact Hr|].
      unfold expiry_eligible in He. apply andb_true_iff in He. tauto.
    + rewrite String.eqb_refl. unfold expiry_eligible in He.
      apply andb_true_iff in He. tauto.
  - intros (c & Hc & Hcr). apply filter_In in Hc. destruct Hc as [Hc Hne].
    apply andb_true_iff in Hcr. destruct Hcr as [Hid Hp].
    apply String.eqb_eq in Hid.
    rewrite (unique_id table r c Hnd Hr Hc Hid) in Hne, Hp.
    unfold expiry_eligible. now rewrite Hne, Hp.
Qed.

(** An expired row, and a row left alone, are not eligible afterwards. *)
Lemma expire_if_eligible_settled (now : datetime) (r : contract) :
  expiry_eligible fromisoformat (date now)
    (expire_if_eligible fromisoformat now r) = false.
Proof.
  unfold expire_if_eligible.
  destruct (expiry_eligible fromisoformat (date now) r) eqn:E; [reflexivity|exact E].
Qed.

End ExpiryScanProperties.

Lemma filter_none {A : Type} (f : A -> bool) (l : list A) :
  (forall x, In x l -> f x = false) -> filter f l = [].
Proof.
  induction l as [|x l IH]; intros H; [reflexivity|]. simpl.
  rewrite (H x (or_introl eq_refl)). apply IH. intros y Hy. apply H. now right.
Qed.

Section ExpiryScanClaim.

Variable fromisoformat : string -> option datetime.

(** A table the scan has been over holds nothing more to expire on the same
    day: a run over it changes nothing, counts nothing and logs nothing. *)
Lemma expire_table_again (now now' : datetime) (table : list contract)
    (count : Z) (log : list string) :
  NoDup (map id table) ->
  date now' = date now ->
  let table' := map (expire_if_eligible fromisoformat now) table in
  expire_loop fromisoformat (date now') now' (select_neq_expired table') table' count log
  = (table', count, log).
Proof.
  intros Hnd Hdate table'.
  assert (Hsettled : forall r, In r table' ->
            expiry_eligible fromisoformat (date now') r = false).
  { intros r Hr. apply in_map_iff in Hr. destruct Hr as (r0 & <- & _).
    rewrite Hdate. apply expire_if_eligible_settled. }
  rewrite expire_table_spec.
  - rewrite (filter_none _ _ Hsettled). simpl. rewrite app_nil_r, Z.add_0_r.
    do 2 f_equal.
    rewrite <- (map_id table') at 2. apply map_ext_in. intros r Hr.
    now rewrite (Hsettled r Hr).
  - subst table'. rewrite map_map.
    erewrite map_ext; [exact Hnd|].
    intros r. unfold expire_if_eligible.
    now destruct (expiry_eligible fromisoformat (date now) r).
Qed.

(** C4. On tables with a primary key, a run of the expiry scan sets to
    expired exactly the contracts that are not yet expired and whose end
    date, with the time of day dropped, lies strictly before today, and
    leaves every other contract as it was; it counts and logs each of them
    once. A second run on the same day finds nothing to do: the store stays
    as the first run left it, both counters are zero and no contract is
    marked again. *)
Theorem expiry_scan_exact_and_idempotent (now now' : datetime) (d : db) :
  NoDup (map id (hardware_contracts d)) ->
  NoDup (map id (label_contracts d)) ->
  date now' = date now ->
  let eligible := expiry_eligible fromisoformat (date now) in
  let run1 := check_expired_contracts fromisoformat now d in
  let run2 := check_expired_contracts fromisoformat now' (fst run1) in
  hardware_contracts (fst run1)
  = map (expire_if_eligible fromisoformat now) (hardware_contracts d)
  /\ label_contracts (fst run1)
     = map (expire_if_eligible fromisoformat now) (label_contracts d)
  /\ (forall r : contract,
      status (expire_if_eligible fromisoformat now r) = "expired"
      <-> status r = "expired" \/ eligible r = true)
  /\ (forall r : contract,
      eligible r = false -> expire_if_eligible fromisoformat now r = r)
  /\ (forall r : contract,
      eligible r = true
      <-> status r <> "expired"
          /\ exists end_date : Z,
             contract_end_date fromisoformat r = Some end_date
             /\ end_date < date now)
  /\ expired_hw_count (snd run1)
     = Z.of_nat (List.length (filter eligible (hardware_contracts d)))
  /\ expired_label_count (snd run1)
     = Z.of_nat (List.length (filter eligible (label_contracts d)))
  /\ marked (snd run1)
     = (map id (filter eligible (hardware_contracts d))
        ++ map id (filter eligible (label_contracts d)))%list
  /\ fst run2 = fst run1
  /\ snd run2 = mkReport 0 0 [].
Proof.
  intros Hhw Hlb Hdate eligible run1 run2.
  assert (H1 : run1
    = (mkDb (map (expire_if_eligible fromisoformat now) (hardware_contracts d))
         (map (expire_if_eligible fromisoformat now) (label_contracts d))
         (service_history d) (users d) (notifications d) (audit_trails d)
         (history_reachable d),
       mkReport (Z.of_nat (List.length (filter eligible (hardware_contracts d))))
         (Z.of_nat (List.length (filter eligible (label_contracts d))))
         (map id (filter eligible (hardware_contracts d))
          ++ map id (filter eligible (label_contracts d)))%list)).
  { subst run1. unfold check_expired_contracts.
    rewrite (expire_table_spec fromisoformat _ _ _ _ _ Hhw).
    rewrite (expire_table_spec fromisoformat _ _ _ _ _ Hlb).
    reflexivity. }
  assert (H2 : run2 = (fst run1, mkReport 0 0 [])).
  { subst run2. rewrite H1. unfold check_expired_contracts. simpl fst.
    cbn [hardware_contracts label_contracts service_history users notifications
         audit_trails history_reachable].
    rewrite (expire_table_again now now' _ _ _ Hhw Hdate).
    rewrite (expire_table_again now now' _ _ _ Hlb Hdate).
    reflexivity. }
  rewrite H2, H1. simpl.
  split; [reflexivity|]. split; [reflexivity|].
  split.
  { intros r. unfold expire_if_eligible. fold eligible. split.
    - intros Hs. destruct (eligible r); [now right | now left].
    - intros [Hs | He]; [now destruct (eligible r) | now rewrite He]. }
  split.
  { intros r He. unfold expire_if_eligible. fold eligible. now rewrite He. }
  split.
  { intros r. subst eligible. unfold expiry_eligible, past_end. split.
    - intros H. apply andb_true_iff in H. destruct H as [Hs H]. split.
      + apply negb_true_iff in Hs. now apply String.eqb_neq.
      + destruct (contract_end_date fromisoformat r) as [end_date|]; [|discriminate].
        exists end_date. split; [reflexivity|]. now apply Z.ltb_lt.
    - intros (Hs & end_date & Hend & Hlt). rewrite Hend.
      apply String.eqb_neq in Hs. rewrite Hs. simpl. now apply Z.ltb_lt. }
  repeat split.
Qed.

End ExpiryScanClaim.

(** ** The due-soon scan *)

Section DueSoonScanProperties.

Variable fromisoformat : string -> option datetime.

Lemma upcoming_loop_cons (upcoming_date : datetime) (c : contract * string)
    (rest acc : list (contract * string)) :
  upcoming_loop fromisoformat upcoming_date (c :: rest) acc
  = match next_pms_schedule (fst c) with
    | Some s =>
      if negb (String.eqb s "") then
        match fromisoformat (replace_Z s) with
        | Some d =>
          if Bool.eqb (aware d) (aware upcoming_date)
          then upcoming_loop fromisoformat upcoming_date rest
                 (if instant d <=? instant upcoming_date then acc ++ [c] else acc)%list
          else Raise TypeError
        | None => Raise ValueError
        end
      else upcoming_loop fromisoformat upcoming_date rest acc
    | None => upcoming_loop fromisoformat upcoming_date rest acc
    end.
Proof.
  simpl. destruct (next_pms_schedule (fst c)) as [s|]; [|reflexivity].
  destruct (negb (String.eqb s "")); [|reflexivity].
  unfold parse_iso. destruct (fromisoformat (replace_Z s)) as [d|]; [|reflexivity].
  simpl. unfold datetime_le. destruct (Bool.eqb (aware d) (aware upcoming_date));
    reflexivity.
Qed.

(** The loop only ever flags rows it was given. *)
Lemma upcoming_loop_subset (upcoming_date : datetime) (all : list (contract * string)) :
  forall (acc flagged : list (contract * string)),
  upcoming_loop fromisoformat upcoming_date all acc = Return flagged ->
  forall c, In c flagged -> In c acc \/ In c all.
Proof.
  induction all as [|x rest IH]; intros acc flagged H c Hc.
  - simpl in H. injection H as <-. now left.
  - rewrite upcoming_loop_cons in H.
    destruct (next_pms_schedule (fst x)) as [s|].
    + destruct (negb (String.eqb s "")).
      * destruct (fromisoformat (replace_Z s)) as [d|]; [|discriminate].
        destruct (Bool.eqb (aware d) (aware upcoming_date)); [|discriminate].
        destruct (IH _ _ H c Hc) as [Hin | Hin]; [|right; now right].
        destruct (instant d <=? instant upcoming_date); [|now left].
        apply in_app_or in Hin. destruct Hin as [Hin | [<- | []]];
          [now left | right; now left].
      * destruct (IH _ _ H c Hc); [now left | right; now right].
    + destruct (IH _ _ H c Hc); [now left | right; now right].
Qed.

(** One row the scan cannot compare ends the loop with an exception. *)
Lemma upcoming_loop_breaks (upcoming_date : datetime) (all : list (contract * string)) :
  aware upcoming_date = false ->
  (exists c, In c all /\ breaks_scan fromisoformat (fst c) = true) ->
  forall acc, exists e, upcoming_loop fromisoformat upcoming_date all acc = Raise e.
Proof.
  intros Hnaive. induction all as [|x rest IH]; intros (c & Hin & Hb) acc.
  - contradiction.
  - rewrite upcoming_loop_cons.
    destruct Hin as [-> | Hin].
    + unfold breaks_scan in Hb.
      destruct (next_pms_schedule (fst c)) as [s|]; [|discriminate].
      apply andb_true_iff in Hb. destruct Hb as [Hs Hd]. rewrite Hs.
      destruct (fromisoformat (replace_Z s)) as [d|]; [|now exists ValueError].
      rewrite Hd, Hnaive. now exists TypeError.
    + assert (Hrest : exists c, In c rest /\ breaks_scan fromisoformat (fst c) = true)
        by (exists c; auto).
      destruct (next_pms_schedule (fst x)) as [s|]; [|now apply IH].
      destruct (negb (String.eqb s "")); [|now apply IH].
      destruct (fromisoformat (replace_Z s)) as [d|]; [|now exists ValueError].
      destruct (Bool.eqb (aware d) (aware upcoming_date)); [|now exists TypeError].
      now apply IH.
Qed.

(** When every due date there is parses as a naive value, the loop flags
    the rows due by the date it is given, in order. *)
Lemma upcoming_loop_naive (upcoming_date : datetime) (all : list (contract * string)) :
  aware upcoming_date = false ->
  (forall c, In c all -> breaks_scan fromisoformat (fst c) = false) ->
  forall acc,
  upcoming_loop fromisoformat upcoming_date all acc
  = Return (acc ++ filter (fun c => due_by fromisoformat upcoming_date (fst c)) all)%list.
Proof.
  intros Hnaive. induction all as [|x rest IH]; intros Hok acc.
  - simpl. now rewrite app_nil_r.
  - rewrite upcoming_loop_cons.
    assert (Hrest : forall c, In c rest -> breaks_scan fromisoformat (fst c) = false)
      by (intros c Hc; apply Hok; now right).
    pose proof (Hok x (or_introl eq_refl)) as Hx.
    simpl filter. unfold due_by, next_due. unfold breaks_scan in Hx.
    destruct (next_pms_schedule (fst x)) as [s|]; [|now apply IH].
    destruct (negb (String.eqb s "")); [|now apply IH].
    simpl in Hx.
    destruct (fromisoformat (replace_Z s)) as [d|]; [|discriminate].
    rewrite Hx, Hnaive. simpl.
    rewrite IH by exact Hrest.
    destruct (instant d <=? instant upcoming_date); [|reflexivity].
    now rewrite <- app_assoc.
Qed.

End DueSoonScanProperties.

Lemma filter_idem {A : Type} (f : A -> bool) (l : list A) :
  filter f (filter f l) = filter f l.
Proof.
  rewrite filter_filter. apply filter_ext. intros x. now destruct (f x).
Qed.

Lemma open_contracts_not_expired (d : db) (c : contract * string) :
  In c (open_contracts d) -> status (fst c) <> "expired".
Proof.
  unfold open_contracts, select_neq_expired. intros H.
  apply in_app_or in H.
  destruct H as [H | H]; apply in_map_iff in H; destruct H as (r & <- & Hr);
    apply filter_In in Hr; destruct Hr as [_ Hr]; simpl;
    apply negb_true_iff in Hr; now apply String.eqb_neq.
Qed.

Section DueSoonScanResults.

Variable fromisoformat : string -> option datetime.

(** The scan as a function of the rows it loops over. *)
Lemma check_upcoming_maintenance_eq (now : datetime) (d : db) :
  check_upcoming_maintenance fromisoformat now d
  = match (upcoming_date <- add_days now 7 ;;
           upcoming_loop fromisoformat upcoming_date (open_contracts d) []) with
    | Return upcoming_contracts =>
      (fold_left (fun d c => send_maintenance_notification c d) upcoming_contracts d,
       upcoming_contracts)
    | Raise _ => (d, [])
    end.
Proof.
  unfold check_upcoming_maintenance, open_contracts, select_neq_expired.
  now rewrite !filter_idem.
Qed.

(** A contract whose status is expired is never flagged. *)
Lemma due_soon_scan_skips_expired (now : datetime) (d : db) (c : contract * string) :
  In c (snd (check_upcoming_maintenance fromisoformat now d)) ->
  status (fst c) <> "expired".
Proof.
  rewrite check_upcoming_maintenance_eq.
  destruct (add_days now 7) as [upcoming_date|]; simpl; [|contradiction].
  destruct (upcoming_loop fromisoformat upcoming_date (open_contracts d) [])
    as [flagged|] eqn:E; simpl; [|contradiction].
  intros Hc.
  destruct (upcoming_loop_subset fromisoformat _ _ _ _ E c Hc) as [[] | Hin].
  now apply (open_contracts_not_expired d).
Qed.

(** While every due date on file parses as a naive value, the scan flags
    exactly the open contracts due within seven days of the clock. *)
Lemma due_soon_scan_naive (now : datetime) (d : db) :
  aware now = false ->
  0 < ordinal now + 7 <= MAXORDINAL ->
  (forall c, In c (open_contracts d) -> breaks_scan fromisoformat (fst c) = false) ->
  snd (check_upcoming_maintenance fromisoformat now d)
  = filter (fun c => due_by fromisoformat (shift now 7) (fst c)) (open_contracts d).
Proof.
  intros Hnaive Hrange Hok.
  rewrite check_upcoming_maintenance_eq, add_days_in_range by exact Hrange.
  simpl rbind. fold (shift now 7).
  rewrite upcoming_loop_naive by assumption.
  reflexivity.
Qed.

(** One open contract with a due date that does not parse, or that parses
    as an aware value, and the run ends in its [except] branch: nobody is
    notified, about any contract. *)
Lemma due_soon_scan_aborts (now : datetime) (d : db) :
  aware now = false ->
  (exists c, In c (open_contracts d) /\ breaks_scan fromisoformat (fst c) = true) ->
  check_upcoming_maintenance fromisoformat now d = (d, []).
Proof.
  intros Hnaive Hbad.
  rewrite check_upcoming_maintenance_eq.
  destruct (add_days now 7) as [upcoming_date|] eqn:E; simpl; [|reflexivity].
  apply (add_days_inv now upcoming_date 7) in E. destruct E as [-> _].
  fold (shift now 7).
  assert (Hn : aware (shift now 7) = false) by exact Hnaive.
  destruct (upcoming_loop_breaks fromisoformat _ (open_contracts d) Hn Hbad [])
    as [e He].
  now rewrite He.
Qed.

End DueSoonScanResults.

(** C5 fails on the code. An active hardware contract due on 2024-01-05,
    its due date stored with the [Z] suffix the scan itself provides for, is
    within seven days of 2024-01-01 09:00; the scan parses the date as an
    aware value, compares it with the naive clock, and ends in its
    [except] branch with nobody notified. *)
Lemma due_soon_scan_misses_due_contract :
  let c := Sample.row "c-1" "1" "active" (Some "2025-12-31T00:00:00")
             (Some "2024-01-05T00:00:00Z") 1 in
  let d := Sample.store [c] [] in
  status c <> "expired"
  /\ due_by iso_parse (shift Sample.now 7) c = true
  /\ check_upcoming_maintenance iso_parse Sample.now d = (d, []).
Proof.
  repeat split. discriminate.
Qed.

(** The same contract with a naive due date is flagged, and the technician
    notified. *)
Lemma due_soon_scan_flags_naive_contract :
  let c := Sample.row "c-1" "1" "active" (Some "2025-12-31T00:00:00")
             (Some "2024-01-05T00:00:00") 1 in
  let d := Sample.store [c] [] in
  snd (check_upcoming_maintenance iso_parse Sample.now d) = [(c, "hardware")]
  /\ map n_user_id (notifications (fst (check_upcoming_maintenance iso_parse Sample.now d)))
     = ["u-1"].
Proof.
  repeat split.
Qed.

(** ** Sequence numbers *)

(** *** [str], [int], [isdigit] and [strip] on numerals *)

Lemma digit_code (c : ascii) (v : Z) :
  digit_value c = Some v -> code c = 48 + v /\ 0 <= v <= 9.
Proof.
  unfold digit_value, code.
  destruct ((48 <=? Z.of_nat (nat_of_ascii c)) && (Z.of_nat (nat_of_ascii c) <=? 57)) eqn:E;
    [|discriminate].
  intros H. injection H as <-. apply andb_true_iff in E. lia.
Qed.

Ltac digit_cases v H :=
  assert (v = 0 \/ v = 1 \/ v = 2 \/ v = 3 \/ v = 4 \/ v = 5 \/ v = 6 \/ v = 7
          \/ v = 8 \/ v = 9) as Hcases by lia;
  clear H; repeat (destruct Hcases as [-> | Hcases]); try subst v; reflexivity.

(** An ASCII digit is a digit, its own decimal, and no whitespace. *)
Lemma digit_classes (v : Z) :
  0 <= v <= 9 ->
  is_space (48 + v) = false /\ is_digit (48 + v) = true
  /\ (48 + v <? 0x80) = true /\ (48 + v <? 0x7F) = true
  /\ ((0x30 <=? 48 + v) && (48 + v <=? 0x39)) = true
  /\ c_isspace (48 + v) = false.
Proof.
  intros H. repeat split; digit_cases v H.
Qed.

Lemma all_digits_cons (c : ascii) (r : string) :
  all_digits (String c r) = true ->
  (exists v, digit_value c = Some v) /\ all_digits r = true.
Proof.
  simpl. destruct (digit_value c) as [v|]; [|discriminate].
  intros H. split; [now exists v | exact H].
Qed.

(** A text of ASCII digits has one character to the byte. *)
Lemma chars_digits (s : string) :
  all_digits s = true ->
  chars s = map (fun c => (code c, String c EmptyString)) (list_ascii_of_string s).
Proof.
  induction s as [|c r IH]; intros H; [reflexivity|].
  apply all_digits_cons in H. destruct H as [[v Hv] Hr].
  destruct (digit_code c v Hv) as [Hc Hrange].
  destruct (digit_classes v Hrange) as (_ & _ & Hlt & _).
  cbn [chars list_ascii_of_string map]. cbv zeta. rewrite Hc, Hlt.
  now rewrite (IH Hr).
Qed.

Lemma text_of_bytes (s : string) :
  text_of (map (fun c => (code c, String c EmptyString)) (list_ascii_of_string s)) = s.
Proof. induction s as [|c r IH]; simpl; [reflexivity | now rewrite IH]. Qed.

Lemma lstrip_chars_head (c : Z * string) (l : list (Z * string)) :
  is_space (fst c) = false -> lstrip_chars (c :: l) = c :: l.
Proof. intros H. simpl. now rewrite H. Qed.

Lemma lstrip_chars_none (l : list (Z * string)) :
  Forall (fun c => is_space (fst c) = false) l -> lstrip_chars l = l.
Proof. intros H. destruct H as [|c l Hc _]; [reflexivity | now apply lstrip_chars_head]. Qed.

(** [strip] leaves a text alone that holds no whitespace. *)
Lemma strip_none (s : string) :
  Forall (fun c => is_space (fst c) = false) (chars s) ->
  text_of (chars s) = s ->
  strip s = s.
Proof.
  intros Hall Htext. unfold strip.
  rewrite (lstrip_chars_none _ Hall).
  rewrite lstrip_chars_none by (now apply Forall_rev).
  now rewrite rev_involutive.
Qed.

Lemma chars_digits_no_space (s : string) :
  all_digits s = true -> Forall (fun c => is_space (fst c) = false) (chars s).
Proof.
  induction s as [|c r IH]; intros H; [constructor|].
  rewrite (chars_digits _ H).
  apply all_digits_cons in H. destruct H as [[v Hv] Hr].
  destruct (digit_code c v Hv) as [Hc Hrange].
  destruct (digit_classes v Hrange) as (Hsp & _).
  cbn [list_ascii_of_string map]. constructor.
  - cbn [fst]. now rewrite Hc.
  - rewrite <- (chars_digits _ Hr). now apply IH.
Qed.

Lemma strip_digits (s : string) : all_digits s = true -> strip s = s.
Proof.
  intros H. apply strip_none; [now apply chars_digits_no_space|].
  rewrite (chars_digits _ H). apply text_of_bytes.
Qed.

(** [isdigit] accepts every text of ASCII digits that is not empty. *)
Lemma isdigit_digits (s : string) : all_digits s = true -> s <> "" -> isdigit s = true.
Proof.
  intros H Hne. unfold isdigit. rewrite (chars_digits _ H).
  assert (Hall : forallb (fun c => is_digit (fst c))
                   (map (fun c => (code c, String c EmptyString))
                      (list_ascii_of_string s)) = true).
  { clear Hne. induction s as [|c r IH]; [reflexivity|].
    apply all_digits_cons in H. destruct H as [[v Hv] Hr].
    destruct (digit_code c v Hv) as [Hc Hrange].
    destruct (digit_classes v Hrange) as (_ & Hd & _).
    cbn [list_ascii_of_string map forallb fst]. rewrite Hc, Hd. now apply IH. }
  destruct s as [|c r]; [congruence|]. exact Hall.
Qed.

(** [int] reads a text of ASCII digits byte by byte. *)
Lemma transform_digits (s : string) :
  all_digits s = true -> transform (chars s) = codes s.
Proof.
  intros H. rewrite (chars_digits _ H). unfold codes.
  induction s as [|c r IH]; [reflexivity|].
  apply all_digits_cons in H. destruct H as [[v Hv] Hr].
  destruct (digit_code c v Hv) as [Hc Hrange].
  destruct (digit_classes v Hrange) as (_ & _ & _ & Hlt & _).
  cbn [list_ascii_of_string map transform fst]. cbv zeta. rewrite Hc, Hlt.
  now rewrite (IH Hr).
Qed.

Lemma int_digits_step (c : ascii) (v : Z) (r : string) (acc : Z) (after_digit : bool) :
  digit_value c = Some v ->
  int_digits (codes (String c r)) acc after_digit = int_digits (codes r) (acc * 10 + v) true.
Proof.
  intros H. destruct (digit_code c v H) as [Hc Hrange].
  destruct (digit_classes v Hrange) as (_ & _ & _ & _ & Hd & _).
  unfold codes. cbn [list_ascii_of_string map int_digits]. rewrite Hc, Hd.
  f_equal. lia.
Qed.

Lemma all_digits_uint (d : Decimal.uint) : all_digits (NilEmpty.string_of_uint d) = true.
Proof. induction d; simpl; auto. Qed.

Lemma int_digits_uint_acc (d : Decimal.uint) :
  forall (p : positive) (after_digit : bool),
  d <> Decimal.Nil \/ after_digit = true ->
  int_digits (codes (NilEmpty.string_of_uint d)) (Z.pos p) after_digit
  = Some (Z.pos (Pos.of_uint_acc d p)).
Proof.
  induction d as [|d IH|d IH|d IH|d IH|d IH|d IH|d IH|d IH|d IH|d IH]; intros p b Hne.
  1: destruct Hne as [Hne | ->]; [congruence | reflexivity].
  all: cbn [NilEmpty.string_of_uint Pos.of_uint_acc];
    erewrite int_digits_step by reflexivity;
    match goal with
    | |- int_digits _ (_ * 10 + ?v) true = _ =>
      let v' := eval vm_compute in v in change v with v'
    end;
    match goal with
    | |- int_digits _ ?a true = Some (Z.pos (Pos.of_uint_acc _ ?q)) =>
      replace a with (Z.pos q) by lia
    end;
    apply IH; now right.
Qed.

Lemma int_digits_uint (d : Decimal.uint) :
  forall after_digit : bool,
  d <> Decimal.Nil \/ after_digit = true ->
  int_digits (codes (NilEmpty.string_of_uint d)) 0 after_digit = Some (Z.of_uint d).
Proof.
  unfold Z.of_uint.
  induction d as [|d IH|d IH|d IH|d IH|d IH|d IH|d IH|d IH|d IH|d IH]; intros b Hne.
  1: destruct Hne as [Hne | ->]; [congruence | reflexivity].
  1: cbn [NilEmpty.string_of_uint Pos.of_uint];
     erewrite int_digits_step by reflexivity;
     match goal with
     | |- int_digits _ ?a true = _ =>
       let a' := eval vm_compute in a in change a with a'
     end;
     apply IH; now right.
  all: cbn [NilEmpty.string_of_uint Pos.of_uint];
    erewrite int_digits_step by reflexivity;
    match goal with
    | |- int_digits _ ?a true = _ =>
      let a' := eval vm_compute in a in change a with a'
    end;
    cbn [Z.of_N];
    apply int_digits_uint_acc; now right.
Qed.

(** [str(n)] for a positive [n] is the text of its digits. *)
Lemma py_str_pos (p : positive) :
  py_str (Z.pos p) = NilEmpty.string_of_uint (Pos.to_uint p).
Proof.
  unfold py_str. cbn [Z.to_int NilZero.string_of_int]. unfold NilZero.string_of_uint.
  pose proof (DecimalPos.Unsigned.to_uint_nonnil p) as Hne.
  now destruct (Pos.to_uint p).
Qed.

Lemma py_str_neg (p : positive) :
  py_str (Z.neg p) = String "-" (NilEmpty.string_of_uint (Pos.to_uint p)).
Proof.
  unfold py_str. cbn [Z.to_int NilZero.string_of_int]. unfold NilZero.string_of_uint.
  pose proof (DecimalPos.Unsigned.to_uint_nonnil p) as Hne.
  now destruct (Pos.to_uint p).
Qed.

Lemma string_of_uint_nonempty (d : Decimal.uint) :
  d <> Decimal.Nil -> NilEmpty.string_of_uint d <> "".
Proof. destruct d; simpl; congruence. Qed.

(** [str(n).isdigit()] holds for every [n] that is not negative. *)
Lemma isdigit_py_str (n : Z) : 0 <= n -> isdigit (py_str n) = true.
Proof.
  intros Hn. destruct n as [|p|p]; [reflexivity| |lia].
  rewrite py_str_pos. apply isdigit_digits; [apply all_digits_uint|].
  apply string_of_uint_nonempty, DecimalPos.Unsigned.to_uint_nonnil.
Qed.

(** [str(n).strip() == str(n)] *)
Lemma strip_py_str (n : Z) : strip (py_str n) = py_str n.
Proof.
  destruct n as [|p|p]; [reflexivity| |].
  - rewrite py_str_pos. apply strip_digits, all_digits_uint.
  - rewrite py_str_neg.
    pose proof (all_digits_uint (Pos.to_uint p)) as Hall.
    apply strip_none.
    + change (chars (String "-" ?r)) with ((45, String "-" EmptyString) :: chars r).
      constructor; [reflexivity | now apply chars_digits_no_space].
    + change (chars (String "-" ?r)) with ((45, String "-" EmptyString) :: chars r).
      cbn [text_of fold_right snd]. rewrite (chars_digits _ Hall).
      cbn [append]. f_equal. apply text_of_bytes.
Qed.

Lemma skip_space_digits (s : string) :
  all_digits s = true -> skip_space (codes s) = codes s.
Proof.
  destruct s as [|c r]; [reflexivity|]. intros H.
  apply all_digits_cons in H. destruct H as [[v Hv] _].
  destruct (digit_code c v Hv) as [Hc Hrange].
  destruct (digit_classes v Hrange) as (_ & _ & _ & _ & _ & Hsp).
  unfold codes. cbn [list_ascii_of_string map skip_space]. now rewrite Hc, Hsp.
Qed.

(** A sign is no digit, so [int] reads a text of digits as it stands. *)
Lemma py_int_all_digits (s : string) :
  all_digits s = true -> py_int s = int_digits (codes s) 0 false.
Proof.
  intros H. unfold py_int. rewrite (transform_digits _ H), (skip_space_digits _ H).
  destruct s as [|c r]; [reflexivity|].
  apply all_digits_cons in H. destruct H as [[v Hv] _].
  destruct (digit_code c v Hv) as [Hc Hrange].
  unfold codes. cbn [list_ascii_of_string map]. rewrite Hc.
  assert (Hcases : v = 0 \/ v = 1 \/ v = 2 \/ v = 3 \/ v = 4 \/ v = 5 \/ v = 6 \/ v = 7
                   \/ v = 8 \/ v = 9) by lia.
  repeat (destruct Hcases as [-> | Hcases]); try subst v; reflexivity.
Qed.

(** [int(str(n)) == n] *)
Lemma py_int_py_str (n : Z) : py_int (py_str n) = Some n.
Proof.
  destruct n as [|p|p]; [reflexivity| |].
  - rewrite py_str_pos, (py_int_all_digits _ (all_digits_uint _)).
    rewrite int_digits_uint by (left; apply DecimalPos.Unsigned.to_uint_nonnil).
    unfold Z.of_uint. now rewrite DecimalPos.Unsigned.of_to.
  - rewrite py_str_neg. unfold py_int.
    change (chars (String "-" ?r)) with ((45, String "-" EmptyString) :: chars r).
    cbn [transform fst]. change (45 <? 0x7F) with true. cbv zeta iota.
    rewrite (transform_digits _ (all_digits_uint _)).
    cbn [skip_space]. change (c_isspace 45) with false. cbv iota.
    rewrite int_digits_uint by (left; apply DecimalPos.Unsigned.to_uint_nonnil).
    unfold Z.of_uint. rewrite DecimalPos.Unsigned.of_to. reflexivity.
Qed.

Lemma py_str_inj (a b : Z) : py_str a = py_str b -> a = b.
Proof.
  unfold py_str. intros H.
  assert (Hisi : forall z : Z,
            NilZero.int_of_string (NilZero.string_of_int (Z.to_int z))
            = Some (Z.to_int z)).
  { intros z. apply NilZero.isi; destruct z; simpl; try discriminate;
      intros E; injection E as E; now apply Unsigned.to_uint_nonnil in E. }
  apply DecimalZ.to_int_inj.
  pose proof (Hisi a) as Ha. rewrite H, Hisi in Ha. congruence.
Qed.

Lemma insert_by_perm (desc : bool) (r : contract) (rows : list contract) :
  Permutation (insert_by desc r rows) (r :: rows).
Proof.
  induction rows as [|x rest IH]; simpl; [reflexivity|].
  destruct (if desc then created_at x <? created_at r
            else created_at r <? created_at x); [reflexivity|].
  rewrite IH. apply perm_swap.
Qed.

Lemma order_by_created_at_perm (desc : bool) (table : list contract) :
  Permutation (order_by_created_at desc table) table.
Proof.
  induction table as [|x t IH]; simpl; [reflexivity|].
  rewrite insert_by_perm. now constructor.
Qed.

(** Sorting looks at [created_at] only, so it commutes with any change of
    the rows that keeps it. *)
Lemma insert_by_map (desc : bool) (g : contract -> contract) (r : contract)
    (rows : list contract) :
  (forall x, created_at (g x) = created_at x) ->
  insert_by desc (g r) (map g rows) = map g (insert_by desc r rows).
Proof.
  intros Hg. induction rows as [|x rest IH]; simpl; [reflexivity|].
  rewrite !Hg.
  destruct (if desc then created_at x <? created_at r
            else created_at r <? created_at x); simpl; [reflexivity|].
  now rewrite IH.
Qed.

Lemma order_by_created_at_map (desc : bool) (g : contract -> contract)
    (table : list contract) :
  (forall x, created_at (g x) = created_at x) ->
  order_by_created_at desc (map g table) = map g (order_by_created_at desc table).
Proof.
  intros Hg. unfold order_by_created_at.
  induction table as [|x t IH]; simpl; [reflexivity|].
  rewrite IH. now apply insert_by_map.
Qed.

(** The result is in creation order, oldest first or newest first. *)
Lemma insert_by_sorted (desc : bool) (r : contract) (rows : list contract) :
  let before x y :=
    if desc then created_at y <= created_at x else created_at x <= created_at y in
  StronglySorted before rows -> StronglySorted before (insert_by desc r rows).
Proof.
  intros before. induction rows as [|x rest IH]; intros Hs; simpl.
  - repeat constructor.
  - inversion Hs as [|? ? Hrest Hall]; subst.
    destruct (if desc then created_at x <? created_at r
              else created_at r <? created_at x) eqn:E.
    + constructor; [exact Hs|].
      assert (Hrx : before r x).
      { subst before. simpl. destruct desc; apply Z.ltb_lt in E; lia. }
      constructor; [exact Hrx|].
      rewrite Forall_forall in *. intros y Hy. specialize (Hall y Hy).
      subst before. simpl in *. destruct desc; lia.
    + constructor; [now apply IH|].
      rewrite Forall_forall in *. intros y Hy.
      apply (Permutation_in _ (insert_by_perm desc r rest)) in Hy.
      destruct Hy as [<- | Hy]; [|now apply Hall].
      subst before. simpl. destruct desc; apply Z.ltb_ge in E; lia.
Qed.

Lemma order_by_created_at_sorted (desc : bool) (table : list contract) :
  StronglySorted
    (fun x y => if desc then created_at y <= created_at x
                else created_at x <= created_at y)
    (order_by_created_at desc table).
Proof.
  induction table as [|x t IH]; simpl; [constructor|].
  now apply insert_by_sorted.
Qed.

Lemma id_set_sq (s : string) (r : contract) : id (set_sq s r) = id r.
Proof. reflexivity. Qed.

Lemma resequence_row_keeps (idx : Z) (rows : list contract) (r : contract) :
  id (resequence_row idx rows r) = id r
  /\ created_at (resequence_row idx rows r) = created_at r.
Proof.
  revert idx r. induction rows as [|x rest IH]; intros idx r; simpl; [auto|].
  destruct (IH (idx + 1) (if String.eqb (id r) (id x) then set_sq (py_str idx) r else r))
    as [H1 H2].
  rewrite H1, H2. now destruct (String.eqb (id r) (id x)).
Qed.

(** The loop's updates act on the table row by row. *)
Lemma resequence_loop_map (rows : list contract) :
  forall (idx : Z) (table : list contract),
  resequence_loop idx rows table = map (resequence_row idx rows) table.
Proof.
  induction rows as [|x rest IH]; intros idx table; simpl.
  - now rewrite map_id.
  - rewrite IH. unfold update_eq_id. rewrite map_map. reflexivity.
Qed.

Lemma resequence_row_other (rows : list contract) :
  forall (idx : Z) (r : contract),
  ~ In (id r) (map id rows) -> resequence_row idx rows r = r.
Proof.
  induction rows as [|x rest IH]; intros idx r Hnin; simpl; [reflexivity|].
  simpl in Hnin.
  destruct (String.eqb_spec (id r) (id x)) as [E | E]; [exfalso; auto|].
  apply IH. auto.
Qed.

(** Over rows with distinct ids, the row at position [k] gets number
    [start + k]. *)
Lemma resequence_rows_sq (rows : list contract) :
  forall start : nat,
  NoDup (map id rows) ->
  map (fun r => sq (resequence_row (Z.of_nat start) rows r)) rows
  = map (fun k => Some (py_str (Z.of_nat k))) (seq start (List.length rows)).
Proof.
  induction rows as [|x rest IH]; intros start Hnd; [reflexivity|].
  inversion Hnd as [|? ? Hnin Hnd']; subst.
  cbn [map List.length seq]. f_equal.
  - simpl. rewrite String.eqb_refl.
    rewrite resequence_row_other by (now rewrite id_set_sq). reflexivity.
  - rewrite <- IH by assumption.
    apply map_ext_in. intros r Hr. simpl.
    destruct (String.eqb_spec (id r) (id x)) as [E | E].
    + exfalso. apply Hnin. rewrite <- E. now apply in_map.
    + now replace (Z.of_nat start + 1) with (Z.of_nat (S start)) by lia.
Qed.

Lemma dense_sqs_NoDup (n : nat) : NoDup (dense_sqs n).
Proof.
  unfold dense_sqs. apply NoDup_map_NoDup_ForallPairs; [|apply seq_NoDup].
  intros a b _ _ H. injection H as H. apply py_str_inj in H. lia.
Qed.

Lemma dense_sqs_In (n : nat) (s : option string) :
  In s (dense_sqs n)
  <-> exists i : Z, 1 <= i <= Z.of_nat n /\ s = Some (py_str i).
Proof.
  unfold dense_sqs. rewrite in_map_iff. split.
  - intros (k & <- & Hk). apply in_seq in Hk. exists (Z.of_nat k). split; [lia|reflexivity].
  - intros (i & Hi & ->). exists (Z.to_nat i). split.
    + now rewrite Z2Nat.id by lia.
    + apply in_seq. lia.
Qed.

(** Resequencing a table with a primary key. *)
Lemma resequence_table (table : list contract) :
  NoDup (map id table) ->
  let table' := resequence_loop 1 (order_by_created_at false table) table in
  map sq (order_by_created_at false table') = dense_sqs (List.length table)
  /\ Permutation (map sq table') (dense_sqs (List.length table))
  /\ map id table' = map id table
  /\ map created_at table' = map created_at table.
Proof.
  intros Hnd table'. subst table'. rewrite resequence_loop_map.
  set (rows := order_by_created_at false table).
  assert (Hperm : Permutation rows table) by apply order_by_created_at_perm.
  assert (Hndr : NoDup (map id rows)).
  { apply (Permutation_NoDup (l := map id table)); [|exact Hnd].
    apply Permutation_map. now symmetry. }
  assert (Hsq : map sq (map (resequence_row 1 rows) rows) = dense_sqs (List.length table)).
  { rewrite map_map. change 1 with (Z.of_nat 1).
    rewrite resequence_rows_sq by exact Hndr.
    unfold dense_sqs. now rewrite (Permutation_length Hperm). }
  split; [|split; [|split]].
  - rewrite order_by_created_at_map by (intros x; apply resequence_row_keeps).
    exact Hsq.
  - rewrite <- Hsq. apply Permutation_map, Permutation_map. now symmetry.
  - rewrite map_map. apply map_ext. intros r. apply resequence_row_keeps.
  - rewrite map_map. apply map_ext. intros r. apply resequence_row_keeps.
Qed.

Ltac distinct_ids :=
  repeat (constructor; [simpl; intuition discriminate|]); constructor.

(** C9. Whatever sequence numbers a class holds (gaps, duplicates, blanks),
    resequencing a table with a primary key numbers its contracts 1, 2, ...
    in creation order: afterwards the sequence numbers of the class are
    exactly 1 .. N, each once, N being the number of contracts; the other
    class is not touched. *)
Theorem resequence_sq_dense (d : db) :
  (NoDup (map id (hardware_contracts d)) ->
   let d' := fst (resequence_hardware_sq d) in
   let n := List.length (hardware_contracts d) in
   map sq (order_by_created_at false (hardware_contracts d')) = dense_sqs n
   /\ NoDup (map sq (hardware_contracts d'))
   /\ (forall s, In s (map sq (hardware_contracts d'))
                 <-> exists i : Z, 1 <= i <= Z.of_nat n /\ s = Some (py_str i))
   /\ List.length (hardware_contracts d') = n
   /\ map id (hardware_contracts d') = map id (hardware_contracts d)
   /\ snd (resequence_hardware_sq d) = Z.of_nat n
   /\ label_contracts d' = label_contracts d)
  /\ (NoDup (map id (label_contracts d)) ->
      let d' := fst (resequence_label_sq d) in
      let n := List.length (label_contracts d) in
      map sq (order_by_created_at false (label_contracts d')) = dense_sqs n
      /\ NoDup (map sq (label_contracts d'))
      /\ (forall s, In s (map sq (label_contracts d'))
                    <-> exists i : Z, 1 <= i <= Z.of_nat n /\ s = Some (py_str i))
      /\ List.length (label_contracts d') = n
      /\ map id (label_contracts d') = map id (label_contracts d)
      /\ snd (resequence_label_sq d) = Z.of_nat n
      /\ hardware_contracts d' = hardware_contracts d).
Proof.
  assert (Hgen : forall table : list contract,
    NoDup (map id table) ->
    let table' := resequence_loop 1 (order_by_created_at false table) table in
    let n := List.length table in
    map sq (order_by_created_at false table') = dense_sqs n
    /\ NoDup (map sq table')
    /\ (forall s, In s (map sq table')
                  <-> exists i : Z, 1 <= i <= Z.of_nat n /\ s = Some (py_str i))
    /\ List.length table' = n
    /\ map id table' = map id table
    /\ Z.of_nat (List.length (order_by_created_at false table)) = Z.of_nat n).
  { intros table Hnd table' n.
    destruct (resequence_table table Hnd) as (Hord & Hperm & Hid & _).
    fold table' in Hord, Hperm, Hid. fold n in Hord, Hperm.
    split; [exact Hord|].
    split.
    { apply (Permutation_NoDup (l := dense_sqs n)); [now symmetry|].
      apply dense_sqs_NoDup. }
    split.
    { intros s. rewrite <- dense_sqs_In. split; intros Hin.
      - now apply (Permutation_in _ Hperm).
      - apply (Permutation_in _ (Permutation_sym Hperm)). exact Hin. }
    split.
    { rewrite <- (length_map id table'), Hid. now rewrite length_map. }
    split; [exact Hid|].
    now rewrite (Permutation_length (order_by_created_at_perm false table)). }
  split; intros Hnd; simpl;
    destruct (Hgen _ Hnd) as (H1 & H2 & H3 & H4 & H5 & H6); repeat split;
    try assumption; try (now apply H3).
Qed.

(** Three hardware contracts numbered 7, 3 and blank, created in another
    order than they are stored: the oldest gets 1, the newest 3. *)
Lemma resequence_sq_dense_witness :
  let hw := [Sample.row "a" "7" "active" None None 30;
             Sample.row "b" "3" "active" None None 10;
             mkContract "c" None "Acme Foods" "ZT411" "SN-0003" None None None
               "active" None None None 20 ""] in
  NoDup (map id hw)
  /\ map (fun r => (id r, sq r))
       (hardware_contracts (fst (resequence_hardware_sq (Sample.store hw []))))
     = [("a", Some "3"); ("b", Some "1"); ("c", Some "2")]
  /\ NoDup (map sq (hardware_contracts (fst (resequence_hardware_sq (Sample.store hw []))))).
Proof.
  intros hw.
  assert (Hnd : NoDup (map id hw)) by (subst hw; distinct_ids).
  destruct (resequence_sq_dense (Sample.store hw [])) as [H _].
  destruct (H Hnd) as (_ & Hdistinct & _).
  repeat split; [exact Hnd | exact Hdistinct].
Defined.

(** The row [_get_next_sq] reads is the most recently created one. *)
Lemma latest_created (table : list contract) (last : contract) (rest : list contract) :
  order_by_created_at true table = last :: rest ->
  In last table /\ forall r, In r table -> created_at r <= created_at last.
Proof.
  intros H.
  pose proof (order_by_created_at_perm true table) as Hperm.
  pose proof (order_by_created_at_sorted true table) as Hsorted.
  rewrite H in Hperm, Hsorted. split.
  - apply (Permutation_in _ Hperm). now left.
  - intros r Hr.
    apply (Permutation_in _ (Permutation_sym Hperm)) in Hr.
    destruct Hr as [<- | Hr]; [lia|].
    inversion Hsorted as [|? ? _ Hall]; subst.
    rewrite Forall_forall in Hall. now apply Hall.
Qed.





(** ** Recording a completed visit *)

Lemma select_eq_id_nil (key : string) (table : list contract) :
  (forall r, In r table -> id r <> key) -> select_eq_id key table = [].
Proof.
  intros H. apply filter_none. intros r Hr. apply String.eqb_neq. now apply H.
Qed.

Lemma select_eq_id_cons (key : string) (table : list contract) :
  (exists c, In c table /\ id c = key) ->
  exists c rest, select_eq_id key table = c :: rest.
Proof.
  intros (c & Hc & Hid).
  destruct (select_eq_id key table) as [|x rest] eqn:E; [|now exists x, rest].
  exfalso. assert (Hin : In c (select_eq_id key table)).
  { apply filter_In. split; [exact Hc|]. now apply String.eqb_eq. }
  rewrite E in Hin. contradiction.
Qed.

Lemma select_eq_id_head (key : string) (table : list contract) (c : contract)
    (rest : list contract) :
  select_eq_id key table = c :: rest -> In c table /\ id c = key.
Proof.
  intros E. assert (Hin : In c (select_eq_id key table)) by (rewrite E; now left).
  apply filter_In in Hin. destruct Hin as [Hin Hid].
  split; [exact Hin|]. now apply String.eqb_eq.
Qed.

Lemma update_eq_id_next (key : string) (next_pms now : datetime)
    (table : list contract) (r : contract) :
  In r (update_eq_id key (set_next_pms_schedule next_pms now) table) ->
  id r = key ->
  next_pms_schedule r = Some (isoformat next_pms).
Proof.
  unfold update_eq_id. intros Hin Hid.
  apply in_map_iff in Hin. destruct Hin as (r0 & <- & _).
  destruct (String.eqb_spec (id r0) key) as [E | E]; [reflexivity|].
  contradiction.
Qed.

Section CompletionProperties.

Variable fromisoformat : string -> option datetime.
Variable gen_random_uuid : nat -> string.

(** What a call that gets past its checks returns and leaves behind. *)
Lemma complete_pms_returns (cls : contract_class) (contract_id : string)
    (req : completion_request) (current_user : user) (now : datetime) (d : db)
    (c : contract) (rest : list contract) (next_pms : datetime) :
  select_eq_id contract_id (table_of cls d) = c :: rest ->
  history_reachable d = true ->
  add_days (completion_datetime_of fromisoformat (completion_date req) now)
    (completion_interval cls) = Return next_pms ->
  exists (resp : completion_response) (d' : db) (ev : service_event),
    complete_pms fromisoformat gen_random_uuid cls contract_id req current_user now d
    = (Return resp, d')
    /\ response_next_pms_schedule resp = isoformat next_pms
    /\ service_history_id resp = sh_id ev
    /\ service_history d' = (service_history d ++ [ev])%list
    /\ sh_contract_id ev = contract_id
    /\ sh_contract_type ev = contract_type_of cls
    /\ sh_service_date ev
       = isoformat (completion_datetime_of fromisoformat (completion_date req) now)
    /\ sh_status ev = "completed"
    /\ table_of cls d'
       = update_eq_id contract_id (set_next_pms_schedule next_pms now) (table_of cls d).
Proof.
  intros Hsel Hreach Hadd.
  unfold complete_pms. rewrite Hsel, Hreach. cbn [negb]. rewrite Hadd.
  eexists. eexists. eexists.
  split; [reflexivity|].
  destruct cls; repeat split.
Qed.

(** A call that returns got past its checks. *)
Lemma complete_pms_return_inv (cls : contract_class) (contract_id : string)
    (req : completion_request) (current_user : user) (now : datetime) (d d' : db)
    (resp : completion_response) :
  complete_pms fromisoformat gen_random_uuid cls contract_id req current_user now d
  = (Return resp, d') ->
  exists c rest next_pms,
    select_eq_id contract_id (table_of cls d) = c :: rest
    /\ history_reachable d = true
    /\ add_days (completion_datetime_of fromisoformat (completion_date req) now)
         (completion_interval cls) = Return next_pms.
Proof.
  unfold complete_pms. intros H.
  destruct (select_eq_id contract_id (table_of cls d)) as [|c rest]; [discriminate|].
  destruct (history_reachable d); [|discriminate]. cbn [negb] in H.
  destruct (add_days _ (completion_interval cls)) as [next_pms|]; [|discriminate].
  now exists c, rest, next_pms.
Qed.

End CompletionProperties.

Section CompletionClaims.

Variable fromisoformat : string -> option datetime.
Variable gen_random_uuid : nat -> string.

(** C1. A [complete-pms] call that succeeds found its contract, and moves
    the contract's next due date to the effective completion date plus the
    cadence of its class (90 days for hardware, 30 for label), whatever the
    due date was before. The effective completion date is the date the
    caller sent when it is there and parses, and the clock's time otherwise:
    completed on 2024-01-15, a label contract is next due on 2024-02-14. The
    call appends one service event, completed, dated at the completion
    date, and returns the new due date with the identifier of that event. *)
Theorem recording_completion_advances_due_date
    (cls : contract_class) (contract_id : string) (req : completion_request)
    (current_user : user) (now : datetime) (d d' : db) (resp : completion_response)
    (completion : datetime) :
  complete_pms fromisoformat gen_random_uuid cls contract_id req current_user now d
  = (Return resp, d') ->
  ((exists s, completion_date req = Some s /\ s <> ""
              /\ fromisoformat s = Some completion)
   \/ ((completion_date req = None \/ completion_date req = Some ""
        \/ exists s, completion_date req = Some s /\ fromisoformat s = None)
       /\ completion = now)) ->
  let cadence := match cls with Hardware => 90 | Label => 30 end in
  let next_pms := shift completion cadence in
  cadence = interval_days (contract_type_of cls)
  /\ (exists c, In c (table_of cls d) /\ id c = contract_id)
  /\ response_next_pms_schedule resp = isoformat next_pms
  /\ (forall r, In r (table_of cls d') -> id r = contract_id ->
      next_pms_schedule r = Some (isoformat next_pms))
  /\ table_of cls d'
     = update_eq_id contract_id (set_next_pms_schedule next_pms now) (table_of cls d)
  /\ (exists ev : service_event,
      service_history d' = (service_history d ++ [ev])%list
      /\ sh_id ev = service_history_id resp
      /\ sh_contract_id ev = contract_id
      /\ sh_contract_type ev = contract_type_of cls
      /\ sh_service_date ev = isoformat completion
      /\ sh_status ev = "completed")
  /\ (cls = Label -> completion = naive 2024 1 15 0 0 0 ->
      response_next_pms_schedule resp = "2024-02-14T00:00:00"
      /\ forall r, In r (table_of cls d') -> id r = contract_id ->
         next_pms_schedule r = Some "2024-02-14T00:00:00").
Proof.
  intros Hrun Hdate cadence next_pms.
  assert (Hread : completion_datetime_of fromisoformat (completion_date req) now
                  = completion).
  { unfold completion_datetime_of.
    destruct Hdate as [(s & -> & Hne & Hs) | [[-> | [-> | (s & -> & Hs)]] ->]];
      try reflexivity.
    - apply String.eqb_neq in Hne. now rewrite Hne, Hs.
    - rewrite Hs. now destruct (negb (String.eqb s "")). }
  assert (Hcadence : completion_interval cls = cadence) by now destruct cls.
  destruct (complete_pms_return_inv _ _ _ _ _ _ _ _ _ _ Hrun)
    as (c & rest & next & Hsel & Hreach & Hadd).
  destruct (complete_pms_returns fromisoformat gen_random_uuid cls contract_id req
              current_user now d c rest next Hsel Hreach Hadd)
    as (resp0 & d0 & ev & Hrun0 & Hresp & Hid & Hhist & Hcid & Hty & Hsd & Hst & Htab).
  rewrite Hrun in Hrun0. injection Hrun0 as <- <-.
  rewrite Hread in Hadd, Hsd. rewrite Hcadence in Hadd.
  apply (add_days_inv completion next cadence) in Hadd.
  destruct Hadd as [Hnext _]. fold (shift completion cadence) in Hnext.
  fold next_pms in Hnext. subst next.
  assert (Hrows : forall r, In r (table_of cls d') -> id r = contract_id ->
                  next_pms_schedule r = Some (isoformat next_pms)).
  { intros r Hr Hr_id. rewrite Htab in Hr.
    exact (update_eq_id_next _ _ _ _ _ Hr Hr_id). }
  split; [now destruct cls|].
  split; [exists c; now apply select_eq_id_head in Hsel|].
  split; [exact Hresp|].
  split; [exact Hrows|].
  split; [exact Htab|].
  split; [exists ev; auto 10|].
  intros -> Hc.
  assert (Hiso : isoformat next_pms = "2024-02-14T00:00:00").
  { subst next_pms cadence. rewrite Hc. reflexivity. }
  rewrite <- Hiso. split; [exact Hresp | exact Hrows].
Qed.

(** C6. A [complete-pms] call for an id no contract of the class has fails
    with 404 Not Found and leaves the store as it was: no service event, no
    change to any contract. *)
Theorem recording_completion_unknown_contract
    (cls : contract_class) (contract_id : string) (req : completion_request)
    (current_user : user) (now : datetime) (d : db) :
  (forall r, In r (table_of cls d) -> id r <> contract_id) ->
  complete_pms fromisoformat gen_random_uuid cls contract_id req current_user now d
  = (Raise (HTTPException 404 (not_found_detail cls)), d).
Proof.
  intros Hnone. unfold complete_pms.
  now rewrite (select_eq_id_nil _ _ Hnone).
Qed.

(** C8. With the completion date absent, empty or not parseable, a
    [complete-pms] call for an existing contract, with the history table
    reachable and the clock [cadence] days short of the calendar's end,
    succeeds on the clock's time: the service event is dated now and the
    new due date is now plus the cadence. *)
Theorem recording_completion_defaults_to_now
    (cls : contract_class) (contract_id : string) (req : completion_request)
    (current_user : user) (now : datetime) (d : db) :
  (exists c, In c (table_of cls d) /\ id c = contract_id) ->
  history_reachable d = true ->
  0 < ordinal now + completion_interval cls <= MAXORDINAL ->
  (completion_date req = None \/ completion_date req = Some ""
   \/ exists s, completion_date req = Some s /\ fromisoformat s = None) ->
  exists (resp : completion_response) (d' : db),
    complete_pms fromisoformat gen_random_uuid cls contract_id req current_user now d
    = (Return resp, d')
    /\ response_next_pms_schedule resp
       = isoformat (shift now (completion_interval cls))
    /\ (forall r, In r (table_of cls d') -> id r = contract_id ->
        next_pms_schedule r = Some (isoformat (shift now (completion_interval cls))))
    /\ exists ev : service_event,
       service_history d' = (service_history d ++ [ev])%list
       /\ sh_id ev = service_history_id resp
       /\ sh_contract_id ev = contract_id
       /\ sh_service_date ev = isoformat now
       /\ sh_status ev = "completed".
Proof.
  intros Hex Hreach Hrange Hdate.
  assert (Hnow : completion_datetime_of fromisoformat (completion_date req) now = now).
  { unfold completion_datetime_of.
    destruct Hdate as [-> | [-> | (s & -> & Hs)]]; try reflexivity.
    rewrite Hs. now destruct (negb (String.eqb s "")). }
  destruct (select_eq_id_cons _ _ Hex) as (c & rest & Hsel).
  destruct (complete_pms_returns fromisoformat gen_random_uuid cls contract_id req
              current_user now d c rest (shift now (completion_interval cls)) Hsel Hreach)
    as (resp & d' & ev & Hrun & Hresp & Hid & Hhist & Hcid & Hty & Hsd & Hst & Htab).
  { rewrite Hnow. now apply add_days_in_range. }
  exists resp, d'. split; [exact Hrun|]. split; [exact Hresp|]. split.
  - intros r Hr Hr_id. rewrite Htab in Hr.
    exact (update_eq_id_next _ _ _ _ _ Hr Hr_id).
  - exists ev. rewrite Hnow in Hsd. auto 10.
Qed.

End CompletionClaims.

(** The example of the specification: a label contract due on 2024-01-01 is
    completed on 2024-01-15 and is next due on 2024-02-14. *)
Lemma recording_completion_advances_due_date_witness :
  let c := Sample.row "l-1" "1" "active" (Some "2025-12-31T00:00:00")
             (Some "2024-01-01T00:00:00") 1 in
  let d := Sample.store [] [c] in
  let req := mkRequest None None None None None (Some "2024-01-15") None in
  exists (resp : completion_response) (d' : db),
    complete_label_pms iso_parse Sample.uuid "l-1" req Sample.technician Sample.now d
    = (Return resp, d')
    /\ response_next_pms_schedule resp = "2024-02-14T00:00:00"
    /\ forall r, In r (label_contracts d') -> id r = "l-1" ->
       next_pms_schedule r = Some "2024-02-14T00:00:00".
Proof.
  intros c d req.
  destruct (complete_label_pms iso_parse Sample.uuid "l-1" req Sample.technician
              Sample.now d) as [[resp|e] d'] eqn:E.
  - exists resp, d'. split; [reflexivity|].
    assert (Hsent : (exists s, completion_date req = Some s /\ s <> ""
                       /\ iso_parse s = Some (naive 2024 1 15 0 0 0))
                    \/ ((completion_date req = None \/ completion_date req = Some ""
                         \/ exists s, completion_date req = Some s /\ iso_parse s = None)
                        /\ naive 2024 1 15 0 0 0 = Sample.now)).
    { left. exists "2024-01-15". split; [reflexivity|]. split; [discriminate|reflexivity]. }
    pose proof (recording_completion_advances_due_date iso_parse Sample.uuid Label
                  "l-1" req Sample.technician Sample.now d d' resp
                  (naive 2024 1 15 0 0 0) E Hsent) as H.
    cbv zeta in H.
    destruct H as (_ & _ & _ & _ & _ & _ & H).
    exact (H eq_refl eq_refl).
  - vm_compute in E. discriminate.
Defined.

Lemma recording_completion_unknown_contract_witness :
  let c := Sample.row "h-1" "1" "active" (Some "2025-12-31T00:00:00")
             (Some "2024-01-01T00:00:00") 1 in
  let d := Sample.store [c] [] in
  let req := mkRequest None None None None None None None in
  (forall r, In r (hardware_contracts d) -> id r <> "h-2")
  /\ complete_hardware_pms iso_parse Sample.uuid "h-2" req Sample.technician Sample.now d
     = (Raise (HTTPException 404 "Hardware contract not found"), d).
Proof.
  intros c d req.
  assert (H : forall r, In r (table_of Hardware d) -> id r <> "h-2").
  { intros r [<- | []]. discriminate. }
  split; [exact H|].
  exact (recording_completion_unknown_contract iso_parse Sample.uuid Hardware "h-2" req
           Sample.technician Sample.now d H).
Defined.

(** A completion date that is no date: the visit is recorded at the clock's
    2024-01-01 09:00, and the hardware contract is next due 90 days later. *)
Lemma recording_completion_defaults_to_now_witness :
  let c := Sample.row "h-1" "1" "active" (Some "2025-12-31T00:00:00")
             (Some "2024-01-01T00:00:00") 1 in
  let d := Sample.store [c] [] in
  let req := mkRequest None None None None None (Some "last Tuesday") None in
  exists (resp : completion_response) (d' : db),
    complete_hardware_pms iso_parse Sample.uuid "h-1" req Sample.technician Sample.now d
    = (Return resp, d')
    /\ response_next_pms_schedule resp = "2024-03-31T09:00:00"
    /\ map sh_service_date (service_history d') = ["2024-01-01T09:00:00"].
Proof.
  intros c d req.
  destruct (recording_completion_defaults_to_now iso_parse Sample.uuid Hardware "h-1"
              req Sample.technician Sample.now d)
    as (resp & d' & Hrun & Hresp & _ & ev & Hhist & _ & _ & Hdate & _).
  - exists c. split; [now left | reflexivity].
  - reflexivity.
  - vm_compute. split; [reflexivity | discriminate].
  - right. right. exists "last Tuesday". split; reflexivity.
  - exists resp, d'. split; [exact Hrun|]. split.
    + rewrite Hresp. reflexivity.
    + rewrite Hhist. simpl. now rewrite Hdate.
Defined.

(** Two hardware contracts, one ended yesterday and one ending today, and a
    label contract that is expired already: the first run expires the first
    contract alone, the second run does nothing. *)
Lemma expiry_scan_exact_and_idempotent_witness :
  let hw := [Sample.row "h-1" "1" "active" (Some "2023-12-31T23:59:59") None 1;
             Sample.row "h-2" "2" "active" (Some "2024-01-01T00:00:00") None 2] in
  let lb := [Sample.row "l-1" "1" "expired" (Some "2020-06-30") None 3] in
  let d := Sample.store hw lb in
  let run1 := check_expired_contracts iso_parse Sample.now d in
  let run2 := check_expired_contracts iso_parse Sample.now (fst run1) in
  NoDup (map id hw) /\ NoDup (map id lb)
  /\ map status (hardware_contracts (fst run1)) = ["expired"; "active"]
  /\ marked (snd run1) = ["h-1"]
  /\ fst run2 = fst run1
  /\ snd run2 = mkReport 0 0 [].
Proof.
  intros hw lb d run1 run2.
  assert (Hhw : NoDup (map id hw)) by (subst hw; distinct_ids).
  assert (Hlb : NoDup (map id lb)) by (subst lb; distinct_ids).
  pose proof (expiry_scan_exact_and_idempotent iso_parse Sample.now Sample.now d
                Hhw Hlb eq_refl) as H.
  cbv zeta in H. fold run1 in H. fold run2 in H.
  destruct H as (H1 & _ & _ & _ & _ & _ & _ & Hmarked & Hfst & Hsnd).
  split; [exact Hhw|]. split; [exact Hlb|].
  split; [rewrite H1; reflexivity|].
  split; [rewrite Hmarked; reflexivity|].
  split; [exact Hfst | exact Hsnd].
Defined.

(** * Further properties of the code *)

(** ** Backfilling sequence numbers *)

Lemma in_used_In (n : Z) (used : list Z) : in_used n used = true <-> In n used.
Proof.
  unfold in_used. rewrite existsb_exists. split.
  - intros (x & Hx & E). apply Z.eqb_eq in E. now subst.
  - intros H. exists n. split; [exact H | apply Z.eqb_refl].
Qed.

(** The search stops at the first number from [n] on that is not in use. *)
Lemma next_available_loop_spec (used : list Z) (n : Z) :
  n <= next_available_loop used n
  /\ in_used (next_available_loop used n) used = false
  /\ forall k, n <= k < next_available_loop used n -> in_used k used = true.
Proof.
  funelim (next_available_loop used n).
  - destruct H as (H1 & H2 & H3). split; [lia|]. split; [exact H2|].
    intros k Hk. destruct (Z.eq_dec k n) as [-> | Hne]; [exact Hin|]. apply H3. lia.
  - split; [lia|]. split; [assumption|]. intros k Hk. lia.
Qed.

Lemma next_available_loop_free (used : list Z) (n : Z) :
  ~ In n used -> next_available_loop used n = n.
Proof.
  intros Hfree.
  destruct (next_available_loop_spec used n) as (Hle & _ & Hbelow).
  destruct (Z.eq_dec (next_available_loop used n) n) as [E | Hne]; [exact E|].
  exfalso. apply Hfree. apply in_used_In. apply Hbelow. lia.
Qed.

Lemma unreadable_false (r : contract) :
  unreadable r = false ->
  isdigit (sq_text r) = true -> exists n, py_int (sq_text r) = Some n.
Proof.
  unfold unreadable. intros H Hd. rewrite Hd in H. simpl in H.
  destruct (py_int (sq_text r)) as [n|]; [now exists n | discriminate].
Qed.

(** The first loop returns when [int] reads every number [isdigit]
    accepts, and then holds the numbers read. *)
Lemma used_loop_returns (rows : list contract) :
  forall used : list Z,
  (forall r, In r rows -> unreadable r = false) ->
  exists used',
    used_loop rows used = Return used'
    /\ forall n, In n used'
       <-> In n used
           \/ exists r, In r rows /\ isdigit (sq_text r) = true /\ sq_value r = Some n.
Proof.
  induction rows as [|x rest IH]; intros used Hok; simpl.
  - exists used. split; [reflexivity|]. intros n. split; [now left|].
    intros [H | (r & [] & _)]. exact H.
  - assert (Hrest : forall r, In r rest -> unreadable r = false)
      by (intros r Hr; apply Hok; now right).
    destruct (isdigit (sq_text x)) eqn:E.
    + destruct (unreadable_false x (Hok x (or_introl eq_refl)) E) as (m & Hm). rewrite Hm.
      destruct (IH (m :: used) Hrest) as (used' & Hrun & Hin).
      exists used'. split; [exact Hrun|]. intros n. rewrite Hin. split.
      * intros [[<- | H] | (r & Hr & Hd & Hv)].
        -- right. exists x. split; [now left|]. split; [exact E | exact Hm].
        -- now left.
        -- right. exists r. split; [now right|]. now split.
      * intros [H | (r & [<- | Hr] & Hd & Hv)].
        -- left. now right.
        -- left. left. change (sq_value x) with (py_int (sq_text x)) in Hv. congruence.
        -- right. exists r. now split.
    + destruct (IH used Hrest) as (used' & Hrun & Hin).
      exists used'. split; [exact Hrun|]. intros n. rewrite Hin. split.
      * intros [H | (r & Hr & Hd & Hv)]; [now left|].
        right. exists r. split; [now right|]. now split.
      * intros [H | (r & [<- | Hr] & Hd & Hv)]; [now left|congruence|].
        right. exists r. now split.
Qed.

(** It raises [ValueError] at the first number [int] cannot read. *)
Lemma used_loop_raises (rows : list contract) :
  forall used : list Z,
  (exists r, In r rows /\ unreadable r = true) ->
  used_loop rows used = Raise ValueError.
Proof.
  induction rows as [|x rest IH]; intros used (r & Hr & Hbad); [destruct Hr|].
  simpl. destruct (unreadable x) eqn:Ex.
  - unfold unreadable in Ex. apply andb_true_iff in Ex. destruct Ex as [Hd Hi].
    rewrite Hd. now destruct (py_int (sq_text x)).
  - assert (Hrest : exists r, In r rest /\ unreadable r = true).
    { destruct Hr as [<- | Hr]; [congruence | now exists r]. }
    destruct (isdigit (sq_text x)) eqn:Hd; [|now apply IH].
    destruct (unreadable_false x Ex Hd) as (m & ->). now apply IH.
Qed.

(** The numbers handed out increase, start at [next_n] and avoid [used]. *)
Lemma handed_out_spec (rows : list contract) :
  forall (used : list Z) (next_n : Z),
  StronglySorted Z.lt (handed_out rows used next_n)
  /\ forall n, In n (handed_out rows used next_n) -> next_n <= n /\ ~ In n used.
Proof.
  induction rows as [|x rest IH]; intros used next_n; simpl.
  - split; [constructor | intros n []].
  - destruct (isdigit (sq_text x)); simpl; [apply IH|].
    destruct (next_available_loop_spec used next_n) as (Hle & Hfree & _).
    set (m := next_available_loop used next_n) in *.
    destruct (IH (m :: used) (m + 1)) as [Hs Hin].
    split.
    + constructor; [exact Hs|]. apply Forall_forall. intros n Hn. apply Hin in Hn. lia.
    + intros n [<- | Hn].
      * split; [lia|]. intros Hc. apply in_used_In in Hc. congruence.
      * apply Hin in Hn. destruct Hn as [Hn1 Hn2]. split; [lia|].
        intros Hc. apply Hn2. now right.
Qed.

Lemma handed_out_length (rows : list contract) :
  forall (used : list Z) (next_n : Z),
  List.length (handed_out rows used next_n)
  = List.length (filter (fun r => negb (isdigit (sq_text r))) rows).
Proof.
  induction rows as [|x rest IH]; intros used next_n; simpl; [reflexivity|].
  destruct (isdigit (sq_text x)); simpl; [apply IH|]. f_equal. apply IH.
Qed.

(** The second loop acts on the table row by row. *)
Lemma backfill_loop_map (rows : list contract) :
  forall (used : list Z) (next_n : Z) (table : list contract) (updates : Z),
  backfill_loop rows used next_n table updates
  = (map (backfill_row rows used next_n) table,
     updates + Z.of_nat (List.length (handed_out rows used next_n))).
Proof.
  induction rows as [|x rest IH]; intros used next_n table updates; simpl.
  - rewrite map_id. f_equal. lia.
  - destruct (isdigit (sq_text x)); simpl; [apply IH|].
    rewrite IH. unfold update_eq_id. rewrite map_map. f_equal. lia.
Qed.

Lemma backfill_row_id (rows : list contract) :
  forall (used : list Z) (next_n : Z) (r : contract),
  id (backfill_row rows used next_n r) = id r
  /\ created_at (backfill_row rows used next_n r) = created_at r.
Proof.
  induction rows as [|x rest IH]; intros used next_n r; simpl; [auto|].
  destruct (isdigit (sq_text x)); simpl; [apply IH|].
  destruct (IH (next_available_loop used next_n :: used)
              (next_available_loop used next_n + 1)
              (if String.eqb (id r) (id x)
               then set_sq (py_str (next_available_loop used next_n)) r else r))
    as [H1 H2].
  rewrite H1, H2. now destruct (String.eqb (id r) (id x)).
Qed.

Lemma backfill_row_other (rows : list contract) :
  forall (used : list Z) (next_n : Z) (r : contract),
  ~ In (id r) (map id rows) -> backfill_row rows used next_n r = r.
Proof.
  induction rows as [|x rest IH]; intros used next_n r Hnin; simpl; [reflexivity|].
  simpl in Hnin.
  destruct (isdigit (sq_text x)); simpl; [apply IH; auto|].
  destruct (String.eqb_spec (id r) (id x)) as [E | E]; [exfalso; auto|].
  apply IH. auto.
Qed.

(** Over rows with distinct ids: a row that carries a number is kept, any
    other gets one of the numbers handed out. *)
Lemma backfill_row_in (rows : list contract) :
  forall (used : list Z) (next_n : Z) (r : contract),
  NoDup (map id rows) -> In r rows ->
  if isdigit (sq_text r) then backfill_row rows used next_n r = r
  else exists n, In n (handed_out rows used next_n)
       /\ backfill_row rows used next_n r = set_sq (py_str n) r.
Proof.
  induction rows as [|x rest IH]; intros used next_n r Hnd Hin; [destruct Hin|].
  inversion Hnd as [|? ? Hnin Hnd']; subst.
  destruct Hin as [<- | Hin].
  - simpl. destruct (isdigit (sq_text x)) eqn:E; simpl.
    + now apply backfill_row_other.
    + rewrite String.eqb_refl.
      exists (next_available_loop used next_n). split; [now left|].
      apply backfill_row_other. now rewrite id_set_sq.
  - assert (Hne : String.eqb (id r) (id x) = false).
    { apply String.eqb_neq. intros E. apply Hnin. rewrite <- E. now apply in_map. }
    simpl. destruct (isdigit (sq_text x)) eqn:Ex; simpl.
    + now apply IH.
    + rewrite Hne.
      specialize (IH (next_available_loop used next_n :: used)
                    (next_available_loop used next_n + 1) r Hnd' Hin).
      destruct (isdigit (sq_text r)); [exact IH|].
      destruct IH as (n & Hn & En). exists n. split; [now right | exact En].
Qed.

(** The rows without a number get the numbers handed out, in order. *)
Lemma backfill_row_handed_out (rows : list contract) :
  forall (used : list Z) (next_n : Z),
  NoDup (map id rows) ->
  map (fun x => sq (backfill_row rows used next_n x))
    (filter (fun x => negb (isdigit (sq_text x))) rows)
  = map (fun n => Some (py_str n)) (handed_out rows used next_n).
Proof.
  induction rows as [|x rest IH]; intros used next_n Hnd; [reflexivity|].
  inversion Hnd as [|? ? Hnin Hnd']; subst.
  cbn [filter handed_out backfill_row]. destruct (isdigit (sq_text x)) eqn:E; cbn [negb].
  - now apply IH.
  - unfold next_available. cbn [map]. f_equal.
    + rewrite String.eqb_refl. rewrite backfill_row_other by (now rewrite id_set_sq).
      reflexivity.
    + rewrite <- IH by exact Hnd'. apply map_ext_in. intros r Hr.
      apply filter_In in Hr. destruct Hr as [Hr _].
      assert (Hne : String.eqb (id r) (id x) = false).
      { apply String.eqb_neq. intros Ee. apply Hnin. rewrite <- Ee. now apply in_map. }
      now rewrite Hne.
Qed.

Lemma sq_text_set_sq (n : Z) (r : contract) : sq_text (set_sq (py_str n) r) = py_str n.
Proof. unfold sq_text. simpl. apply strip_py_str. Qed.

Lemma sq_value_set_sq (n : Z) (r : contract) : sq_value (set_sq (py_str n) r) = Some n.
Proof.
  change (sq_value (set_sq (py_str n) r)) with (py_int (sq_text (set_sq (py_str n) r))).
  rewrite sq_text_set_sq. apply py_int_py_str.
Qed.

(** A table where every row carries a number is left alone. *)
Lemma backfill_loop_numbered (rows : list contract) :
  forall (used : list Z) (next_n : Z) (table : list contract) (updates : Z),
  (forall r, In r rows -> isdigit (sq_text r) = true) ->
  backfill_loop rows used next_n table updates = (table, updates).
Proof.
  induction rows as [|x rest IH]; intros used next_n table updates Hall; simpl; [reflexivity|].
  rewrite (Hall x (or_introl eq_refl)). simpl. apply IH. intros r Hr. apply Hall. now right.
Qed.

Lemma backfill_numbered (table : list contract) :
  (forall r, In r table -> isdigit (sq_text r) = true) ->
  (forall r, In r table -> unreadable r = false) ->
  _backfill_sq_for_table table
  = Return (table, mkBackfill 0 (Z.of_nat (List.length table))).
Proof.
  intros Hall Hok. unfold _backfill_sq_for_table.
  pose proof (order_by_created_at_perm false table) as Hperm.
  destruct (used_loop_returns (order_by_created_at false table) []) as (used & Hrun & _).
  { intros r Hr. apply Hok. now apply (Permutation_in _ Hperm). }
  rewrite Hrun. cbn [rbind].
  rewrite backfill_loop_numbered.
  - now rewrite (Permutation_length Hperm).
  - intros r Hr. apply Hall. now apply (Permutation_in _ Hperm).
Qed.

Lemma filter_Permutation {A : Type} (p : A -> bool) (l l' : list A) :
  Permutation l l' -> Permutation (filter p l) (filter p l').
Proof.
  induction 1 as [|x l l' _ IH|x y l|l l' l'' _ IH1 _ IH2]; simpl.
  - constructor.
  - destruct (p x); [now constructor | exact IH].
  - destruct (p x), (p y); try reflexivity. apply perm_swap.
  - now transitivity (filter p l').
Qed.

(** What a run makes of a table with a primary key, when [int] reads every
    number on it that [isdigit] accepts. *)
Lemma backfill_table (table : list contract) :
  NoDup (map id table) ->
  (forall r, In r table -> unreadable r = false) ->
  exists used : list Z,
    let rows := order_by_created_at false table in
    let f := backfill_row rows used 1 in
    (forall n, In n used
       <-> exists r, In r table /\ isdigit (sq_text r) = true /\ sq_value r = Some n)
    /\ _backfill_sq_for_table table
       = Return (map f table,
                 mkBackfill
                   (Z.of_nat (List.length
                      (filter (fun r => negb (isdigit (sq_text r))) table)))
                   (Z.of_nat (List.length table)))
    /\ NoDup (map id rows)
    /\ forall r, In r table ->
       if isdigit (sq_text r) then f r = r
       else exists n, In n (handed_out rows used 1) /\ f r = set_sq (py_str n) r.
Proof.
  intros Hnd Hok.
  pose proof (order_by_created_at_perm false table) as Hperm.
  set (rows := order_by_created_at false table) in *.
  assert (Hndr : NoDup (map id rows)).
  { apply (Permutation_NoDup (l := map id table)); [|exact Hnd].
    apply Permutation_map. now symmetry. }
  destruct (used_loop_returns rows []) as (used & Hrun & Hused).
  { intros r Hr. apply Hok. now apply (Permutation_in _ Hperm). }
  exists used. cbv zeta. fold rows. split; [|split; [|split]].
  - intros n. rewrite Hused. split.
    + intros [[] | (r & Hr & H)]. exists r. split; [|exact H].
      now apply (Permutation_in _ Hperm).
    + intros (r & Hr & H). right. exists r. split; [|exact H].
      now apply (Permutation_in _ (Permutation_sym Hperm)).
  - unfold _backfill_sq_for_table. fold rows. rewrite Hrun. cbn [rbind].
    rewrite backfill_loop_map. rewrite handed_out_length.
    rewrite (Permutation_length Hperm).
    assert (Hlen : List.length (filter (fun r => negb (isdigit (sq_text r))) rows)
                   = List.length (filter (fun r => negb (isdigit (sq_text r))) table)).
    { apply Permutation_length. now apply filter_Permutation. }
    rewrite Hlen. reflexivity.
  - exact Hndr.
  - intros r Hr. apply backfill_row_in; [exact Hndr|].
    now apply (Permutation_in _ (Permutation_sym Hperm)).
Qed.

(** One number [int] cannot read, and the run ends with nothing written. *)
Lemma backfill_fails (cls : contract_class) (d : db) :
  (exists r, In r (table_of cls d) /\ unreadable r = true) ->
  backfill_sq cls d = (Raise (backfill_failure cls), d).
Proof.
  intros (r & Hr & Hbad).
  pose proof (order_by_created_at_perm false (table_of cls d)) as Hperm.
  unfold backfill_sq, _backfill_sq_for_table.
  rewrite (used_loop_raises (order_by_created_at false (table_of cls d)) []).
  - reflexivity.
  - exists r. split; [|exact Hbad].
    now apply (Permutation_in _ (Permutation_sym Hperm)).
Qed.

Lemma backfill_return_inv (cls : contract_class) (d d' : db) (report : backfill_report) :
  backfill_sq cls d = (Return report, d') ->
  forall r, In r (table_of cls d) -> unreadable r = false.
Proof.
  intros Hrun r Hr. destruct (unreadable r) eqn:E; [|reflexivity].
  rewrite (backfill_fails cls d) in Hrun by (now exists r). discriminate.
Qed.

Lemma table_of_with_table (cls : contract_class) (rows : list contract) (d : db) :
  table_of cls (with_table cls rows d) = rows.
Proof. now destruct cls. Qed.

Lemma with_table_with_table (cls : contract_class) (rows rows' : list contract) (d : db) :
  with_table cls rows (with_table cls rows' d) = with_table cls rows d.
Proof. now destruct cls. Qed.

Lemma Forall2_map_r {A B : Type} (P : A -> B -> Prop) (f : A -> B) (l : list A) :
  (forall a, In a l -> P a (f a)) -> Forall2 P l (map f l).
Proof.
  induction l as [|x l IH]; intros H; simpl; constructor.
  - apply H. now left.
  - apply IH. intros a Ha. apply H. now right.
Qed.

Lemma NoDup_map_injective {A B : Type} (g : A -> B) (l : list A) (a b : A) :
  NoDup (map g l) -> In a l -> In b l -> g a = g b -> a = b.
Proof.
  induction l as [|x l IH]; intros Hnd Ha Hb E; [destruct Ha|].
  simpl in Hnd. inversion Hnd as [|? ? Hnin Hnd']; subst.
  destruct Ha as [<- | Ha], Hb as [<- | Hb]; try reflexivity.
  - exfalso. apply Hnin. rewrite E. now apply in_map.
  - exfalso. apply Hnin. rewrite <- E. now apply in_map.
  - now apply IH.
Qed.

Lemma StronglySorted_lt_NoDup (l : list Z) : StronglySorted Z.lt l -> NoDup l.
Proof.
  induction 1 as [|x l _ IH Hall]; constructor; [|exact IH].
  intros Hin. rewrite Forall_forall in Hall. specialize (Hall x Hin). lia.
Qed.



(** X2. The numbers a backfill hands out are new: a contract it rewrote
    never carries the number of a contract that was numbered before. When
    the numbers in use were distinct, so are all the numbers of the class
    afterwards. *)
Theorem backfill_numbers_are_new_and_distinct
    (cls : contract_class) (d d' : db) (report : backfill_report) :
  NoDup (map id (table_of cls d)) ->
  backfill_sq cls d = (Return report, d') ->
  (forall r r', In r (table_of cls d) -> isdigit (sq_text r) = true ->
     In r' (table_of cls d') -> ~ In r' (table_of cls d) ->
     sq_value r' <> sq_value r)
  /\ (NoDup (map sq_value (filter (fun r => isdigit (sq_text r)) (table_of cls d))) ->
      NoDup (map sq_value (table_of cls d'))).
Proof.
  intros Hnd Hrun.
  pose proof (backfill_return_inv cls d d' report Hrun) as Hok.
  destruct (backfill_table (table_of cls d) Hnd Hok)
    as (used & Hused & Hret & Hndr & Hrows).
  cbv zeta in Hret, Hrows, Hndr.
  set (rows := order_by_created_at false (table_of cls d)) in *.
  set (f := backfill_row rows used 1) in *.
  unfold backfill_sq in Hrun. rewrite Hret in Hrun. injection Hrun as _ <-.
  rewrite table_of_with_table.
  pose proof (order_by_created_at_perm false (table_of cls d)) as Hperm. fold rows in Hperm.
  destruct (handed_out_spec rows used 1) as [Hsorted Hfresh].
  (* a numbered row carries a number in use *)
  assert (Hnum : forall r, In r (table_of cls d) -> isdigit (sq_text r) = true ->
            exists m, sq_value r = Some m /\ In m used).
  { intros r Hr Hd. destruct (unreadable_false r (Hok r Hr) Hd) as (m & Hm).
    exists m. split; [exact Hm|]. apply Hused. exists r. now repeat split. }
  (* any other row gets a number handed out *)
  assert (Hnew : forall r, In r (table_of cls d) -> isdigit (sq_text r) = false ->
            exists n, sq_value (f r) = Some n /\ ~ In n used
                      /\ sq (f r) = Some (py_str n)).
  { intros r Hr Hd. specialize (Hrows r Hr). rewrite Hd in Hrows.
    destruct Hrows as (n & Hn & E). exists n. rewrite E.
    split; [apply sq_value_set_sq|]. split; [now apply Hfresh | reflexivity]. }
  split.
  - intros r r' Hr Hd Hr' Hold E.
    apply in_map_iff in Hr'. destruct Hr' as (r0 & <- & Hr0).
    destruct (isdigit (sq_text r0)) eqn:E0.
    + specialize (Hrows r0 Hr0). rewrite E0 in Hrows. rewrite Hrows in Hold. now apply Hold.
    + destruct (Hnew r0 Hr0 E0) as (n & Hn & Hfree & _).
      destruct (Hnum r Hr Hd) as (m & Hm & Hin).
      rewrite Hn, Hm in E. injection E as ->. now apply Hfree.
  - intros Hdistinct. rewrite map_map.
    apply NoDup_map_NoDup_ForallPairs;
      [|apply (NoDup_map_inv id); exact Hnd].
    intros a b Ha Hb E.
    destruct (isdigit (sq_text a)) eqn:Ea, (isdigit (sq_text b)) eqn:Eb.
    + pose proof (Hrows a Ha) as Ha'. pose proof (Hrows b Hb) as Hb'.
      rewrite Ea in Ha'. rewrite Eb in Hb'. rewrite Ha', Hb' in E.
      apply (NoDup_map_injective sq_value
               (filter (fun r => isdigit (sq_text r)) (table_of cls d)));
        try assumption; apply filter_In; now split.
    + exfalso. pose proof (Hrows a Ha) as Ha'. rewrite Ea in Ha'. rewrite Ha' in E.
      destruct (Hnum a Ha Ea) as (m & Hm & Hin).
      destruct (Hnew b Hb Eb) as (n & Hn & Hfree & _).
      rewrite Hm, Hn in E. injection E as ->. now apply Hfree.
    + exfalso. pose proof (Hrows b Hb) as Hb'. rewrite Eb in Hb'. rewrite Hb' in E.
      destruct (Hnum b Hb Eb) as (m & Hm & Hin).
      destruct (Hnew a Ha Ea) as (n & Hn & Hfree & _).
      rewrite Hm, Hn in E. injection E as ->. now apply Hfree.
    + destruct (Hnew a Ha Ea) as (na & Hna & _ & Hsa).
      destruct (Hnew b Hb Eb) as (nb & Hnb & _ & Hsb).
      rewrite Hna, Hnb in E. injection E as ->.
      apply (NoDup_map_injective (fun x => sq (f x))
               (filter (fun x => negb (isdigit (sq_text x))) rows)).
      * unfold f. rewrite backfill_row_handed_out by exact Hndr.
        apply NoDup_map_NoDup_ForallPairs; [|now apply StronglySorted_lt_NoDup].
        intros x y _ _ Exy. injection Exy as Exy. now apply py_str_inj.
      * apply filter_In. split; [|now rewrite Ea].
        now apply (Permutation_in _ (Permutation_sym Hperm)).
      * apply filter_In. split; [|now rewrite Eb].
        now apply (Permutation_in _ (Permutation_sym Hperm)).
      * now rewrite Hsa, Hsb.
Qed.

(** Contract [a] holds number 2; [b] and [c] get 1 and 3. *)
Lemma backfill_numbers_are_new_and_distinct_witness :
  let hw := [Sample.row "a" "2" "active" None None 10;
             mkContract "b" None "Acme Foods" "ZT411" "SN-0002" None None None
               "active" None None None 20 "";
             Sample.row "c" "x-1" "active" None None 30] in
  let run := backfill_hardware_sq (Sample.store hw []) in
  NoDup (map id hw)
  /\ map sq (hardware_contracts (snd run)) = [Some "2"; Some "1"; Some "3"]
  /\ NoDup (map sq_value (hardware_contracts (snd run))).
Proof.
  intros hw run.
  assert (Hnd : NoDup (map id hw)) by (subst hw; distinct_ids).
  split; [exact Hnd|]. split; [reflexivity|].
  destruct run as [[report|e] d'] eqn:E; [|vm_compute in E; discriminate].
  apply (backfill_numbers_are_new_and_distinct Hardware (Sample.store hw []) d' report
           Hnd E).
  repeat constructor; simpl; intuition discriminate.
Defined.

(** X3. A backfill that has run leaves nothing to do: run again on the store
    it returned, it numbers no contract, reports zero updates and the same
    total, and returns that store unchanged. *)
Theorem backfill_again_changes_nothing
    (cls : contract_class) (d d' : db) (report : backfill_report) :
  NoDup (map id (table_of cls d)) ->
  backfill_sq cls d = (Return report, d') ->
  backfill_sq cls d' = (Return (mkBackfill 0 (total report)), d').
Proof.
  intros Hnd Hrun.
  pose proof (backfill_return_inv cls d d' report Hrun) as Hok.
  destruct (backfill_table (table_of cls d) Hnd Hok) as (used & _ & Hret & _ & Hrows).
  cbv zeta in Hret, Hrows.
  set (f := backfill_row (order_by_created_at false (table_of cls d)) used 1) in *.
  unfold backfill_sq in Hrun. rewrite Hret in Hrun. injection Hrun as <- <-.
  unfold backfill_sq. rewrite table_of_with_table.
  rewrite backfill_numbered.
  - rewrite with_table_with_table. now rewrite length_map.
  - intros r' Hr'. apply in_map_iff in Hr'. destruct Hr' as (r & <- & Hr).
    specialize (Hrows r Hr). destruct (isdigit (sq_text r)) eqn:E.
    + now rewrite Hrows.
    + destruct Hrows as (n & Hn & ->). rewrite sq_text_set_sq. apply isdigit_py_str.
      apply (handed_out_spec _ used 1) in Hn. lia.
  - intros r' Hr'. apply in_map_iff in Hr'. destruct Hr' as (r & <- & Hr).
    specialize (Hrows r Hr). destruct (isdigit (sq_text r)) eqn:E.
    + rewrite Hrows. now apply Hok.
    + destruct Hrows as (n & Hn & ->). unfold unreadable.
      rewrite sq_text_set_sq, py_int_py_str. apply andb_false_r.
Qed.

Lemma backfill_again_changes_nothing_witness :
  let hw := [Sample.row "a" "2" "active" None None 10;
             mkContract "b" None "Acme Foods" "ZT411" "SN-0002" None None None
               "active" None None None 20 "";
             Sample.row "c" "x-1" "active" None None 30] in
  let run := backfill_hardware_sq (Sample.store hw []) in
  NoDup (map id hw)
  /\ fst run = Return (mkBackfill 2 3)
  /\ backfill_hardware_sq (snd run) = (Return (mkBackfill 0 3), snd run).
Proof.
  intros hw run.
  assert (Hnd : NoDup (map id hw)) by (subst hw; distinct_ids).
  split; [exact Hnd|]. split; [reflexivity|].
  exact (backfill_again_changes_nothing Hardware (Sample.store hw []) (snd run)
           (mkBackfill 2 3) Hnd eq_refl).
Defined.

(** With no number in use and all numbers below [next_n] taken, the second
    loop is the resequencing loop. *)
Lemma backfill_loop_unnumbered (rows : list contract) :
  forall (used : list Z) (next_n : Z) (table : list contract) (updates : Z),
  (forall r, In r rows -> isdigit (sq_text r) = false) ->
  (forall m, In m used -> m < next_n) ->
  backfill_loop rows used next_n table updates
  = (resequence_loop next_n rows table, updates + Z.of_nat (List.length rows)).
Proof.
  induction rows as [|x rest IH]; intros used next_n table updates Hall Hused.
  - simpl. f_equal. lia.
  - cbn [backfill_loop resequence_loop]. rewrite (Hall x (or_introl eq_refl)). cbn [negb].
    unfold next_available.
    rewrite next_available_loop_free
      by (intros Hin; specialize (Hused _ Hin); lia).
    rewrite IH.
    + f_equal. cbn [List.length]. lia.
    + intros r Hr. apply Hall. now right.
    + intros m [<- | Hm]; [lia|]. specialize (Hused m Hm). lia.
Qed.

(** X4. On a class where no contract carries a number, backfilling and
    resequencing are the same operation: both number the contracts 1, 2, ...
    in creation order, and the backfill reports every contract as updated. *)
Theorem backfill_unnumbered_is_resequence (cls : contract_class) (d : db) :
  (forall r, In r (table_of cls d) -> isdigit (sq_text r) = false) ->
  let n := Z.of_nat (List.length (table_of cls d)) in
  backfill_sq cls d
  = (Return (mkBackfill n n),
     fst (match cls with
          | Hardware => resequence_hardware_sq d
          | Label => resequence_label_sq d
          end)).
Proof.
  intros Hall n.
  pose proof (order_by_created_at_perm false (table_of cls d)) as Hperm.
  destruct (used_loop_returns (order_by_created_at false (table_of cls d)) [])
    as (used & Hrun & Hused).
  { intros r Hr. unfold unreadable.
    now rewrite (Hall r (Permutation_in _ Hperm Hr)). }
  assert (Hrows : forall r, In r (order_by_created_at false (table_of cls d)) ->
            isdigit (sq_text r) = false).
  { intros r Hr. apply Hall. now apply (Permutation_in _ Hperm). }
  assert (Hempty : forall m, In m used -> m < 1).
  { intros m Hm. apply Hused in Hm. destruct Hm as [[] | (r & Hr & Hd & _)].
    rewrite (Hrows r Hr) in Hd. discriminate. }
  unfold backfill_sq, _backfill_sq_for_table. rewrite Hrun. cbn [rbind].
  rewrite (backfill_loop_unnumbered _ used 1 _ 0 Hrows Hempty).
  rewrite (Permutation_length Hperm). fold n.
  replace (0 + n) with n by lia.
  now destruct cls.
Qed.

(** Two label contracts, one blank and one lettered: numbered 2 and 1 by
    age, as a resequencing would. *)
Lemma backfill_unnumbered_is_resequence_witness :
  let lb := [mkContract "p" None "Acme Foods" "LBL-4x6" "SN-0007" None None None
               "active" None None None 20 "";
             Sample.row "q" "LB001" "active" None None 10] in
  let d := Sample.store [] lb in
  (forall r, In r (label_contracts d) -> isdigit (sq_text r) = false)
  /\ backfill_label_sq d = (Return (mkBackfill 2 2), fst (resequence_label_sq d))
  /\ map sq (label_contracts (snd (backfill_label_sq d))) = [Some "2"; Some "1"].
Proof.
  intros lb d.
  assert (H : forall r, In r (table_of Label d) -> isdigit (sq_text r) = false).
  { intros r [<- | [<- | []]]; reflexivity. }
  split; [exact H|].
  split; [exact (backfill_unnumbered_is_resequence Label d H) | reflexivity].
Defined.

(** X5. After a resequencing every contract of the class carries a number,
    so a backfill that follows finds nothing to do: it reports zero updates
    and returns the store as the resequencing left it. *)
Theorem backfill_after_resequence_changes_nothing (d : db) :
  (NoDup (map id (hardware_contracts d)) ->
   let d' := fst (resequence_hardware_sq d) in
   backfill_hardware_sq d'
   = (Return (mkBackfill 0 (Z.of_nat (List.length (hardware_contracts d)))), d'))
  /\ (NoDup (map id (label_contracts d)) ->
      let d' := fst (resequence_label_sq d) in
      backfill_label_sq d'
      = (Return (mkBackfill 0 (Z.of_nat (List.length (label_contracts d)))), d')).
Proof.
  assert (Hgen : forall table : list contract,
    NoDup (map id table) ->
    let table' := resequence_loop 1 (order_by_created_at false table) table in
    _backfill_sq_for_table table'
    = Return (table', mkBackfill 0 (Z.of_nat (List.length table)))).
  { intros table Hnd table'.
    destruct (resequence_table table Hnd) as (_ & Hperm & Hid & _). fold table' in Hperm, Hid.
    assert (Hlen : List.length table' = List.length table).
    { rewrite <- (length_map id table'), Hid. apply length_map. }
    assert (Hnum : forall r, In r table' ->
              exists i, 1 <= i /\ sq_text r = py_str i).
    { intros r Hr.
      assert (Hsq : In (sq r) (dense_sqs (List.length table))).
      { apply (Permutation_in _ Hperm). now apply in_map. }
      apply dense_sqs_In in Hsq. destruct Hsq as (i & Hi & Hsq).
      exists i. split; [lia|]. unfold sq_text. rewrite Hsq. apply strip_py_str. }
    rewrite <- Hlen. apply backfill_numbered.
    - intros r Hr. destruct (Hnum r Hr) as (i & Hi & ->). apply isdigit_py_str. lia.
    - intros r Hr. destruct (Hnum r Hr) as (i & Hi & E). unfold unreadable.
      rewrite E, py_int_py_str. apply andb_false_r. }
  split; intros Hnd d'; subst d'.
  - unfold backfill_hardware_sq, backfill_sq, resequence_hardware_sq.
    cbn [fst table_of hardware_contracts]. rewrite (Hgen _ Hnd). reflexivity.
  - unfold backfill_label_sq, backfill_sq, resequence_label_sq.
    cbn [fst table_of label_contracts]. rewrite (Hgen _ Hnd). reflexivity.
Qed.

Lemma backfill_after_resequence_changes_nothing_witness :
  let hw := [Sample.row "a" "7" "active" None None 30;
             Sample.row "b" "x" "active" None None 10] in
  let d' := fst (resequence_hardware_sq (Sample.store hw [])) in
  NoDup (map id hw)
  /\ backfill_hardware_sq d' = (Return (mkBackfill 0 2), d').
Proof.
  intros hw d'.
  assert (Hnd : NoDup (map id hw)) by (subst hw; distinct_ids).
  split; [exact Hnd|].
  destruct (backfill_after_resequence_changes_nothing (Sample.store hw [])) as [H _].
  exact (H Hnd).
Defined.

(** ** Resequencing, then numbering the next contract *)

Lemma StronglySorted_app_last {A : Type} (R : A -> A -> Prop) (l : list A) (z : A) :
  StronglySorted R (l ++ [z]) -> forall x, In x l -> R x z.
Proof.
  induction l as [|y l IH]; intros Hs x Hx; [destruct Hx|].
  simpl in Hs. inversion Hs as [|? ? Hrest Hall]; subst.
  destruct Hx as [<- | Hx].
  - rewrite Forall_forall in Hall. apply Hall. apply in_or_app. right. now left.
  - now apply IH.
Qed.

Lemma dense_sqs_succ (n : nat) :
  dense_sqs (S n) = (dense_sqs n ++ [Some (py_str (Z.of_nat (S n)))])%list.
Proof. unfold dense_sqs. rewrite seq_S, map_app. reflexivity. Qed.

(** After a resequencing of rows created at distinct instants, the row
    created last carries the highest number. *)
Lemma resequence_latest (table : list contract) :
  NoDup (map id table) ->
  NoDup (map created_at table) ->
  let table' := resequence_loop 1 (order_by_created_at false table) table in
  _get_next_sq table' = py_str (Z.of_nat (List.length table) + 1)
  /\ forall r, In r table' ->
     exists m, sq_value r = Some m /\ 1 <= m < Z.of_nat (List.length table) + 1.
Proof.
  intros Hnd Hndc table'.
  destruct (resequence_table table Hnd) as (Hord & Hperm & Hid & Hcr).
  fold table' in Hord, Hperm, Hid, Hcr.
  assert (Hall : forall r, In r table' ->
            exists m, sq r = Some (py_str m) /\ 1 <= m <= Z.of_nat (List.length table)).
  { intros r Hr.
    assert (Hsq : In (sq r) (dense_sqs (List.length table))).
    { apply (Permutation_in _ Hperm). now apply in_map. }
    apply dense_sqs_In in Hsq. destruct Hsq as (i & Hi & Hsq). now exists i. }
  assert (Hval : forall r m, sq r = Some (py_str m) -> sq_value r = Some m).
  { intros r m Hsq. unfold sq_value. rewrite Hsq, strip_py_str. apply py_int_py_str. }
  split.
  - unfold _get_next_sq.
    destruct (order_by_created_at true table') as [|last rest] eqn:Edesc.
    + (* no contract at all *)
      pose proof (Permutation_length (order_by_created_at_perm true table')) as Hlen.
      rewrite Edesc in Hlen. simpl in Hlen.
      assert (Hlen' : List.length table' = List.length table).
      { rewrite <- (length_map id table'), Hid. apply length_map. }
      rewrite <- Hlen', <- Hlen. reflexivity.
    + cbn [firstn].
      destruct (latest_created table' last rest Edesc) as [Hin Hmax].
      pose proof (order_by_created_at_perm false table') as Hpasc.
      pose proof (order_by_created_at_sorted false table') as Hsasc. cbn iota in Hsasc.
      assert (Hne : order_by_created_at false table' <> []).
      { intros E. rewrite E in Hpasc. apply Permutation_nil in Hpasc.
        rewrite Hpasc in Hin. destruct Hin. }
      destruct (exists_last Hne) as (l & z & Easc).
      rewrite Easc in Hord, Hpasc, Hsasc.
      destruct (List.length table) as [|n] eqn:En.
      { unfold dense_sqs in Hord. simpl in Hord. now destruct l. }
      rewrite dense_sqs_succ, map_app in Hord. simpl in Hord.
      apply app_inj_tail in Hord. destruct Hord as [_ Hz].
      assert (Hzin : In z table').
      { apply (Permutation_in _ Hpasc). apply in_or_app. right. now left. }
      assert (Elast : last = z).
      { assert (Hl : In last (l ++ [z])).
        { now apply (Permutation_in _ (Permutation_sym Hpasc)). }
        apply in_app_or in Hl. destruct Hl as [Hl | [Hl | []]]; [|now symmetry].
        pose proof (StronglySorted_app_last _ l z Hsasc last Hl) as Hle.
        cbn beta iota in Hle. specialize (Hmax z Hzin).
        apply (NoDup_map_injective created_at table'); try assumption; [|lia].
        now rewrite Hcr. }
      subst z. rewrite Hz, strip_py_str, py_int_py_str. reflexivity.
  - intros r Hr. destruct (Hall r Hr) as (m & Hsq & Hm).
    exists m. split; [now apply Hval | lia].
Qed.

(** X6. After a resequencing of a class whose N contracts have distinct ids
    and were created at distinct instants, the next automatic sequence
    number is N + 1, above every number the class holds. *)
Theorem next_sq_after_resequence (d : db) :
  (NoDup (map id (hardware_contracts d)) ->
   NoDup (map created_at (hardware_contracts d)) ->
   let table' := hardware_contracts (fst (resequence_hardware_sq d)) in
   let n := Z.of_nat (List.length (hardware_contracts d)) in
   _get_next_sq table' = py_str (n + 1)
   /\ forall r, In r table' -> exists m, sq_value r = Some m /\ 1 <= m < n + 1)
  /\ (NoDup (map id (label_contracts d)) ->
      NoDup (map created_at (label_contracts d)) ->
      let table' := label_contracts (fst (resequence_label_sq d)) in
      let n := Z.of_nat (List.length (label_contracts d)) in
      _get_next_sq table' = py_str (n + 1)
      /\ forall r, In r table' -> exists m, sq_value r = Some m /\ 1 <= m < n + 1).
Proof.
  split; intros Hnd Hndc; exact (resequence_latest _ Hnd Hndc).
Qed.

(** Contracts numbered 10 and 3: after a resequencing the next number is 3,
    not 4. *)
Lemma next_sq_after_resequence_witness :
  let hw := [Sample.row "a" "10" "active" None None 10;
             Sample.row "b" "3" "active" None None 20] in
  let d := Sample.store hw [] in
  NoDup (map id hw) /\ NoDup (map created_at hw)
  /\ _get_next_sq hw = "4"
  /\ _get_next_sq (hardware_contracts (fst (resequence_hardware_sq d))) = "3".
Proof.
  intros hw d.
  assert (Hnd : NoDup (map id hw)) by (subst hw; distinct_ids).
  assert (Hndc : NoDup (map created_at hw)).
  { subst hw. repeat (constructor; [simpl; intuition lia|]). constructor. }
  split; [exact Hnd|]. split; [exact Hndc|]. split; [reflexivity|].
  destruct (next_sq_after_resequence d) as [H _].
  destruct (H Hnd Hndc) as [Hnext _]. exact Hnext.
Defined.

(** ** Who may call what *)

Lemma get_current_user_return (uid : string) (d : db) (u : user) :
  get_current_user uid d = Return u ->
  In u (users d) /\ user_id u = uid /\ In (role u) UserRole.
Proof.
  unfold get_current_user.
  destruct (filter (fun u => String.eqb (user_id u) uid) (users d)) as [|x rest] eqn:E;
    [discriminate|].
  unfold User. destruct (existsb (String.eqb (role x)) UserRole) eqn:Erole; [|discriminate].
  intros H. injection H as <-.
  assert (Hin : In x (filter (fun u => String.eqb (user_id u) uid) (users d))).
  { rewrite E. now left. }
  apply filter_In in Hin. destruct Hin as [Hin Hid].
  split; [exact Hin|]. split; [now apply String.eqb_eq|].
  apply existsb_exists in Erole. destruct Erole as (r & Hr & Er).
  apply String.eqb_eq in Er. now rewrite Er.
Qed.

Lemma get_current_user_raise (uid : string) (d : db) (e : exn) :
  get_current_user uid d = Raise e -> e = HTTPException 500 "Error fetching user".
Proof.
  unfold get_current_user.
  destruct (match filter (fun u => String.eqb (user_id u) uid) (users d) with
            | [] => Raise (HTTPException 404 "User not found")
            | user_data :: _ => User user_data
            end); [discriminate|].
  intros H. now injection H as <-.
Qed.

(** X7. [get_current_user] never answers 404: the 404 it raises for a user
    id that is not on file is caught by its own [except Exception] and leaves
    as 500 "Error fetching user", as does every other failure. When it
    returns, the user is on file under that id and has one of the three
    roles. *)
Theorem get_current_user_never_404 (uid : string) (d : db) :
  (forall e, get_current_user uid d = Raise e ->
     e = HTTPException 500 "Error fetching user")
  /\ ((forall u, In u (users d) -> user_id u <> uid) ->
      get_current_user uid d = Raise (HTTPException 500 "Error fetching user"))
  /\ (forall u, get_current_user uid d = Return u ->
      In u (users d) /\ user_id u = uid /\ In (role u) UserRole).
Proof.
  split; [apply get_current_user_raise|]. split; [|apply get_current_user_return].
  intros Hnone. unfold get_current_user.
  destruct (filter (fun u => String.eqb (user_id u) uid) (users d)) as [|x rest] eqn:E;
    [reflexivity|].
  exfalso.
  assert (Hin : In x (filter (fun u => String.eqb (user_id u) uid) (users d))).
  { rewrite E. now left. }
  apply filter_In in Hin. destruct Hin as [Hin Hid].
  apply String.eqb_eq in Hid. exact (Hnone x Hin Hid).
Qed.

Lemma role_in_list (u : user) (r1 r2 : string) :
  existsb (String.eqb (role u)) [r1; r2] = true <-> role u = r1 \/ role u = r2.
Proof.
  simpl. rewrite orb_false_r, orb_true_iff, !String.eqb_eq. reflexivity.
Qed.

Lemma require_admin_iff (u : user) :
  require_admin u = Return u <-> role u = "admin".
Proof.
  unfold require_admin. destruct (String.eqb_spec (role u) "admin") as [E | E]; simpl;
    split; intros H; try reflexivity; try assumption; try discriminate; contradiction.
Qed.

Lemma require_technician_or_admin_iff (u : user) :
  require_technician_or_admin u = Return u <-> role u = "technician" \/ role u = "admin".
Proof.
  unfold require_technician_or_admin. rewrite <- role_in_list.
  destruct (existsb (String.eqb (role u)) ["technician"; "admin"]); simpl;
    split; intros H; try reflexivity; discriminate.
Qed.

Lemma require_role_iff (r : string) (u : user) :
  require_role r u = Return u <-> role u = r \/ role u = "admin".
Proof.
  unfold require_role.
  destruct (String.eqb_spec (role u) r) as [E | E],
           (String.eqb_spec (role u) "admin") as [E' | E']; simpl;
    split; intros H; try reflexivity; try discriminate; auto.
  destruct H; contradiction.
Qed.

(** X8. The three guards form a hierarchy. Whoever passes [require_admin]
    passes [require_technician_or_admin] and [require_role r] for every role
    [r]; [require_role "admin"] admits exactly the callers [require_admin]
    admits, and [require_role "technician"] exactly those
    [require_technician_or_admin] admits. A guard hands back the user it was
    given or raises 403, nothing else. *)
Theorem guards_form_a_hierarchy (u : user) :
  (require_role "admin" u = Return u <-> require_admin u = Return u)
  /\ (require_role "technician" u = Return u
      <-> require_technician_or_admin u = Return u)
  /\ (require_admin u = Return u ->
      require_technician_or_admin u = Return u
      /\ forall r, require_role r u = Return u)
  /\ (forall guard,
      In guard [require_admin; require_technician_or_admin; require_role (role u);
                require_role "admin"; require_role "technician"; require_role "viewer"] ->
      guard u = Return u \/ exists detail, guard u = Raise (HTTPException 403 detail)).
Proof.
  split; [|split; [|split]].
  - rewrite require_role_iff, require_admin_iff. tauto.
  - rewrite require_role_iff, require_technician_or_admin_iff. tauto.
  - intros H. apply require_admin_iff in H. split.
    + apply require_technician_or_admin_iff. now right.
    + intros r. apply require_role_iff. now right.
  - intros guard Hg. simpl in Hg.
    repeat (destruct Hg as [<- | Hg]);
      try (unfold require_admin, require_technician_or_admin, require_role;
           match goal with
           | |- context [if ?b then _ else _] => destruct b
           end; [right; eexists; reflexivity | now left]).
    destruct Hg.
Qed.

(** What a request needs to get past [Depends(guard)]. *)
Lemma depends_inv {A : Type} (guard : user -> result user) (uid : string)
    (body : user -> db -> result A * db) (d d' : db) (out : result A) :
  depends guard uid body d = (out, d') ->
  d' <> d \/ (exists a, out = Return a) ->
  exists u u', In u (users d) /\ user_id u = uid
    /\ guard u = Return u' /\ body u' d = (out, d').
Proof.
  unfold depends. intros Hrun Hdone.
  destruct (get_current_user uid d) as [u|e] eqn:Eu; cbn [rbind] in Hrun.
  - destruct (guard u) as [u'|e] eqn:Eg.
    + apply get_current_user_return in Eu. destruct Eu as (Hin & Hid & _).
      now exists u, u'.
    + injection Hrun as <- <-. destruct Hdone as [H | (a & H)]; [now elim H | discriminate].
  - injection Hrun as <- <-. destruct Hdone as [H | (a & H)]; [now elim H | discriminate].
Qed.

Lemma require_technician_or_admin_return (u u' : user) :
  require_technician_or_admin u = Return u' ->
  u' = u /\ (role u = "technician" \/ role u = "admin").
Proof.
  intros H. assert (E : u' = u).
  { unfold require_technician_or_admin in H.
    destruct (negb _); [discriminate | now injection H]. }
  subst u'. split; [reflexivity | now apply require_technician_or_admin_iff].
Qed.

Lemma require_admin_return (u u' : user) :
  require_admin u = Return u' -> u' = u /\ role u = "admin".
Proof.
  intros H. assert (E : u' = u).
  { unfold require_admin in H. destruct (negb _); [discriminate | now injection H]. }
  subst u'. split; [reflexivity | now apply require_admin_iff].
Qed.

Section RouteProperties.

Variable fromisoformat : string -> option datetime.
Variable gen_random_uuid : nat -> string.

(** X9. Only a technician or an admin on file can record a completed visit:
    whenever a [complete-pms] request returns, or leaves the store changed
    in any way, its caller is a user on file whose role is technician or
    admin, and the outcome is that of the endpoint's body run for that
    user. *)
Theorem complete_pms_needs_technician_or_admin
    (cls : contract_class) (uid contract_id : string) (req : completion_request)
    (now : datetime) (d d' : db) (out : result completion_response) :
  post_complete_pms fromisoformat gen_random_uuid cls uid contract_id req now d
  = (out, d') ->
  d' <> d \/ (exists resp, out = Return resp) ->
  exists u, In u (users d) /\ user_id u = uid
    /\ (role u = "technician" \/ role u = "admin")
    /\ complete_pms fromisoformat gen_random_uuid cls contract_id req u now d
       = (out, d').
Proof.
  intros Hrun Hdone.
  destruct (depends_inv _ _ _ _ _ _ Hrun Hdone) as (u & u' & Hin & Hid & Hg & Hbody).
  apply require_technician_or_admin_return in Hg. destruct Hg as [-> Hrole].
  now exists u.
Qed.

End RouteProperties.

(** A viewer's request for an existing contract is turned away with 403 and
    writes nothing; a technician's goes through. *)
Lemma complete_pms_needs_technician_or_admin_witness :
  let c := Sample.row "h-1" "1" "active" (Some "2025-12-31T00:00:00")
             (Some "2024-01-01T00:00:00") 1 in
  let d := Sample.store [c] [] in
  let req := mkRequest None None None None None (Some "2024-01-15") None in
  let run := post_complete_pms iso_parse Sample.uuid Hardware "u-1" "h-1" req Sample.now d in
  post_complete_pms iso_parse Sample.uuid Hardware "u-2" "h-1" req Sample.now d
  = (Raise (HTTPException 403 "Technician or Admin access required"), d)
  /\ (exists resp, fst run = Return resp)
  /\ exists u, In u (users d) /\ user_id u = "u-1"
       /\ (role u = "technician" \/ role u = "admin").
Proof.
  intros c d req run. split; [reflexivity|].
  assert (Hret : exists resp, fst run = Return resp) by (eexists; reflexivity).
  split; [exact Hret|].
  destruct (complete_pms_needs_technician_or_admin iso_parse Sample.uuid Hardware
              "u-1" "h-1" req Sample.now d (snd run) (fst run))
    as (u & Hin & Hid & Hrole & _).
  - subst run. apply surjective_pairing.
  - right. exact Hret.
  - now exists u.
Defined.

(** X10. Only an admin on file can renumber a class: whenever a backfill or
    a resequencing request returns, or leaves the store changed, its caller
    is a user on file whose role is admin. *)
Theorem renumbering_needs_admin (cls : contract_class) (uid : string) (d : db) :
  (forall out d', post_backfill_sq cls uid d = (out, d') ->
     d' <> d \/ (exists report, out = Return report) ->
     exists u, In u (users d) /\ user_id u = uid /\ role u = "admin")
  /\ (forall out d', post_resequence_sq cls uid d = (out, d') ->
        d' <> d \/ (exists n, out = Return n) ->
        exists u, In u (users d) /\ user_id u = uid /\ role u = "admin").
Proof.
  split; intros out d' Hrun Hdone;
    destruct (depends_inv _ _ _ _ _ _ Hrun Hdone) as (u & u' & Hin & Hid & Hg & _);
    apply require_admin_return in Hg; destruct Hg as [_ Hrole]; now exists u.
Qed.

(** ** Recording a completed visit: what else it does, and what it never does *)

Lemma same_but_schedule_refl (r : contract) : same_but_schedule r r.
Proof. unfold same_but_schedule. tauto. Qed.

Lemma same_but_schedule_set (next_pms now : datetime) (r : contract) :
  same_but_schedule r (set_next_pms_schedule next_pms now r).
Proof. unfold same_but_schedule. simpl. tauto. Qed.

Lemma update_eq_id_schedule (key : string) (next_pms now : datetime)
    (table : list contract) :
  Forall2 (fun r r' => same_but_schedule r r' /\ (id r <> key -> r' = r))
    table (update_eq_id key (set_next_pms_schedule next_pms now) table).
Proof.
  unfold update_eq_id. apply Forall2_map_r. intros r _.
  destruct (String.eqb_spec (id r) key) as [E | E].
  - split; [apply same_but_schedule_set | contradiction].
  - split; [apply same_but_schedule_refl | reflexivity].
Qed.

Lemma Forall2_same {A : Type} (P : A -> A -> Prop) (l : list A) :
  (forall a, P a a) -> Forall2 P l l.
Proof. intros H. induction l; constructor; auto. Qed.

Section CompletionFrame.

Variable fromisoformat : string -> option datetime.
Variable gen_random_uuid : nat -> string.

(** X11. Whatever its outcome, a [complete-pms] call never touches the
    other class of contracts, the users or the inbox. In its own class it
    keeps every contract in place and changes none but those with the id it
    was given, and of those only the due date and the modification time: the
    status in particular stays, so an expired contract stays expired.
    Service events and audit entries are only ever added. *)
Theorem complete_pms_touches_one_schedule
    (cls : contract_class) (contract_id : string) (req : completion_request)
    (current_user : user) (now : datetime) (d d' : db)
    (out : result completion_response) :
  complete_pms fromisoformat gen_random_uuid cls contract_id req current_user now d
  = (out, d') ->
  table_of (other_class cls) d' = table_of (other_class cls) d
  /\ users d' = users d
  /\ notifications d' = notifications d
  /\ Forall2 (fun r r' => same_but_schedule r r' /\ (id r <> contract_id -> r' = r))
       (table_of cls d) (table_of cls d')
  /\ (forall ev, In ev (service_history d) -> In ev (service_history d'))
  /\ (forall a, In a (audit_trails d) -> In a (audit_trails d')).
Proof.
  unfold complete_pms.
  assert (Hsame : forall t : list contract,
            Forall2 (fun r r' => same_but_schedule r r' /\ (id r <> contract_id -> r' = r))
              t t).
  { intros t. apply Forall2_same. intros r. split; [apply same_but_schedule_refl | auto]. }
  destruct (select_eq_id contract_id (table_of cls d)) as [|c rest].
  { intros H. injection H as <- <-. repeat split; auto. }
  destruct (history_reachable d); cbn [negb].
  2: { intros H. injection H as <- <-. repeat split; auto. }
  destruct (add_days _ (completion_interval cls)) as [next_pms|e].
  - intros H. injection H as <- <-.
    destruct cls; cbn; (split; [reflexivity|]); (split; [reflexivity|]);
      (split; [reflexivity|]); (split; [apply update_eq_id_schedule|]);
      split; intros x Hx; apply in_or_app; now left.
  - intros H. injection H as <- <-.
    destruct cls; cbn; (split; [reflexivity|]); (split; [reflexivity|]);
      (split; [reflexivity|]); (split; [apply Hsame|]);
      split; intros x Hx; try (apply in_or_app; now left); exact Hx.
Qed.

(** X12. A completion dated so late that the next due date would fall
    after 9999-12-31 fails with 500, and not cleanly: the service event is
    on file by then, while the contract's due date is not advanced and no
    audit entry is written. *)
Theorem complete_pms_overflow_keeps_event
    (cls : contract_class) (contract_id : string) (req : completion_request)
    (current_user : user) (now : datetime) (d : db) :
  (exists c, In c (table_of cls d) /\ id c = contract_id) ->
  history_reachable d = true ->
  MAXORDINAL
  < ordinal (completion_datetime_of fromisoformat (completion_date req) now)
    + completion_interval cls ->
  exists (ev : service_event) (d' : db),
    complete_pms fromisoformat gen_random_uuid cls contract_id req current_user now d
    = (Raise (HTTPException 500 (failure_detail cls)), d')
    /\ service_history d' = (service_history d ++ [ev])%list
    /\ sh_contract_id ev = contract_id
    /\ sh_status ev = "completed"
    /\ sh_service_date ev
       = isoformat (completion_datetime_of fromisoformat (completion_date req) now)
    /\ hardware_contracts d' = hardware_contracts d
    /\ label_contracts d' = label_contracts d
    /\ audit_trails d' = audit_trails d.
Proof.
  intros Hex Hreach Hlate.
  destruct (select_eq_id_cons _ _ Hex) as (c & rest & Hsel).
  unfold complete_pms. rewrite Hsel, Hreach. cbn [negb].
  rewrite (add_days_out_of_range _ _ Hlate).
  eexists. eexists. split; [reflexivity|]. repeat split.
Qed.

(** X13. A [complete-pms] call lets no exception out but an [HTTPException]
    with status 404 or 500. It answers 404 exactly when no contract of the
    class has the id, and then, as when the history table cannot be
    reached, nothing has been written. *)
Theorem complete_pms_outcomes
    (cls : contract_class) (contract_id : string) (req : completion_request)
    (current_user : user) (now : datetime) (d : db) :
  let run :=
    complete_pms fromisoformat gen_random_uuid cls contract_id req current_user now d in
  let found := exists c, In c (table_of cls d) /\ id c = contract_id in
  (forall e, fst run = Raise e ->
     exists detail, e = HTTPException 404 detail \/ e = HTTPException 500 detail)
  /\ (fst run = Raise (HTTPException 404 (not_found_detail cls)) <-> ~ found)
  /\ (~ found -> snd run = d)
  /\ (found -> history_reachable d = false ->
      run = (Raise (HTTPException 500
               "Failed to create or access service_history table. Please contact administrator."),
             d)).
Proof.
  intros run found. subst run found. unfold complete_pms.
  destruct (select_eq_id contract_id (table_of cls d)) as [|c rest] eqn:Hsel.
  - assert (Hnone : ~ exists c, In c (table_of cls d) /\ id c = contract_id).
    { intros Hex. destruct (select_eq_id_cons _ _ Hex) as (c & rest & E). congruence. }
    cbn [fst snd]. split; [|split; [|split]].
    + intros e H. injection H as <-. eexists. now left.
    + tauto.
    + reflexivity.
    + intros Hf. contradiction.
  - assert (Hfound : exists c, In c (table_of cls d) /\ id c = contract_id).
    { exists c. now apply (select_eq_id_head _ _ _ rest). }
    destruct (history_reachable d); cbn [negb].
    + destruct (add_days _ (completion_interval cls)) as [next_pms|e0]; cbn [fst snd].
      * split; [discriminate|]. split; [split; [discriminate | tauto]|].
        split; [tauto | discriminate].
      * split; [intros e H; injection H as <-; eexists; now right|].
        split; [split; [discriminate | tauto]|].
        split; [tauto | discriminate].
    + cbn [fst snd].
      split; [intros e H; injection H as <-; eexists; now right|].
      split; [split; [discriminate | tauto]|].
      split; [tauto | reflexivity].
Qed.

End CompletionFrame.

(** An expired label contract is completed: it gets its new due date and is
    still expired; the hardware contract beside it is as it was. *)
Lemma complete_pms_touches_one_schedule_witness :
  let c := Sample.row "l-1" "1" "expired" (Some "2023-12-31T00:00:00")
             (Some "2024-01-01T00:00:00") 1 in
  let h := Sample.row "h-1" "1" "active" (Some "2025-12-31T00:00:00")
             (Some "2024-03-01T00:00:00") 2 in
  let d := Sample.store [h] [c] in
  let req := mkRequest None None None None None (Some "2024-01-15") None in
  let run := complete_label_pms iso_parse Sample.uuid "l-1" req Sample.technician
               Sample.now d in
  map status (label_contracts (snd run)) = ["expired"]
  /\ map next_pms_schedule (label_contracts (snd run)) = [Some "2024-02-14T00:00:00"]
  /\ hardware_contracts (snd run) = hardware_contracts d
  /\ users (snd run) = users d.
Proof.
  intros c h d req run.
  destruct (complete_pms_touches_one_schedule iso_parse Sample.uuid Label "l-1" req
              Sample.technician Sample.now d (snd run) (fst run))
    as (Hother & Husers & _).
  - subst run. apply surjective_pairing.
  - split; [reflexivity|]. split; [reflexivity|]. split; [exact Hother | exact Husers].
Defined.

(** A completion dated 9999-12-01: the hardware contract cannot be
    rescheduled, yet the visit is on file. *)
Lemma complete_pms_overflow_keeps_event_witness :
  let c := Sample.row "h-1" "1" "active" (Some "2025-12-31T00:00:00")
             (Some "2024-01-01T00:00:00") 1 in
  let d := Sample.store [c] [] in
  let req := mkRequest None None None None None (Some "9999-12-01") None in
  let run := complete_hardware_pms iso_parse Sample.uuid "h-1" req Sample.technician
               Sample.now d in
  fst run = Raise (HTTPException 500 "Error completing hardware PMS")
  /\ map sh_service_date (service_history (snd run)) = ["9999-12-01T00:00:00"]
  /\ hardware_contracts (snd run) = [c].
Proof.
  intros c d req run.
  destruct (complete_pms_overflow_keeps_event iso_parse Sample.uuid Hardware "h-1" req
              Sample.technician Sample.now d)
    as (ev & d' & Hrun & Hhist & _ & _ & Hdate & Hhw & _).
  - exists c. split; [now left | reflexivity].
  - reflexivity.
  - vm_compute. reflexivity.
  - subst run. unfold complete_hardware_pms. rewrite Hrun. cbn [fst snd].
    split; [reflexivity|]. split; [|exact Hhw].
    rewrite Hhist. simpl. now rewrite Hdate.
Defined.

(** ** The due-soon scan: what it writes *)

Lemma send_maintenance_notification_eq (c : contract * string) (d : db) :
  send_maintenance_notification c d
  = mkDb (hardware_contracts d) (label_contracts d) (service_history d) (users d)
      (notifications d ++ reminder_rows (users d) c)%list (audit_trails d)
      (history_reachable d).
Proof. reflexivity. Qed.

Lemma send_all_notifications (flagged : list (contract * string)) :
  forall d : db,
  fold_left (fun d c => send_maintenance_notification c d) flagged d
  = mkDb (hardware_contracts d) (label_contracts d) (service_history d) (users d)
      (notifications d ++ flat_map (reminder_rows (users d)) flagged)%list
      (audit_trails d) (history_reachable d).
Proof.
  induction flagged as [|c rest IH]; intros d.
  - simpl. rewrite app_nil_r. now destruct d.
  - cbn [fold_left flat_map]. rewrite IH, send_maintenance_notification_eq.
    cbn [hardware_contracts label_contracts service_history users notifications
         audit_trails history_reachable].
    now rewrite app_assoc.
Qed.

Lemma flat_map_length_const {A B : Type} (f : A -> list B) (l : list A) (k : nat) :
  (forall a, List.length (f a) = k) ->
  List.length (flat_map f l) = (List.length l * k)%nat.
Proof.
  intros H. induction l as [|a l IH]; simpl; [reflexivity|].
  rewrite length_app, H, IH. reflexivity.
Qed.

Section DueSoonScanWrites.

Variable fromisoformat : string -> option datetime.

(** X14. A run of the due-soon scan writes nothing but reminders: the
    contracts, the service history, the users and the audit trail are as
    they were, and the inbox grows by exactly one unread reminder for each
    contract flagged and each technician or admin, naming that contract and
    addressed to that user; a viewer gets none. *)
Theorem due_soon_scan_only_adds_reminders (now : datetime) (d : db) :
  let run := check_upcoming_maintenance fromisoformat now d in
  let added := flat_map (reminder_rows (users d)) (snd run) in
  hardware_contracts (fst run) = hardware_contracts d
  /\ label_contracts (fst run) = label_contracts d
  /\ service_history (fst run) = service_history d
  /\ users (fst run) = users d
  /\ audit_trails (fst run) = audit_trails d
  /\ notifications (fst run) = (notifications d ++ added)%list
  /\ List.length added
     = (List.length (snd run) * List.length (staff (users d)))%nat
  /\ forall n, In n added ->
     exists u c, In u (users d) /\ (role u = "technician" \/ role u = "admin")
       /\ In c (snd run) /\ n_user_id n = user_id u /\ n_contract_id n = id (fst c)
       /\ n_notification_type n = "maintenance_reminder" /\ n_is_read n = false.
Proof.
  intros run added. subst run added. rewrite check_upcoming_maintenance_eq.
  destruct (upcoming_date <- add_days now 7 ;;
            upcoming_loop fromisoformat upcoming_date (open_contracts d) [])
    as [flagged|e]; cbn [fst snd].
  - rewrite send_all_notifications.
    cbn [hardware_contracts label_contracts service_history users notifications
         audit_trails history_reachable].
    repeat (split; [reflexivity|]). split.
    + apply flat_map_length_const. intros c. unfold reminder_rows. apply length_map.
    + intros n Hn. apply in_flat_map in Hn. destruct Hn as (c & Hc & Hn).
      unfold reminder_rows in Hn. apply in_map_iff in Hn. destruct Hn as (u & <- & Hu).
      apply filter_In in Hu. destruct Hu as [Hu Hrole].
      apply orb_true_iff in Hrole. rewrite !String.eqb_eq in Hrole.
      exists u, c. now repeat split.
  - simpl. rewrite app_nil_r. repeat (split; [reflexivity|]). intros n [].
Qed.

(** X15. The scan keeps no record of whom it has reminded: run again with
    the clock unchanged, it flags the same contracts and writes the same
    reminders a second time. *)
Theorem due_soon_scan_repeats_reminders (now : datetime) (d : db) :
  let run1 := check_upcoming_maintenance fromisoformat now d in
  let run2 := check_upcoming_maintenance fromisoformat now (fst run1) in
  let added := flat_map (reminder_rows (users d)) (snd run1) in
  snd run2 = snd run1
  /\ notifications (fst run2) = (notifications d ++ added ++ added)%list.
Proof.
  intros run1 run2 added. subst run1 run2 added.
  rewrite !check_upcoming_maintenance_eq.
  destruct (upcoming_date <- add_days now 7 ;;
            upcoming_loop fromisoformat upcoming_date (open_contracts d) [])
    as [flagged|e] eqn:E; cbn [fst snd].
  - rewrite send_all_notifications.
    unfold open_contracts at 1 2.
    cbn [hardware_contracts label_contracts]. fold (open_contracts d).
    rewrite E. cbn [fst snd]. rewrite send_all_notifications.
    cbn [users notifications]. split; [reflexivity|]. now rewrite app_assoc.
  - rewrite E. cbn [fst snd]. split; [reflexivity|]. simpl. now rewrite app_nil_r.
Qed.

End DueSoonScanWrites.

(** ** Rescheduling after a service *)

Lemma isoformat_nonempty (d : datetime) : isoformat d <> "".
Proof.
  unfold isoformat. destruct (format_date (ordinal d)); simpl; discriminate.
Qed.

Lemma truthy_isoformat (d : datetime) : truthy (PStr (isoformat d)) = true.
Proof.
  simpl. apply negb_true_iff. apply String.eqb_neq. apply isoformat_nonempty.
Qed.

Lemma select_unique (table : list contract) (c : contract) :
  NoDup (map id table) -> In c table -> select_eq_id (id c) table = [c].
Proof.
  unfold select_eq_id. induction table as [|x t IH]; intros Hnd Hin; [destruct Hin|].
  simpl in Hnd. inversion Hnd as [|? ? Hnin Hnd']; subst. simpl.
  destruct Hin as [-> | Hin].
  - rewrite String.eqb_refl. f_equal. apply filter_none. intros r Hr.
    apply String.eqb_neq. intros E. apply Hnin. rewrite <- E. now apply in_map.
  - assert (Hne : String.eqb (id x) (id c) = false).
    { apply String.eqb_neq. intros E. apply Hnin. rewrite E. now apply in_map. }
    rewrite Hne. now apply IH.
Qed.

Lemma select_update_eq_id (key : string) (f : contract -> contract)
    (table : list contract) :
  (forall r, id (f r) = id r) ->
  select_eq_id key (update_eq_id key f table) = map f (select_eq_id key table).
Proof.
  intros Hid. unfold select_eq_id, update_eq_id.
  induction table as [|x t IH]; simpl; [reflexivity|].
  destruct (String.eqb (id x) key) eqn:E.
  - rewrite Hid, E. simpl. now rewrite IH.
  - rewrite E. exact IH.
Qed.

Section ReschedulingProperties.

Variable fromisoformat : string -> option datetime.

(** With an anchor that is there and parses, the next date is one cadence
    after the current schedule when that is there and parses, and one
    cadence after the anchor otherwise. *)
Lemma calculate_next_pms_schedule_eq
    (contract_date current_schedule : pyval) (contract_type : string) (a : datetime) :
  truthy contract_date = true ->
  as_datetime fromisoformat contract_date = Some a ->
  calculate_next_pms_schedule fromisoformat contract_date contract_type current_schedule
  = (d <- add_days
            (match (if truthy current_schedule
                    then as_datetime fromisoformat current_schedule else None) with
             | Some cur => cur
             | None => a
             end) (interval_days contract_type) ;;
     Return (Some d)).
Proof.
  intros Ht Ha. unfold calculate_next_pms_schedule. rewrite Ht, Ha. cbn [negb].
  unfold calculate_next_pms_from_contract_date, interval_days.
  destruct (truthy current_schedule); cbn [negb].
  - destruct (as_datetime fromisoformat current_schedule);
      destruct (String.eqb contract_type "hardware");
      destruct (String.eqb contract_type "label"); reflexivity.
  - destruct (String.eqb contract_type "hardware");
      destruct (String.eqb contract_type "label"); reflexivity.
Qed.

(** X16. Whatever it is given, [update_maintenance_schedule] never touches
    the other class of contracts, the service history, the users, the inbox
    or the audit trail. In the class it works on (hardware for the type
    "hardware", label for every other type) it keeps every contract in place
    and changes none but those with the id it was given, and of those only
    the due date and the modification time. For an id no contract has, the
    store stays as it is. *)
Theorem update_maintenance_schedule_touches_one_schedule
    (contract_id contract_type : string) (current_schedule : pyval)
    (now : datetime) (d : db) :
  let cls := if String.eqb contract_type "hardware" then Hardware else Label in
  let d' := update_maintenance_schedule fromisoformat contract_id contract_type
              current_schedule now d in
  table_of (other_class cls) d' = table_of (other_class cls) d
  /\ service_history d' = service_history d
  /\ users d' = users d
  /\ notifications d' = notifications d
  /\ audit_trails d' = audit_trails d
  /\ Forall2 (fun r r' => same_but_schedule r r' /\ (id r <> contract_id -> r' = r))
       (table_of cls d) (table_of cls d')
  /\ ((forall r, In r (table_of cls d) -> id r <> contract_id) -> d' = d).
Proof.
  intros cls d'. subst d'. unfold update_maintenance_schedule. fold cls.
  assert (Hsame : Forall2
            (fun r r' => same_but_schedule r r' /\ (id r <> contract_id -> r' = r))
            (table_of cls d) (table_of cls d)).
  { apply Forall2_same. intros r. split; [apply same_but_schedule_refl | auto]. }
  destruct (select_eq_id contract_id (table_of cls d)) as [|c rest] eqn:Hsel.
  { repeat split; auto. }
  assert (Hfound : ~ forall r, In r (table_of cls d) -> id r <> contract_id).
  { intros Hnone. rewrite (select_eq_id_nil _ _ Hnone) in Hsel. discriminate. }
  destruct (calculate_next_pms_schedule _ _ _ _) as [[next_date|]|e].
  - destruct cls; cbn; repeat (split; [reflexivity|]);
      (split; [apply update_eq_id_schedule | intros H; contradiction]).
  - repeat split; auto.
  - repeat split; auto.
Qed.

(** One call, for a contract whose anchor reads as [a]. *)
Lemma update_maintenance_schedule_step
    (contract_id contract_type : string) (now : datetime) (d : db)
    (c : contract) (rest : list contract) (a : datetime) :
  let cls := if String.eqb contract_type "hardware" then Hardware else Label in
  let stored := column (next_pms_schedule c) in
  let base := match (if truthy stored then as_datetime fromisoformat stored else None) with
              | Some cur => cur
              | None => a
              end in
  select_eq_id contract_id (table_of cls d) = c :: rest ->
  truthy (column (date_of_contract c)) = true ->
  as_datetime fromisoformat (column (date_of_contract c)) = Some a ->
  0 < ordinal base + interval_days contract_type <= MAXORDINAL ->
  update_maintenance_schedule fromisoformat contract_id contract_type PNone now d
  = with_table cls
      (update_eq_id contract_id
         (set_next_pms_schedule (shift base (interval_days contract_type)) now)
         (table_of cls d)) d.
Proof.
  intros cls stored base Hsel Ht Ha Hrange.
  unfold update_maintenance_schedule. fold cls. rewrite Hsel. cbn [truthy].
  rewrite (calculate_next_pms_schedule_eq _ _ _ a Ht Ha).
  fold stored. fold base. rewrite (add_days_in_range _ _ Hrange). reflexivity.
Qed.

(** X17. Called without a schedule of its own for a contract that is on
    file under a unique id and whose contract date parses,
    [update_maintenance_schedule] moves the due date one cadence (90 days
    for "hardware", 30 for any other type) on from the due date on file, or
    from the contract date when no due date is on file or it does not parse.
    When the clock reads plays no part in the new due date. *)
Theorem update_maintenance_schedule_advances
    (contract_id contract_type : string) (now : datetime) (d : db)
    (c : contract) (a : datetime) :
  let cls := if String.eqb contract_type "hardware" then Hardware else Label in
  let stored := column (next_pms_schedule c) in
  let base := match (if truthy stored then as_datetime fromisoformat stored else None) with
              | Some cur => cur
              | None => a
              end in
  let d' := update_maintenance_schedule fromisoformat contract_id contract_type
              PNone now d in
  NoDup (map id (table_of cls d)) ->
  In c (table_of cls d) -> id c = contract_id ->
  truthy (column (date_of_contract c)) = true ->
  as_datetime fromisoformat (column (date_of_contract c)) = Some a ->
  0 < ordinal base + interval_days contract_type <= MAXORDINAL ->
  (forall r, In r (table_of cls d') -> id r = contract_id ->
     next_pms_schedule r
     = Some (isoformat (shift base (interval_days contract_type))))
  /\ (exists r, In r (table_of cls d') /\ id r = contract_id)
  /\ forall now', table_of cls
                    (update_maintenance_schedule fromisoformat contract_id contract_type
                       PNone now' d)
                  = map (fun r => if String.eqb (id r) contract_id
                                  then set_next_pms_schedule
                                         (shift base (interval_days contract_type)) now' r
                                  else r) (table_of cls d).
Proof.
  intros cls stored base d' Hnd Hin Hid Ht Ha Hrange.
  assert (Hsel : select_eq_id contract_id (table_of cls d) = [c]).
  { rewrite <- Hid. now apply select_unique. }
  assert (Hstep : forall now',
            update_maintenance_schedule fromisoformat contract_id contract_type PNone now' d
            = with_table cls
                (update_eq_id contract_id
                   (set_next_pms_schedule (shift base (interval_days contract_type)) now')
                   (table_of cls d)) d).
  { intros now'.
    exact (update_maintenance_schedule_step contract_id contract_type now' d c [] a
             Hsel Ht Ha Hrange). }
  subst d'. rewrite Hstep, table_of_with_table. split; [|split].
  - intros r Hr Hrid. exact (update_eq_id_next _ _ _ _ _ Hr Hrid).
  - exists (set_next_pms_schedule (shift base (interval_days contract_type)) now c).
    split; [|exact Hid].
    unfold update_eq_id. apply in_map_iff. exists c. split; [|exact Hin].
    apply String.eqb_eq in Hid. now rewrite Hid.
  - intros now'. rewrite Hstep, table_of_with_table. reflexivity.
Qed.

(** Calls in a row, for a contract whose anchor reads as [a] and whose due
    date, after [j] calls, is the [j]-th cadence point. *)
Lemma update_maintenance_schedule_steps
    (contract_id contract_type : string) (a : datetime) (clocks : list datetime) :
  let cls := if String.eqb contract_type "hardware" then Hardware else Label in
  let days := interval_days contract_type in
  forall (d : db) (c : contract) (rest : list contract) (j : Z),
  0 <= j ->
  select_eq_id contract_id (table_of cls d) = c :: rest ->
  truthy (column (date_of_contract c)) = true ->
  as_datetime fromisoformat (column (date_of_contract c)) = Some a ->
  (j = 0 /\ truthy (column (next_pms_schedule c)) = false
   \/ 1 <= j /\ next_pms_schedule c = Some (isoformat (shift a (j * days)))) ->
  (forall i, 1 <= i <= j + Z.of_nat (List.length clocks) ->
     fromisoformat (replace_Z (isoformat (shift a (i * days))))
     = Some (shift a (i * days))) ->
  0 < ordinal a ->
  ordinal a + (j + Z.of_nat (List.length clocks)) * days <= MAXORDINAL ->
  (1 <= List.length clocks)%nat ->
  forall r,
  In r (table_of cls
          (fold_left (fun d now =>
             update_maintenance_schedule fromisoformat contract_id contract_type
               PNone now d) clocks d)) ->
  id r = contract_id ->
  next_pms_schedule r
  = Some (isoformat (shift a ((j + Z.of_nat (List.length clocks)) * days))).
Proof.
  intros cls days. pose proof (interval_days_pos contract_type) as Hpos. fold days in Hpos.
  induction clocks as [|now clocks IH];
    intros d c rest j Hj Hsel Ht Ha Hsched Hround Hord Hmax Hlen r Hr Hrid;
    [simpl in Hlen; lia|].
  cbn [fold_left] in Hr. cbn [List.length] in Hround, Hmax.
  (* what the first call starts from *)
  assert (Hbase :
    match (if truthy (column (next_pms_schedule c))
           then as_datetime fromisoformat (column (next_pms_schedule c)) else None) with
    | Some cur => cur
    | None => a
    end = shift a (j * days)).
  { destruct Hsched as [[-> Hnone] | [Hj1 Hsome]].
    - rewrite Hnone. unfold shift. destruct a; simpl. f_equal. lia.
    - rewrite Hsome. cbn [column]. rewrite truthy_isoformat. cbn [as_datetime].
      rewrite Hround by lia. reflexivity. }
  assert (Hstep :
    update_maintenance_schedule fromisoformat contract_id contract_type PNone now d
    = with_table cls
        (update_eq_id contract_id
           (set_next_pms_schedule (shift a ((j + 1) * days)) now) (table_of cls d)) d).
  { rewrite (update_maintenance_schedule_step contract_id contract_type now d c rest a
               Hsel Ht Ha).
    - fold cls. rewrite Hbase, shift_shift. fold days.
      now replace (j * days + days) with ((j + 1) * days) by lia.
    - rewrite Hbase. fold days. unfold shift. simpl. nia. }
  rewrite Hstep in Hr.
  destruct clocks as [|now' clocks].
  - cbn [fold_left] in Hr. rewrite table_of_with_table in Hr. cbn [List.length].
    replace (j + Z.of_nat 1) with (j + 1) by lia.
    exact (update_eq_id_next _ _ _ _ _ Hr Hrid).
  - replace (j + Z.of_nat (List.length (now :: now' :: clocks)))
      with ((j + 1) + Z.of_nat (List.length (now' :: clocks)))
      by (cbn [List.length]; lia).
    apply (IH (with_table cls
                 (update_eq_id contract_id
                    (set_next_pms_schedule (shift a ((j + 1) * days)) now)
                    (table_of cls d)) d)
             (set_next_pms_schedule (shift a ((j + 1) * days)) now c)
             (map (set_next_pms_schedule (shift a ((j + 1) * days)) now) rest)
             (j + 1)); try assumption; try lia.
    + rewrite table_of_with_table, select_update_eq_id by reflexivity.
      now rewrite Hsel.
    + right. split; [lia | reflexivity].
    + intros i Hi. apply Hround. lia.
    + cbn [List.length]. lia.
Qed.

(** X18. Rescheduling walks the full schedule. For a contract on file under
    a unique id, with a contract date that parses and no due date yet, [k]
    calls of [update_maintenance_schedule] in a row (k >= 1, at whatever
    times) leave it due on the [k]-th cadence point after the contract date,
    provided the dates written on the way read back as they were written
    and stay within the calendar; when that point is not after the end of
    the contract, it is the [k]-th entry of the contract's full schedule. *)
Theorem update_maintenance_schedule_walks_the_schedule
    (contract_id contract_type : string) (clocks : list datetime) (d : db)
    (c : contract) (a : datetime) :
  let cls := if String.eqb contract_type "hardware" then Hardware else Label in
  let days := interval_days contract_type in
  let k := List.length clocks in
  let d' := fold_left (fun d now =>
              update_maintenance_schedule fromisoformat contract_id contract_type
                PNone now d) clocks d in
  let due := isoformat (shift a (Z.of_nat k * days)) in
  NoDup (map id (table_of cls d)) ->
  In c (table_of cls d) -> id c = contract_id ->
  truthy (column (date_of_contract c)) = true ->
  as_datetime fromisoformat (column (date_of_contract c)) = Some a ->
  truthy (column (next_pms_schedule c)) = false ->
  (forall i, 1 <= i <= Z.of_nat k ->
     fromisoformat (replace_Z (isoformat (shift a (i * days))))
     = Some (shift a (i * days))) ->
  0 < ordinal a ->
  ordinal a + Z.of_nat k * days <= MAXORDINAL ->
  (1 <= k)%nat ->
  (forall r, In r (table_of cls d') -> id r = contract_id ->
     next_pms_schedule r = Some due)
  /\ forall e : datetime,
     truthy (column (end_of_contract c)) = true ->
     as_datetime fromisoformat (column (end_of_contract c)) = Some e ->
     aware a = aware e ->
     ordinal a + (intervals_between a e days + 1) * days <= MAXORDINAL ->
     instant (shift a (Z.of_nat k * days)) <= instant e ->
     exists sched,
       generate_full_pms_schedule fromisoformat (column (date_of_contract c))
         (column (end_of_contract c)) contract_type = Return sched
       /\ nth_error sched (k - 1) = Some due.
Proof.
  intros cls days k d' due Hnd Hin Hid Ht Ha Hnone Hround Hord Hmax Hk.
  assert (Hsel : select_eq_id contract_id (table_of cls d) = [c]).
  { rewrite <- Hid. now apply select_unique. }
  pose proof (interval_days_pos contract_type) as Hpos. fold days in Hpos.
  split.
  - intros r Hr Hrid. subst due k.
    replace (Z.of_nat (List.length clocks)) with (0 + Z.of_nat (List.length clocks)) by lia.
    apply (update_maintenance_schedule_steps contract_id contract_type a clocks d c [] 0);
      try assumption; try lia.
    left. now split.
  - intros e Hte He Haw Hmaxe Hle.
    rewrite (generate_schedule_points fromisoformat _ _ contract_type a e Ht Hte Ha He Haw
               Hord (fun _ => Hmaxe)).
    fold days. eexists. split; [reflexivity|].
    rewrite instant_shift in Hle.
    assert (HK : 0 < days * DAY_US) by (unfold DAY_US; lia).
    assert (Hn : Z.of_nat k <= intervals_between a e days).
    { unfold intervals_between. apply Z.div_le_lower_bound; [exact HK|]. lia. }
    rewrite nth_error_map, cadence_points_nth by lia.
    cbn [option_map]. subst due.
    now replace (Z.of_nat (S (k - 1))) with (Z.of_nat k) by lia.
Qed.

End ReschedulingProperties.

(** A label contract of 2024, due on 2024-02-15: one call moves it to
    2024-03-16, whenever it is made. *)
Lemma update_maintenance_schedule_advances_witness :
  let c := mkContract "l-1" (Some "1") "Acme Foods" "LBL-4x6" "SN-0007" None None None
             "active" (Some "2024-01-01T00:00:00") (Some "2024-12-31T00:00:00")
             (Some "2024-02-15T00:00:00") 1 "" in
  let d := Sample.store [] [c] in
  let d' := update_maintenance_schedule iso_parse "l-1" "label" PNone Sample.now d in
  NoDup (map id (label_contracts d))
  /\ map next_pms_schedule (label_contracts d') = [Some "2024-03-16T00:00:00"]
  /\ forall r, In r (label_contracts d') -> id r = "l-1" ->
     next_pms_schedule r = Some "2024-03-16T00:00:00".
Proof.
  intros c d d'.
  assert (Hnd : NoDup (map id (table_of Label d))) by distinct_ids.
  split; [exact Hnd|]. split; [reflexivity|].
  destruct (update_maintenance_schedule_advances iso_parse "l-1" "label" Sample.now d c
              (naive 2024 1 1 0 0 0) Hnd (or_introl eq_refl) eq_refl eq_refl eq_refl)
    as [H _].
  - vm_compute. split; [reflexivity | discriminate].
  - exact H.
Defined.

(** The same contract with no due date yet: two calls leave it due on
    2024-03-01, the second entry of its full schedule. *)
Lemma update_maintenance_schedule_walks_the_schedule_witness :
  let c := mkContract "l-1" (Some "1") "Acme Foods" "LBL-4x6" "SN-0007" None None None
             "active" (Some "2024-01-01T00:00:00") (Some "2024-12-31T00:00:00")
             None 1 "" in
  let d := Sample.store [] [c] in
  let step := fun d now => update_maintenance_schedule iso_parse "l-1" "label" PNone now d in
  let d' := fold_left step [Sample.now; Sample.now] d in
  NoDup (map id (label_contracts d))
  /\ (forall r, In r (label_contracts d') -> id r = "l-1" ->
      next_pms_schedule r = Some "2024-03-01T00:00:00")
  /\ exists sched,
       generate_full_pms_schedule iso_parse (PStr "2024-01-01T00:00:00")
         (PStr "2024-12-31T00:00:00") "label" = Return sched
       /\ nth_error sched 1 = Some "2024-03-01T00:00:00".
Proof.
  intros c d step d'.
  assert (Hnd : NoDup (map id (table_of Label d))) by distinct_ids.
  split; [exact Hnd|].
  destruct (update_maintenance_schedule_walks_the_schedule iso_parse "l-1" "label"
              [Sample.now; Sample.now] d c (naive 2024 1 1 0 0 0) Hnd
              (or_introl eq_refl) eq_refl eq_refl eq_refl eq_refl)
    as [Hdue Hsched].
  - intros i Hi. cbn [List.length] in Hi.
    assert (Hcases : i = 1 \/ i = 2) by lia.
    destruct Hcases as [-> | ->]; vm_compute; reflexivity.
  - vm_compute. reflexivity.
  - vm_compute. discriminate.
  - cbn [List.length]. lia.
  - split; [exact Hdue|].
    apply (Hsched (naive 2024 12 31 0 0 0)); try reflexivity.
    + vm_compute. discriminate.
    + vm_compute. discriminate.
Defined.

(** ** The importer's first due date *)

(** What the loop has collected stays at the front of what it returns. *)
Lemma schedule_loop_prefix (end_date : datetime) (days : Z) (Hpos : 0 < days) (n : nat) :
  forall (cur : datetime) (acc sched : list string),
  (Z.to_nat (intervals_between cur end_date days + 1) <= n)%nat ->
  schedule_loop end_date days Hpos cur acc = Return sched ->
  exists tail, sched = (acc ++ tail)%list.
Proof.
  induction n as [|n IH]; intros cur acc sched Hn H; rewrite schedule_loop_step in H;
    destruct (datetime_le cur end_date) as [[|]|] eqn:Hle; try discriminate;
    try (injection H as <-; exists []; now rewrite app_nil_r);
    destruct (add_days cur days) as [next|] eqn:Hadd; try discriminate;
    destruct (intervals_between_step _ _ _ _ Hpos Hle Hadd) as [H0 H1];
    [lia|].
  destruct (datetime_le next end_date) as [[|]|]; try discriminate.
  - destruct (IH next _ sched ltac:(lia) H) as [tail ->].
    exists (isoformat next :: tail). now rewrite <- app_assoc.
  - exact (IH next _ sched ltac:(lia) H).
Qed.

Lemma importer_next_pms_eq (fromisoformat : string -> option datetime)
    (contract_date : pyval) (contract_type : string) (a : datetime) :
  truthy contract_date = true ->
  as_datetime fromisoformat contract_date = Some a ->
  DataImport.calculate_next_pms_from_contract_date fromisoformat contract_date contract_type
  = (d <- add_days a (interval_days contract_type) ;; Return (Some d)).
Proof.
  intros Ht Ha. unfold DataImport.calculate_next_pms_from_contract_date, interval_days.
  rewrite Ht, Ha. cbn [negb].
  destruct (String.eqb contract_type "hardware");
    destruct (String.eqb contract_type "label"); reflexivity.
Qed.

(** X19. The importer's own [calculate_next_pms_from_contract_date] gives a
    sheet row the due date the scheduler's [calculate_next_pms_schedule]
    gives a contract that has no schedule yet, or whose schedule does not
    parse: nothing for an absent or unparseable contract date, the contract
    date plus one cadence otherwise. Whenever the contract's full schedule
    has a first entry, the importer returns that very date. *)
Theorem importer_first_due_date_agrees_with_scheduler
    (fromisoformat : string -> option datetime)
    (contract_date : pyval) (contract_type : string) :
  DataImport.calculate_next_pms_from_contract_date fromisoformat contract_date contract_type
  = calculate_next_pms_schedule fromisoformat contract_date contract_type PNone
  /\ (forall current_schedule,
      truthy current_schedule = false
      \/ as_datetime fromisoformat current_schedule = None ->
      calculate_next_pms_schedule fromisoformat contract_date contract_type
        current_schedule
      = DataImport.calculate_next_pms_from_contract_date fromisoformat contract_date
          contract_type)
  /\ (truthy contract_date = false \/ as_datetime fromisoformat contract_date = None ->
      DataImport.calculate_next_pms_from_contract_date fromisoformat contract_date
        contract_type = Return None)
  /\ (forall a, truthy contract_date = true ->
      as_datetime fromisoformat contract_date = Some a ->
      DataImport.calculate_next_pms_from_contract_date fromisoformat contract_date
        contract_type
      = (d <- calculate_next_pms_from_contract_date a contract_type ;; Return (Some d)))
  /\ (forall end_date sched first,
      generate_full_pms_schedule fromisoformat contract_date end_date contract_type
      = Return sched ->
      hd_error sched = Some first ->
      exists due,
        DataImport.calculate_next_pms_from_contract_date fromisoformat contract_date
          contract_type = Return (Some due)
        /\ first = isoformat due).
Proof.
  assert (Hsame : forall current_schedule,
            truthy current_schedule = false
            \/ as_datetime fromisoformat current_schedule = None ->
            calculate_next_pms_schedule fromisoformat contract_date contract_type
              current_schedule
            = DataImport.calculate_next_pms_from_contract_date fromisoformat contract_date
                contract_type).
  { intros cs Hcs.
    unfold calculate_next_pms_schedule, DataImport.calculate_next_pms_from_contract_date,
      calculate_next_pms_from_contract_date.
    destruct (negb (truthy contract_date)); [reflexivity|].
    destruct (as_datetime fromisoformat contract_date) as [a|]; [|reflexivity].
    destruct Hcs as [Hcs | Hcs]; rewrite Hcs; cbn [negb]; [reflexivity|].
    now destruct (negb (truthy cs)). }
  split; [symmetry; apply Hsame; now left|]. split; [exact Hsame|].
  split; [|split].
  - unfold DataImport.calculate_next_pms_from_contract_date.
    intros [H | H]; rewrite H; [reflexivity|].
    now destruct (negb (truthy contract_date)).
  - intros a Ht Ha. unfold DataImport.calculate_next_pms_from_contract_date.
    rewrite Ht, Ha. reflexivity.
  - intros end_date sched first Hgen Hhd.
    (* a schedule with an entry was not produced by one of the early exits *)
    unfold generate_full_pms_schedule in Hgen.
    destruct (truthy contract_date) eqn:Ht;
      [|cbn in Hgen; injection Hgen as <-; discriminate Hhd].
    destruct (truthy end_date) eqn:Hte;
      [|cbn in Hgen; injection Hgen as <-; discriminate Hhd].
    cbn [negb orb] in Hgen.
    destruct (as_datetime fromisoformat contract_date) as [a|] eqn:Ha;
      [|injection Hgen as <-; discriminate Hhd].
    destruct (as_datetime fromisoformat end_date) as [e|] eqn:He;
      [|injection Hgen as <-; discriminate Hhd].
    rewrite schedule_loop_step in Hgen.
    destruct (datetime_le a e) as [[|]|] eqn:Hle;
      [| injection Hgen as <-; discriminate Hhd | discriminate Hgen].
    destruct (add_days a (interval_days contract_type)) as [next|] eqn:Hadd;
      [|discriminate Hgen].
    exists next. split.
    + rewrite (importer_next_pms_eq _ _ _ a Ht Ha), Hadd. reflexivity.
    + destruct (datetime_le next e) as [[|]|] eqn:Hle2; [| |discriminate Hgen].
      * destruct (schedule_loop_prefix _ _ _ _ _ _ _ (Nat.le_refl _) Hgen) as [tail ->].
        cbn in Hhd. now injection Hhd as <-.
      * (* the loop has ended: [next] is past the end date *)
        exfalso. rewrite schedule_loop_step, Hle2 in Hgen.
        injection Hgen as <-. discriminate Hhd.
Qed.

(** ** Deleting a contract *)

Lemma select_eq_id_delete (key : string) (table : list contract) :
  select_eq_id key (filter (fun r => negb (String.eqb (id r) key)) table) = [].
Proof.
  apply select_eq_id_nil. intros r Hr. apply filter_In in Hr. destruct Hr as [_ Hr].
  apply negb_true_iff in Hr. now apply String.eqb_neq.
Qed.

Lemma select_eq_id_delete_other (key key' : string) (table : list contract) :
  key' <> key ->
  select_eq_id key' (filter (fun r => negb (String.eqb (id r) key)) table)
  = select_eq_id key' table.
Proof.
  intros Hne. unfold select_eq_id. rewrite filter_filter.
  apply filter_ext. intros r.
  destruct (String.eqb_spec (id r) key) as [E | E]; [|reflexivity].
  simpl. symmetry. apply String.eqb_neq. congruence.
Qed.

Lemma delete_contract_found (cls : contract_class) (contract_id : string)
    (client_host : option string) (current_user : user) (now : datetime) (d : db)
    (c : contract) (rest : list contract) :
  select_eq_id contract_id (table_of cls d) = c :: rest ->
  delete_contract cls contract_id client_host current_user now d
  = (Return (deleted_message cls),
     log_contract_activity contract_id (audit_entity_of cls) "delete"
       (deleted_by cls ++ full_name current_user ++ ": " ++ fstr (sq c)
        ++ " - " ++ end_user c)
       (user_id current_user) client_host now
       (with_table cls
          (filter (fun r => negb (String.eqb (id r) contract_id)) (table_of cls d)) d)).
Proof.
  intros Hsel. unfold delete_contract, delete_eq_id. cbn [fst snd].
  now rewrite Hsel.
Qed.

Lemma delete_contract_inv (cls : contract_class) (contract_id : string)
    (client_host : option string) (current_user : user) (now : datetime) (d d' : db)
    (msg : string) :
  delete_contract cls contract_id client_host current_user now d = (Return msg, d') ->
  table_of cls d'
  = filter (fun r => negb (String.eqb (id r) contract_id)) (table_of cls d).
Proof.
  intros H.
  destruct (select_eq_id contract_id (table_of cls d)) as [|c rest] eqn:Hsel.
  - unfold delete_contract in H. rewrite Hsel in H. discriminate.
  - rewrite (delete_contract_found _ _ _ _ _ _ c rest Hsel) in H.
    injection H as _ <-. now destruct cls.
Qed.

(** X20. Deleting a contract answers 404 and writes nothing when the class
    has no contract with the id. Otherwise it removes every contract of the
    class with that id and no other, keeps the rest in order, and appends
    one audit entry of action "delete" that names the contract and the
    caller. The other class, the users and the notifications stay as they
    are, and so does the service history: the events recorded for the
    deleted contract remain on file. *)
Theorem delete_removes_contract_and_keeps_history
    (cls : contract_class) (contract_id : string) (client_host : option string)
    (current_user : user) (now : datetime) (d : db) :
  let run := delete_contract cls contract_id client_host current_user now d in
  ((forall r, In r (table_of cls d) -> id r <> contract_id) ->
   run = (Raise (HTTPException 404 (not_found_detail cls)), d))
  /\ ((exists r, In r (table_of cls d) /\ id r = contract_id) ->
      fst run = Return (deleted_message cls)
      /\ table_of cls (snd run)
         = filter (fun r => negb (String.eqb (id r) contract_id)) (table_of cls d)
      /\ (forall r, In r (table_of cls (snd run))
                    <-> In r (table_of cls d) /\ id r <> contract_id)
      /\ table_of (other_class cls) (snd run) = table_of (other_class cls) d
      /\ service_history (snd run) = service_history d
      /\ users (snd run) = users d
      /\ notifications (snd run) = notifications d
      /\ exists entry,
           audit_trails (snd run) = (audit_trails d ++ [entry])%list
           /\ a_action entry = "delete"
           /\ a_entity_type entry = audit_entity_of cls
           /\ a_entity_id entry = contract_id
           /\ a_created_by entry = user_id current_user
           /\ a_ip_address entry = client_host).
Proof.
  intros run. subst run. split.
  - intros Hnone. unfold delete_contract.
    now rewrite (select_eq_id_nil _ _ Hnone).
  - intros Hsome. destruct (select_eq_id_cons _ _ Hsome) as (c & rest & Hsel).
    rewrite (delete_contract_found _ _ _ _ _ _ c rest Hsel). cbn [fst snd].
    split; [reflexivity|].
    split; [now destruct cls|].
    split.
    { intros r. replace (table_of cls (log_contract_activity _ _ _ _ _ _ _ _))
        with (filter (fun r => negb (String.eqb (id r) contract_id)) (table_of cls d))
        by now destruct cls.
      rewrite filter_In, negb_true_iff, String.eqb_neq. reflexivity. }
    split; [now destruct cls|].
    split; [now destruct cls|].
    split; [now destruct cls|].
    split; [now destruct cls|].
    eexists. split; [destruct cls; reflexivity|]. now repeat split.
Qed.

Section AfterDeletion.

Variable fromisoformat : string -> option datetime.
Variable gen_random_uuid : nat -> string.

(** X21. A deleted contract is gone for every later request. After a
    deletion that returned, a second deletion of the same id, a completed
    visit for it and a request for its schedule all answer 404, and neither
    they nor a rescheduling of that id change the store. Requests for any
    other id of the class find the contracts they found before. *)
Theorem deleted_contract_is_gone
    (cls : contract_class) (contract_id : string) (client_host : option string)
    (current_user : user) (now : datetime) (d d' : db) (msg : string) :
  delete_contract cls contract_id client_host current_user now d = (Return msg, d') ->
  let gone := HTTPException 404 (not_found_detail cls) in
  (forall host' user' now',
     delete_contract cls contract_id host' user' now' d' = (Raise gone, d'))
  /\ (forall req user' now',
      complete_pms fromisoformat gen_random_uuid cls contract_id req user' now' d'
      = (Raise gone, d'))
  /\ get_pms_schedule fromisoformat cls contract_id d' = Raise gone
  /\ (forall current_schedule now',
      update_maintenance_schedule fromisoformat contract_id (contract_type_of cls)
        current_schedule now' d' = d')
  /\ (forall other_id, other_id <> contract_id ->
      select_eq_id other_id (table_of cls d') = select_eq_id other_id (table_of cls d)).
Proof.
  intros Hrun gone. subst gone.
  pose proof (delete_contract_inv _ _ _ _ _ _ _ _ Hrun) as Htab.
  assert (Hsel : select_eq_id contract_id (table_of cls d') = []).
  { rewrite Htab. apply select_eq_id_delete. }
  split; [|split; [|split; [|split]]].
  - intros host' user' now'. unfold delete_contract. now rewrite Hsel.
  - intros req user' now'. unfold complete_pms. now rewrite Hsel.
  - unfold get_pms_schedule. now rewrite Hsel.
  - intros cs now'. unfold update_maintenance_schedule.
    replace (if String.eqb (contract_type_of cls) "hardware" then Hardware else Label)
      with cls by now destruct cls.
    now rewrite Hsel.
  - intros other_id Hne. rewrite Htab. now apply select_eq_id_delete_other.
Qed.

(** X22. The schedule endpoints answer 404 exactly when the class has no
    contract with the id, and let no other exception out than that 404 and
    a 500 with their own detail, which stands for every exception of the
    generator. When they return, the answer echoes the id and the two dates
    on file, carries the contract's full schedule, and counts its entries.
    A contract whose contract date or end date is absent, empty or
    unparseable gets an empty schedule, not an error. *)
Theorem pms_schedule_endpoint_outcomes (cls : contract_class) (contract_id : string)
    (d : db) :
  let run := get_pms_schedule fromisoformat cls contract_id d in
  (run = Raise (HTTPException 404 (not_found_detail cls))
   <-> forall r, In r (table_of cls d) -> id r <> contract_id)
  /\ (forall e, run = Raise e ->
      e = HTTPException 404 (not_found_detail cls)
      \/ e = HTTPException 500 (schedule_failure_detail cls))
  /\ (forall c rest, select_eq_id contract_id (table_of cls d) = c :: rest ->
      (run = Raise (HTTPException 500 (schedule_failure_detail cls))
       <-> exists e,
             generate_full_pms_schedule fromisoformat (column (date_of_contract c))
               (column (end_of_contract c)) (contract_type_of cls) = Raise e)
      /\ (forall resp, run = Return resp ->
          ps_contract_id resp = contract_id
          /\ ps_contract_type resp = contract_type_of cls
          /\ ps_contract_date resp = date_of_contract c
          /\ ps_end_date resp = end_of_contract c
          /\ generate_full_pms_schedule fromisoformat (column (date_of_contract c))
               (column (end_of_contract c)) (contract_type_of cls)
             = Return (pms_schedules resp)
          /\ total_schedules resp = Z.of_nat (List.length (pms_schedules resp)))
      /\ (truthy (column (date_of_contract c)) = false
          \/ truthy (column (end_of_contract c)) = false
          \/ as_datetime fromisoformat (column (date_of_contract c)) = None
          \/ as_datetime fromisoformat (column (end_of_contract c)) = None ->
          run = Return (mkSchedule contract_id (contract_type_of cls)
                          (date_of_contract c) (end_of_contract c) [] 0))).
Proof.
  intros run. subst run. unfold get_pms_schedule.
  destruct (select_eq_id contract_id (table_of cls d)) as [|c rest] eqn:Hsel.
  - split; [|split].
    + split; [|reflexivity]. intros _ r Hr Hid.
      assert (Hin : In r (select_eq_id contract_id (table_of cls d))).
      { apply filter_In. split; [exact Hr | now apply String.eqb_eq]. }
      rewrite Hsel in Hin. destruct Hin.
    + intros e H. injection H as <-. now left.
    + intros c rest H. discriminate H.
  - assert (Hc : In c (table_of cls d) /\ id c = contract_id)
      by exact (select_eq_id_head _ _ _ _ Hsel).
    split; [|split].
    + split.
      * intros H.
        destruct (generate_full_pms_schedule _ _ _ _); [discriminate H|].
        injection H as H. now destruct cls.
      * intros Hnone. destruct Hc as [Hin Hid]. now elim (Hnone c Hin).
    + intros e H. destruct (generate_full_pms_schedule _ _ _ _); [discriminate H|].
      injection H as <-. now right.
    + intros c0 rest0 H. injection H as <- <-.
      split; [|split].
      * split.
        -- intros H. destruct (generate_full_pms_schedule _ _ _ _) as [s|e];
             [discriminate H | now exists e].
        -- intros [e He]. now rewrite He.
      * intros resp H.
        destruct (generate_full_pms_schedule _ _ _ _) as [s|e]; [|discriminate H].
        injection H as <-. now repeat split.
      * intros Hdeg. now rewrite (generate_schedule_degraded _ _ _ _ Hdeg).
Qed.

End AfterDeletion.

(** One hardware contract with a recorded visit: the deletion returns, the
    visit stays in the history, and a second deletion answers 404. *)
Lemma deleted_contract_is_gone_witness :
  let c := Sample.row "h-1" "1" "active" (Some "2025-12-31T00:00:00")
             (Some "2024-01-01T00:00:00") 1 in
  let d := Sample.store [c] [] in
  let req := mkRequest None None None None None (Some "2024-01-15") None in
  let d1 := snd (complete_pms iso_parse Sample.uuid Hardware "h-1" req Sample.technician
                   Sample.now d) in
  let run := delete_contract Hardware "h-1" None Sample.technician Sample.now d1 in
  fst run = Return "Hardware contract deleted successfully"
  /\ map sh_contract_id (service_history (snd run)) = ["h-1"]
  /\ delete_contract Hardware "h-1" None Sample.technician Sample.now (snd run)
     = (Raise (HTTPException 404 "Hardware contract not found"), snd run)
  /\ get_pms_schedule iso_parse Hardware "h-1" (snd run)
     = Raise (HTTPException 404 "Hardware contract not found").
Proof.
  intros c d req d1 run.
  split; [reflexivity|]. split; [reflexivity|].
  destruct (deleted_contract_is_gone iso_parse Sample.uuid Hardware "h-1" None
              Sample.technician Sample.now d1 (snd run)
              "Hardware contract deleted successfully" eq_refl)
    as (Hdel & _ & Hget & _).
  split; [apply Hdel | exact Hget].
Defined.

(** ** The scans after other operations *)

Lemma open_contracts_in (d : db) (c : contract * string) :
  In c (open_contracts d) <->
  status (fst c) <> "expired"
  /\ (snd c = "hardware" /\ In (fst c) (hardware_contracts d)
      \/ snd c = "label" /\ In (fst c) (label_contracts d)).
Proof.
  unfold open_contracts, select_neq_expired. rewrite in_app_iff, !in_map_iff. split.
  - intros [(r & <- & Hr) | (r & <- & Hr)]; apply filter_In in Hr;
      destruct Hr as [Hin Hs]; apply negb_true_iff, String.eqb_neq in Hs; simpl; auto.
  - destruct c as [r ty]. simpl. intros (Hs & [[-> Hin] | [-> Hin]]);
      [left | right]; exists r; (split; [reflexivity|]); apply filter_In;
      (split; [exact Hin|]); now apply negb_true_iff, String.eqb_neq.
Qed.

Lemma open_contracts_class (cls : contract_class) (d : db) (c : contract * string) :
  In c (open_contracts d) -> snd c = contract_type_of cls -> In (fst c) (table_of cls d).
Proof.
  intros Hc Hty. apply open_contracts_in in Hc.
  destruct Hc as (_ & [[E Hin] | [E Hin]]); rewrite E in Hty;
    destruct cls; try discriminate Hty; exact Hin.
Qed.

Section ScansAfterOtherOperations.

Variable fromisoformat : string -> option datetime.
Variable gen_random_uuid : nat -> string.

(** What the loop flags it was given, with a due date that parses and lies
    at or before the date it looks ahead to. *)
Lemma upcoming_loop_flagged (upcoming_date : datetime) (all : list (contract * string)) :
  forall (acc flagged : list (contract * string)),
  upcoming_loop fromisoformat upcoming_date all acc = Return flagged ->
  forall c, In c flagged ->
  In c acc
  \/ (In c all
      /\ exists s due, next_pms_schedule (fst c) = Some s
           /\ fromisoformat (replace_Z s) = Some due
           /\ instant due <= instant upcoming_date).
Proof.
  induction all as [|x rest IH]; intros acc flagged H c Hc.
  - simpl in H. injection H as <-. now left.
  - rewrite upcoming_loop_cons in H.
    assert (Hrest : forall acc', upcoming_loop fromisoformat upcoming_date rest acc'
                                 = Return flagged ->
              In c acc' \/ (In c (x :: rest)
                /\ exists s due, next_pms_schedule (fst c) = Some s
                     /\ fromisoformat (replace_Z s) = Some due
                     /\ instant due <= instant upcoming_date)).
    { intros acc' H'. destruct (IH _ _ H' c Hc) as [Hin | [Hin Hdue]];
        [now left | right; split; [now right | exact Hdue]]. }
    destruct (next_pms_schedule (fst x)) as [s|] eqn:Es; [|now apply Hrest].
    destruct (negb (String.eqb s "")); [|now apply Hrest].
    destruct (fromisoformat (replace_Z s)) as [due|] eqn:Ep; [|discriminate].
    destruct (Bool.eqb (aware due) (aware upcoming_date)); [|discriminate].
    destruct (Hrest _ H) as [Hin | Hin]; [|now right].
    destruct (instant due <=? instant upcoming_date) eqn:El; [|now left].
    apply in_app_or in Hin. destruct Hin as [Hin | [<- | []]]; [now left|].
    right. split; [now left|]. exists s, due. apply Z.leb_le in El. auto.
Qed.

(** A flagged contract is open and due within seven days of the clock. *)
Lemma due_soon_scan_flagged (now : datetime) (d : db) (c : contract * string) :
  In c (snd (check_upcoming_maintenance fromisoformat now d)) ->
  In c (open_contracts d)
  /\ exists s due, next_pms_schedule (fst c) = Some s
       /\ fromisoformat (replace_Z s) = Some due
       /\ instant due <= instant (shift now 7).
Proof.
  rewrite check_upcoming_maintenance_eq.
  destruct (add_days now 7) as [upcoming_date|] eqn:E; simpl; [|contradiction].
  apply (add_days_inv now upcoming_date 7) in E. destruct E as [-> _].
  fold (shift now 7).
  destruct (upcoming_loop fromisoformat (shift now 7) (open_contracts d) [])
    as [flagged|] eqn:E; simpl; [|contradiction].
  intros Hc.
  destruct (upcoming_loop_flagged _ _ _ _ E c Hc) as [[] | H]. exact H.
Qed.

(** X23. A recorded visit takes the contract off the due-soon list. After a
    complete-pms call that returned, with the completion date read as
    [completion], no due-soon scan flags a contract of that class and id as
    long as the date it looks ahead to, seven days after its clock, lies
    before [completion] plus the cadence, provided the due date the call
    wrote reads back as it was written. *)
Theorem completed_contract_leaves_due_soon_list
    (cls : contract_class) (contract_id : string) (req : completion_request)
    (current_user : user) (now now' : datetime) (d d' : db)
    (resp : completion_response) :
  let completion := completion_datetime_of fromisoformat (completion_date req) now in
  let next_pms := shift completion (completion_interval cls) in
  complete_pms fromisoformat gen_random_uuid cls contract_id req current_user now d
  = (Return resp, d') ->
  fromisoformat (replace_Z (isoformat next_pms)) = Some next_pms ->
  instant (shift now' 7) < instant next_pms ->
  forall c, In c (snd (check_upcoming_maintenance fromisoformat now' d')) ->
  snd c = contract_type_of cls -> id (fst c) <> contract_id.
Proof.
  intros completion next_pms Hrun Hround Hlt c Hc Hty Hid.
  destruct (complete_pms_return_inv _ _ _ _ _ _ _ _ _ _ Hrun)
    as (c0 & rest & next & Hsel & Hreach & Hadd).
  destruct (complete_pms_returns fromisoformat gen_random_uuid cls contract_id req
              current_user now d c0 rest next Hsel Hreach Hadd)
    as (resp0 & d0 & ev & Hrun0 & _ & _ & _ & _ & _ & _ & _ & Htab).
  rewrite Hrun in Hrun0. injection Hrun0 as <- <-.
  apply (add_days_inv completion next (completion_interval cls)) in Hadd.
  destruct Hadd as [Hnext _]. fold (shift completion (completion_interval cls)) in Hnext.
  fold next_pms in Hnext. subst next.
  destruct (due_soon_scan_flagged _ _ _ Hc) as (Hopen & s & due & Hs & Hdue & Hle).
  pose proof (open_contracts_class cls _ _ Hopen Hty) as Hin.
  rewrite Htab in Hin.
  pose proof (update_eq_id_next _ _ _ _ _ Hin Hid) as Hnew.
  rewrite Hnew in Hs. injection Hs as <-.
  rewrite Hround in Hdue. injection Hdue as <-. lia.
Qed.

Lemma check_expired_contracts_tables (now : datetime) (d : db) :
  NoDup (map id (hardware_contracts d)) ->
  NoDup (map id (label_contracts d)) ->
  hardware_contracts (fst (check_expired_contracts fromisoformat now d))
  = map (expire_if_eligible fromisoformat now) (hardware_contracts d)
  /\ label_contracts (fst (check_expired_contracts fromisoformat now d))
     = map (expire_if_eligible fromisoformat now) (label_contracts d).
Proof.
  intros Hhw Hlb. unfold check_expired_contracts.
  rewrite (expire_table_spec fromisoformat _ _ _ _ _ Hhw).
  rewrite (expire_table_spec fromisoformat _ _ _ _ _ Hlb).
  split; reflexivity.
Qed.

Lemma expire_if_eligible_open (now : datetime) (table : list contract) (r : contract) :
  In r (map (expire_if_eligible fromisoformat now) table) ->
  status r <> "expired" ->
  In r table /\ past_end fromisoformat (date now) r = false.
Proof.
  intros Hin Hs. apply in_map_iff in Hin. destruct Hin as (r0 & E & Hr0).
  unfold expire_if_eligible in E.
  destruct (expiry_eligible fromisoformat (date now) r0) eqn:El.
  - subst r. now elim Hs.
  - subst r0. split; [exact Hr0|].
    unfold expiry_eligible in El. apply andb_false_iff in El.
    destruct El as [El | El]; [|exact El].
    apply negb_false_iff, String.eqb_eq in El. contradiction.
Qed.

(** X24. After the expiry scan no reminder goes out for a contract that has
    run out. On tables with a primary key, every contract a due-soon scan
    flags in the store the expiry scan left is a contract that was open
    before the expiry scan and that it did not touch, and its end date,
    with the time of day dropped, is absent, unparseable or not before the
    day of the expiry scan. *)
Theorem expired_contracts_get_no_reminder (now now' : datetime) (d : db) :
  NoDup (map id (hardware_contracts d)) ->
  NoDup (map id (label_contracts d)) ->
  let d1 := fst (check_expired_contracts fromisoformat now d) in
  forall c, In c (snd (check_upcoming_maintenance fromisoformat now' d1)) ->
  In c (open_contracts d)
  /\ past_end fromisoformat (date now) (fst c) = false
  /\ (forall end_date, contract_end_date fromisoformat (fst c) = Some end_date ->
      date now <= end_date).
Proof.
  intros Hhw Hlb d1 c Hc.
  destruct (check_expired_contracts_tables now d Hhw Hlb) as [Ehw Elb]. fold d1 in Ehw, Elb.
  destruct (due_soon_scan_flagged _ _ _ Hc) as [Hopen _].
  apply open_contracts_in in Hopen. destruct Hopen as (Hs & Hin).
  assert (H : (snd c = "hardware" /\ In (fst c) (hardware_contracts d)
               \/ snd c = "label" /\ In (fst c) (label_contracts d))
              /\ past_end fromisoformat (date now) (fst c) = false).
  { destruct Hin as [[Hty Hin] | [Hty Hin]].
    - rewrite Ehw in Hin. destruct (expire_if_eligible_open _ _ _ Hin Hs). auto.
    - rewrite Elb in Hin. destruct (expire_if_eligible_open _ _ _ Hin Hs). auto. }
  destruct H as [Hin0 Hpast].
  split; [apply open_contracts_in; now split|]. split; [exact Hpast|].
  intros end_date He. unfold past_end in Hpast. rewrite He in Hpast.
  apply Z.ltb_ge in Hpast. exact Hpast.
Qed.

End ScansAfterOtherOperations.

(** A hardware contract due on 2024-01-05 is flagged on 2024-01-01; once a
    visit of 2024-01-02 is recorded it is due on 2024-04-01 and flagged no
    more. *)
Lemma completed_contract_leaves_due_soon_list_witness :
  let c := Sample.row "h-1" "1" "active" (Some "2025-12-31T00:00:00")
             (Some "2024-01-05T00:00:00") 1 in
  let d := Sample.store [c] [] in
  let req := mkRequest None None None None None (Some "2024-01-02") None in
  let run := complete_pms iso_parse Sample.uuid Hardware "h-1" req Sample.technician
               Sample.now d in
  snd (check_upcoming_maintenance iso_parse Sample.now d) = [(c, "hardware")]
  /\ (exists resp, fst run = Return resp
                   /\ response_next_pms_schedule resp = "2024-04-01T00:00:00")
  /\ forall x, In x (snd (check_upcoming_maintenance iso_parse Sample.now (snd run))) ->
     snd x = "hardware" -> id (fst x) <> "h-1".
Proof.
  intros c d req run.
  split; [reflexivity|]. split; [eexists; split; reflexivity|].
  refine (completed_contract_leaves_due_soon_list iso_parse Sample.uuid Hardware "h-1"
            req Sample.technician Sample.now Sample.now d (snd run) _ _ _ _).
  - reflexivity.
  - vm_compute. reflexivity.
  - vm_compute. reflexivity.
Defined.

(** Two hardware contracts due on 2024-01-05, one of which ran out on
    2023-12-31: both are flagged before the expiry scan, the running one
    alone after it. *)
Lemma expired_contracts_get_no_reminder_witness :
  let over := Sample.row "h-1" "1" "active" (Some "2023-12-31T00:00:00")
                (Some "2024-01-05T00:00:00") 1 in
  let running := Sample.row "h-2" "2" "active" (Some "2025-12-31T00:00:00")
                   (Some "2024-01-05T00:00:00") 2 in
  let d := Sample.store [over; running] [] in
  let d1 := fst (check_expired_contracts iso_parse Sample.now d) in
  map (fun x => id (fst x)) (snd (check_upcoming_maintenance iso_parse Sample.now d))
  = ["h-1"; "h-2"]
  /\ map (fun x => id (fst x)) (snd (check_upcoming_maintenance iso_parse Sample.now d1))
     = ["h-2"]
  /\ forall x, In x (snd (check_upcoming_maintenance iso_parse Sample.now d1)) ->
     past_end iso_parse (date Sample.now) (fst x) = false.
Proof.
  intros over running d d1.
  split; [reflexivity|]. split; [reflexivity|].
  intros x Hx.
  assert (Hhw : NoDup (map id (hardware_contracts d))) by distinct_ids.
  assert (Hlb : NoDup (map id (label_contracts d))) by constructor.
  exact (proj1 (proj2 (expired_contracts_get_no_reminder iso_parse Sample.now Sample.now
                         d Hhw Hlb x Hx))).
Defined.

(** ** Stepping by a frequency *)

(** X25. [calculate_next_maintenance] moves a date on by 30, 90, 180 or 365
    days, an unknown frequency counting as monthly, or raises the overflow
    of the addition. Quarterly is the hardware cadence and monthly the
    cadence of every other class. From a valid date three monthly steps are
    one quarterly step and two quarterly steps one semi-annual step, but a
    yearly step is five days longer than two semi-annual steps. *)
Theorem calculate_next_maintenance_steps (current_date : datetime) (frequency : string) :
  let step := fun f d => calculate_next_maintenance d f in
  (exists n, In n [30; 90; 180; 365]
     /\ calculate_next_maintenance current_date frequency = add_days current_date n
     /\ (~ In frequency ["quarterly"; "semi-annual"; "yearly"] -> n = 30))
  /\ calculate_next_maintenance current_date "quarterly"
     = calculate_next_pms_from_contract_date current_date "hardware"
  /\ (forall contract_type, contract_type <> "hardware" ->
      calculate_next_maintenance current_date "monthly"
      = calculate_next_pms_from_contract_date current_date contract_type)
  /\ (0 < ordinal current_date ->
      (a <- step "monthly" current_date ;; b <- step "monthly" a ;; step "monthly" b)
      = step "quarterly" current_date
      /\ (a <- step "quarterly" current_date ;; step "quarterly" a)
         = step "semi-annual" current_date
      /\ forall y, step "yearly" current_date = Return y ->
         (a <- step "semi-annual" current_date ;; step "semi-annual" a)
         = Return (shift y (-5))).
Proof.
  intros step. split; [|split; [|split]].
  - unfold calculate_next_maintenance.
    destruct (String.eqb_spec frequency "monthly") as [E1 | E1];
      [exists 30; simpl; auto 10|].
    destruct (String.eqb_spec frequency "quarterly") as [E2 | E2];
      [exists 90; subst frequency; simpl; intuition auto 10|].
    destruct (String.eqb_spec frequency "semi-annual") as [E3 | E3];
      [exists 180; subst frequency; simpl; intuition auto 10|].
    destruct (String.eqb_spec frequency "yearly") as [E4 | E4];
      [exists 365; subst frequency; simpl; intuition auto 10|].
    exists 30; simpl; auto 10.
  - reflexivity.
  - intros ct Hct. unfold calculate_next_pms_from_contract_date.
    apply String.eqb_neq in Hct. rewrite Hct.
    now destruct (String.eqb ct "label").
  - intros Hord. subst step. cbn beta.
    change (calculate_next_maintenance ?d "monthly") with (add_days d 30).
    change (calculate_next_maintenance ?d "quarterly") with (add_days d 90).
    change (calculate_next_maintenance ?d "semi-annual") with (add_days d 180).
    change (calculate_next_maintenance ?d "yearly") with (add_days d 365).
    assert (Hstep : forall d n, 0 < n -> 0 < ordinal d ->
              add_days d n
              = if ordinal d + n <=? MAXORDINAL then Return (shift d n)
                else Raise OverflowError).
    { intros d n Hn Hd. destruct (Z.leb_spec (ordinal d + n) MAXORDINAL) as [H | H].
      - apply add_days_in_range. lia.
      - apply add_days_out_of_range. lia. }
    split; [|split].
    + rewrite !(Hstep current_date) by lia.
      destruct (Z.leb_spec (ordinal current_date + 30) MAXORDINAL) as [H1 | H1];
        cbn [rbind].
      * rewrite (Hstep (shift current_date 30)) by (simpl; lia).
        cbn [shift ordinal].
        destruct (Z.leb_spec (ordinal current_date + 30 + 30) MAXORDINAL) as [H2 | H2];
          cbn [rbind].
        -- rewrite (Hstep (shift (shift current_date 30) 30)) by (simpl; lia).
           rewrite !shift_shift. cbn [shift ordinal].
           destruct (Z.leb_spec (ordinal current_date + (30 + 30) + 30) MAXORDINAL),
                    (Z.leb_spec (ordinal current_date + 90) MAXORDINAL);
             try lia; reflexivity.
        -- destruct (Z.leb_spec (ordinal current_date + 90) MAXORDINAL);
             [lia | reflexivity].
      * destruct (Z.leb_spec (ordinal current_date + 90) MAXORDINAL);
          [lia | reflexivity].
    + rewrite !(Hstep current_date) by lia.
      destruct (Z.leb_spec (ordinal current_date + 90) MAXORDINAL) as [H1 | H1];
        cbn [rbind].
      * rewrite (Hstep (shift current_date 90)) by (simpl; lia).
        rewrite shift_shift. cbn [shift ordinal].
        destruct (Z.leb_spec (ordinal current_date + 90 + 90) MAXORDINAL),
                 (Z.leb_spec (ordinal current_date + 180) MAXORDINAL);
          try lia; reflexivity.
      * destruct (Z.leb_spec (ordinal current_date + 180) MAXORDINAL);
          [lia | reflexivity].
    + intros y Hy. apply add_days_inv in Hy. destruct Hy as [-> Hy].
      rewrite (Hstep current_date) by lia.
      destruct (Z.leb_spec (ordinal current_date + 180) MAXORDINAL) as [H1 | H1];
        [|lia]. cbn [rbind].
      rewrite (Hstep (shift current_date 180)) by (simpl; lia).
      cbn [shift ordinal].
      destruct (Z.leb_spec (ordinal current_date + 180 + 180) MAXORDINAL); [|lia].
      unfold shift. simpl. do 2 f_equal. lia.
Qed.

(** ** Resequencing twice *)





